(** * ap-yaml-obfuscator: a shallow embedding of the obfuscator and its encoder

    The development follows the three source files:
    - [apmodel.py]      the typed configuration model (options, triggers, games, root);
    - [obfuscate.py]    the escaped flow-style encoder;
    - [ap-obfuscate.py] the name generator and the wrapping engine.

    Python values are immutable Rocq values here: a document is the tree
    of its values, which is what it is when no list or mapping of it
    occurs twice (a YAML alias of an anchored collection makes one object
    occur twice).  In [Module Store], at the end of the definitions, the
    engine is embedded a second time over an explicit object store, where
    objects are shared and mutated where they are. *)

From Stdlib Require Import ZArith NArith String Ascii DecimalString HexadecimalString.
From stdpp Require Import base option list gmap.

Local Open Scope Z_scope.
Set Warnings "-register-all,-clear-no-such-hyp".

(** ** Python strings, exceptions and results *)

(** A Python [str] is a sequence of Unicode code points. *)
Abbreviation pystr := (list N).

(** An ASCII literal as a [str]. *)
Definition py (s : string) : pystr := N_of_ascii <$> list_ascii_of_string s.

(** The double-quote character. *)
Definition dquote : pystr := [34%N].

(** [sep.join(parts)] *)
Fixpoint join (sep : pystr) (parts : list pystr) : pystr :=
  match parts with
  | [] => []
  | [p] => p
  | p :: rest => p ++ sep ++ join sep rest
  end.

(** The decimal text of an integer: a minus sign for a negative one, then
    its digits. *)
Definition decimal (z : Z) : pystr := py (DecimalString.NilZero.string_of_int (Z.to_int z)).

(** [str(b)] for a [bool]. *)
Definition str_bool (b : bool) : pystr := if b then py "True" else py "False".

(** The exceptions the program can raise. *)
Inductive exn :=
| NotImplementedError (msg : pystr)
| Exception_ (msg : pystr)
| AssertionError
| KeyError
| IndexError (msg : pystr)
| ValueError
| TypeError
| AttributeError
| RecursionError
| SystemError.

(** [sys.get_int_max_str_digits()]: the interpreter, from Python 3.11 on
    (the program needs it for [add_note]), refuses to turn an [int] of
    more decimal digits into a [str].  The program leaves the limit at
    its default. *)
Definition int_max_str_digits : Z := 4300.
Arguments int_max_str_digits : simpl never.

(** The outcome of a call: a returned value or a raised exception. *)
Inductive result (A : Type) :=
| Ok (a : A)
| Raise (e : exn).
Arguments Ok {A} a.
Arguments Raise {A} e.

#[global] Instance result_ret : MRet result := @Ok.
#[global] Instance result_bind : MBind result := fun A B f m =>
  match m with
  | Ok a => f a
  | Raise e => Raise e
  end.

#[global] Instance result_fmap : FMap result := fun A B f m =>
  match m with
  | Ok a => Ok (f a)
  | Raise e => Raise e
  end.

(** [assert b] *)
Definition assert_ (b : bool) : result unit :=
  if b then Ok tt else Raise AssertionError.

(** [str(n)], and [f'{n}'], for an [int]: [ValueError] when [n] has more
    than [int_max_str_digits] decimal digits. *)
Definition str_int (z : Z) : result pystr :=
  if bool_decide (Z.abs z < 10 ^ int_max_str_digits) then Ok (decimal z)
  else Raise ValueError.

(** [map(f, xs)] consumed from left to right; the first exception ends it. *)
Definition mapR {A B} (f : A -> result B) : list A -> result (list B) :=
  fix go (l : list A) : result (list B) :=
    match l with
    | [] => Ok []
    | x :: rest => y ← f x; ys ← go rest; Ok (y :: ys)
    end.

(** ** The generic value tree (what the YAML loader hands over) *)

(** A [float], carried by the text [str()] gives it: the program only
    prints floats. *)
Record pyfloat := PyFloat { float_str : pystr }.

(** Keys of a mapping: the hashable scalars.  [KOther] stands for a hashable
    object of another type (bytes, a date), with the text of its type and
    of its [str()]. *)
Inductive key :=
| KNone
| KBool (b : bool)
| KInt (z : Z)
| KFloat (f : pyfloat)
| KStr (s : pystr)
| KOther (tyname text : pystr).

(** Values.  A [dict] keeps its items in insertion order.  [VOther] stands
    for an object of any other type. *)
Inductive value :=
| VNone
| VBool (b : bool)
| VInt (z : Z)
| VFloat (f : pyfloat)
| VStr (s : pystr)
| VList (xs : list value)
| VDict (d : list (key * value))
| VOther (tyname text : pystr) (hashable : bool).

#[global] Instance pyfloat_eq_dec : EqDecision pyfloat.
Proof. solve_decision. Defined.
#[global] Instance key_eq_dec : EqDecision key.
Proof. solve_decision. Defined.
#[global] Instance exn_eq_dec : EqDecision exn.
Proof. solve_decision. Defined.

(** [str(type(obj))] *)
Definition type_str (obj : value) : pystr :=
  match obj with
  | VNone => py "<class 'NoneType'>"
  | VBool _ => py "<class 'bool'>"
  | VInt _ => py "<class 'int'>"
  | VFloat _ => py "<class 'float'>"
  | VStr _ => py "<class 'str'>"
  | VList _ => py "<class 'list'>"
  | VDict _ => py "<class 'dict'>"
  | VOther ty _ _ => ty
  end.

(** [str(type(key))] *)
Definition key_type_str (k : key) : pystr :=
  match k with
  | KNone => py "<class 'NoneType'>"
  | KBool _ => py "<class 'bool'>"
  | KInt _ => py "<class 'int'>"
  | KFloat _ => py "<class 'float'>"
  | KStr _ => py "<class 'str'>"
  | KOther ty _ => ty
  end.

(** The text of a key: what [str(k)] is when it returns. *)
Definition key_text (k : key) : pystr :=
  match k with
  | KNone => py "None"
  | KBool b => str_bool b
  | KInt z => decimal z
  | KFloat f => float_str f
  | KStr s => s
  | KOther _ text => text
  end.

(** [str(k)] for a key. *)
Definition str_key (k : key) : result pystr :=
  match k with
  | KInt z => str_int z
  | _ => Ok (key_text k)
  end.

(** A value used as a dict key ([{v: 1}]): unhashable values raise. *)
Definition key_of_value (v : value) : result key :=
  match v with
  | VNone => Ok KNone
  | VBool b => Ok (KBool b)
  | VInt z => Ok (KInt z)
  | VFloat f => Ok (KFloat f)
  | VStr s => Ok (KStr s)
  | VList _ | VDict _ => Raise TypeError
  | VOther ty text hashable => if hashable then Ok (KOther ty text) else Raise TypeError
  end.

(** A key as a value: [list(d.keys())[0]]. *)
Definition value_of_key (k : key) : value :=
  match k with
  | KNone => VNone
  | KBool b => VBool b
  | KInt z => VInt z
  | KFloat f => VFloat f
  | KStr s => VStr s
  | KOther ty text => VOther ty text true
  end.

(** ** Python dicts: association lists in insertion order *)

Section pydict.
Context {K V : Type} `{EqDecision K}.

(** [d.get(k)] *)
Fixpoint dict_get (k : K) (d : list (K * V)) : option V :=
  match d with
  | [] => None
  | (k', v) :: rest => if decide (k = k') then Some v else dict_get k rest
  end.

(** [k in d] *)
Definition dict_in (k : K) (d : list (K * V)) : bool :=
  bool_decide (k ∈ d.*1).

(** [d[k]] *)
Definition dict_item (k : K) (d : list (K * V)) : result V :=
  match dict_get k d with
  | Some v => Ok v
  | None => Raise KeyError
  end.

(** [d[k] = v]: an existing key keeps its position, a new one goes last. *)
Fixpoint dict_set (k : K) (v : V) (d : list (K * V)) : list (K * V) :=
  match d with
  | [] => [(k, v)]
  | (k', v') :: rest =>
      if decide (k = k') then (k, v) :: rest else (k', v') :: dict_set k v rest
  end.

(** The items left by [del d[k]] when [k] is a key. *)
Fixpoint dict_remove (k : K) (d : list (K * V)) : list (K * V) :=
  match d with
  | [] => []
  | (k', v') :: rest =>
      if decide (k = k') then rest else (k', v') :: dict_remove k rest
  end.

(** [del d[k]] *)
Definition dict_del (k : K) (d : list (K * V)) : result (list (K * V)) :=
  if dict_in k d then Ok (dict_remove k d) else Raise KeyError.
End pydict.

(** ** apmodel.py *)

(** The option classes: [WeightedOption], [CustomOption] and, from
    ap-obfuscate.py, the subclass [WrappedWeightedOption] of [WeightedOption]. *)
Inductive Option :=
| WeightedOption (weights : list (pystr * value))
| CustomOption (raw : value)
| WrappedWeightedOption (weights : list (pystr * value))
    (original_option : Option) (original_name : pystr)
    (wrapped_weights_names : list (pystr * pystr)).

(** [isinstance(option, WeightedOption)] *)
Definition isinstance_WeightedOption (option : Option) : bool :=
  match option with
  | WeightedOption _ | WrappedWeightedOption _ _ _ _ => true
  | CustomOption _ => false
  end.

(** [isinstance(option, WrappedWeightedOption)] *)
Definition isinstance_WrappedWeightedOption (option : Option) : bool :=
  match option with
  | WrappedWeightedOption _ _ _ _ => true
  | _ => false
  end.

(** [option.weights] of an instance of [WeightedOption]. *)
Definition weights_of (option : Option) : list (pystr * value) :=
  match option with
  | WeightedOption w | WrappedWeightedOption w _ _ _ => w
  | CustomOption _ => []
  end.

Definition GAME_SPECIAL_OPTIONS : gset pystr :=
  list_to_set
    [py "local_items"; py "non_local_items"; py "start_inventory";
     py "start_inventory_from_pool";
     py "start_hints"; py "start_location_hints";
     py "exclude_locations"; py "priority_locations";
     py "item_links";
     py "plando_weakness"].

Module CustomOption.
Definition parse (option_name : pystr) (obj : value) : result Option :=
  Ok (CustomOption obj).

Definition output (raw : value) : result value := Ok raw.
End CustomOption.

Module WeightedOption.
(** [{str(k): v for k, v in obj.items()}]: item by item, the first
    [str(k)] that raises ends it. *)
Definition stringify_keys (d : list (key * value)) : result (list (pystr * value)) :=
  foldl (fun acc (kv : key * value) =>
           weights ← acc;
           label ← str_key kv.1;
           Ok (dict_set label kv.2 weights))
        (Ok []) d.

Definition parse (option_name : pystr) (obj : value) : result Option :=
  match obj with
  | VDict d => weights ← stringify_keys d; Ok (WeightedOption weights)
  | VStr s => Ok (WeightedOption [(s, VInt 1)])
  (* a bool is an int *)
  | VBool b => Ok (WeightedOption [(str_bool b, VInt 1)])
  | VInt z => label ← str_int z; Ok (WeightedOption [(label, VInt 1)])
  | VList _ => Raise (NotImplementedError (py "Not weighted option"))
  | _ => Raise (NotImplementedError (type_str obj))
  end.

(** The weights mapping as a generic value. *)
Definition weights_value (weights : list (pystr * value)) : value :=
  VDict (prod_map KStr id <$> weights).

Definition output (weights : list (pystr * value)) : result value :=
  if decide (length weights = 1%nat) then
    match weights with
    | (label, _) :: _ => Ok (VStr label)
    | [] => Raise (IndexError [])
    end
  else if decide (length weights = 0%nat) then
    Raise (Exception_ (py "Empty weigthed option"))
  else Ok (weights_value weights).
End WeightedOption.

Module Option.
Definition parse (option_name : pystr) (obj : value) : result Option :=
  if bool_decide (option_name ∈ GAME_SPECIAL_OPTIONS) then
    CustomOption.parse option_name obj
  else
    match WeightedOption.parse option_name obj with
    | Raise (NotImplementedError _) => CustomOption.parse option_name obj
    | r => r
    end.

(** [option.output()], dispatched on the class. *)
Definition output (option : Option) : result value :=
  match option with
  | WeightedOption w | WrappedWeightedOption w _ _ _ => WeightedOption.output w
  | CustomOption raw => CustomOption.output raw
  end.
End Option.

(** ** obfuscate.py *)

(** [f'{n:0{width}x}']: lower-case hexadecimal, zero-padded to [width]. *)
Definition format_hex (width : nat) (n : N) : pystr :=
  let digits := py (HexadecimalString.NilZero.string_of_uint (N.to_hex_uint n)) in
  replicate (width - length digits) 48%N ++ digits.

Definition ord_to_unicode (codepoint : Z) : result pystr :=
  _ ← assert_ (bool_decide (codepoint >= 0));
  _ ← assert_ (bool_decide (codepoint < 2 ^ 32));
  if decide (codepoint < 2 ^ 16) then
    Ok (py "\u" ++ format_hex 4 (Z.to_N codepoint))
  else
    Ok (py "\U" ++ format_hex 8 (Z.to_N codepoint)).

Definition str_to_unicode_escapes (s : pystr) : result pystr :=
  parts ← mapR ord_to_unicode (Z.of_N <$> s);
  Ok (join [] parts).

(** [do_dict_inner], over the encoder it calls back. *)
Definition do_dict_inner_with (do : value -> result pystr) (k : key) (v : value)
  : result pystr :=
  match k with
  | KStr s =>
      esc ← str_to_unicode_escapes s;
      r ← do v;
      Ok (dquote ++ esc ++ dquote ++ py ":" ++ r)
  (* a bool is an int *)
  | KBool b => r ← do v; Ok (str_bool b ++ py ": " ++ r)
  (* the key is formatted before the value is encoded *)
  | KInt z => digits ← str_int z; r ← do v; Ok (digits ++ py ": " ++ r)
  | KNone => r ← do v; Ok (dquote ++ dquote ++ py ":" ++ r)
  | _ => Raise (NotImplementedError (key_type_str k))
  end.

(** [do].  The recursion is as deep as the tree is nested; the limit the
    interpreter puts on that depth is left out of the embedding. *)
Fixpoint do (obj : value) : result pystr :=
  match obj with
  | VStr s => esc ← str_to_unicode_escapes s; Ok (dquote ++ esc ++ dquote)
  | VList xs => parts ← mapR do xs; Ok (py "[" ++ join (py ",") parts ++ py "]")
  | VNone => Ok (py "null")
  | VBool b => Ok (if b then py "true" else py "false")
  | VInt z => str_int z
  | VFloat f => Ok (float_str f)
  | VDict d =>
      parts ← mapR (fun x : key * value => do_dict_inner_with do x.1 x.2) d;
      Ok (py "{" ++ join (py ",") parts ++ py "}")
  | VOther _ _ _ => Raise (NotImplementedError (type_str obj))
  end.

Definition do_dict_inner (k : key) (v : value) : result pystr :=
  do_dict_inner_with do k v.

Definition to_obfuscated_yaml (obj : value) : result pystr := do obj.

(** ** apmodel.py: triggers, games, root *)

Module Trigger.
Record t := make {
  option_category : pystr;
  option_name : pystr;
  (* annotated [str], but [parse] stores what the document has *)
  option_result : value;
  options : value
}.

Definition output (self : t) : value :=
  VDict [(KStr (py "option_category"), VStr (option_category self));
         (KStr (py "option_name"), VStr (option_name self));
         (KStr (py "option_result"), option_result self);
         (KStr (py "options"), options self)].
End Trigger.
Abbreviation Trigger := Trigger.t.

Module Game.
Record t := make {
  name : pystr;
  triggers : list Trigger;
  options : list (pystr * Option)
}.

Definition output (self : t) : result value :=
  base ← foldl (fun acc kv =>
                  base ← acc;
                  v ← Option.output kv.2;
                  Ok (dict_set (KStr kv.1) v base))
               (Ok []) (options self);
  if decide (triggers self ≠ []) then
    Ok (VDict (dict_set (KStr (py "triggers"))
                        (VList (Trigger.output <$> triggers self)) base))
  else Ok (VDict base).
End Game.
Abbreviation Game := Game.t.

Module Requires.
Record t := make { version : value }.

Definition output (self : t) : value := VDict [(KStr (py "version"), version self)].
End Requires.

Module Root.
Record t := make {
  name : value;
  description : value;
  requires : Requires.t;
  games : list Game;
  game_weights : list (key * value);
  triggers : list Trigger
}.

Definition game_by_name (self : t) (game_name : pystr) : result Game :=
  match list_find (fun game => Game.name game = game_name) (games self) with
  | Some (_, game) => Ok game
  | None => Raise (IndexError game_name)
  end.

(** The effect on [self] of mutating, in place, the game that
    [game_by_name] returned: the first game of that name is the one
    that changed. *)
Definition with_game (self : t) (game_name : pystr) (game : Game) : t :=
  match list_find (fun game => Game.name game = game_name) (games self) with
  | Some (i, _) =>
      make (name self) (description self) (requires self)
           (<[i:=game]> (games self)) (game_weights self) (triggers self)
  | None => self
  end.
(** [{game.name: game.output() for game in self.games}] *)
Definition games_output (games : list Game) : result (list (key * value)) :=
  foldl (fun acc game =>
           outputs ← acc;
           v ← Game.output game;
           Ok (dict_set (KStr (Game.name game)) v outputs))
        (Ok []) games.

(** [base.update(other)] *)
Definition dict_update {K V} `{EqDecision K} (base other : list (K * V)) : list (K * V) :=
  foldl (fun base kv => dict_set kv.1 kv.2 base) base other.

Definition output (self : t) : result value :=
  let base := [(KStr (py "name"), name self);
               (KStr (py "description"), description self);
               (KStr (py "requires"),
                VDict [(KStr (py "version"), Requires.version (requires self))])] in
  let base := if decide (triggers self ≠ [])
              then dict_set (KStr (py "triggers"))
                            (VList (Trigger.output <$> triggers self)) base
              else base in
  _ ← assert_ (bool_decide (0 < length (game_weights self))%nat);
  game ← (if decide (length (game_weights self) = 1%nat) then
            match game_weights self with
            | (k, _) :: _ => Ok (value_of_key k)
            | [] => Raise (IndexError [])
            end
          else Ok (VDict (game_weights self)));
  let base := dict_set (KStr (py "game")) game base in
  outputs ← games_output (games self);
  Ok (VDict (dict_update base outputs)).
End Root.
Abbreviation Root := Root.t.

(** ** ap-obfuscate.py: the source of randomness *)

(** Computations that raise and carry a state: the state outlives an
    exception, as mutations in Python do. *)
Definition M (S A : Type) : Type := S -> result A * S.

#[global] Instance M_ret {S} : MRet (M S) := fun A a s => (Ok a, s).
#[global] Instance M_bind {S} : MBind (M S) := fun A B f m s =>
  match m s with
  | (Ok a, s') => f a s'
  | (Raise e, s') => (Raise e, s')
  end.

Definition raise {S A} (e : exn) : M S A := fun s => (Raise e, s).

Definition lift {S A} (r : result A) : M S A := fun s => (r, s).

(** [for x in xs: st = body(st, x)] *)
Fixpoint for_ {S A St} (xs : list A) (body : St -> A -> M S St) (st : St) : M S St :=
  match xs with
  | [] => mret st
  | x :: rest => st' ← body st x; for_ rest body st'
  end.

(** The module [random]: an arbitrary infinite sequence of draws, read
    one at a time. *)
Record rng := Rng { draws : N -> N; pos : N }.

(** One draw below [n] (for [n > 0]). *)
Definition randbelow (n : N) : M rng N := fun r =>
  (Ok (draws r (pos r) mod n)%N, Rng (draws r) (N.succ (pos r))).

(** [random.randint(a, b)] *)
Definition randint (a b : Z) : M rng Z :=
  if decide (b < a) then raise ValueError
  else k ← randbelow (Z.to_N (b - a + 1)); mret (a + Z.of_N k).

(** [random.choice(seq)] *)
Definition choice {A} (seq : list A) : M rng A :=
  if decide (seq = []) then raise (IndexError [])
  else
    k ← randbelow (N.of_nat (length seq));
    match seq !! N.to_nat k with
    | Some x => mret x
    | None => raise (IndexError [])
    end.

(** ** ap-obfuscate.py: the name generator *)

Definition WEIRD_CHARS : pystr :=
  [0x20; 0xa0;
   0x2000; 0x2001; 0x2002; 0x2003; 0x2004; 0x2005; 0x2006; 0x2007; 0x2008;
   0x2009; 0x200a; 0x2028; 0x2029; 0x202f; 0x205f; 0x3000;
   0x180e; 0x200b; 0x200d; 0x2060; 0xfeff]%N.

(** [random.choice(WEIRD_CHARS) for _ in range(n)] *)
Fixpoint weird_chars (n : nat) : M rng pystr :=
  match n with
  | O => mret []
  | S n' => c ← choice WEIRD_CHARS; rest ← weird_chars n'; mret (c :: rest)
  end.

Definition generate_new_name (minlen maxlen : Z) : M rng pystr :=
  n ← randint minlen maxlen;
  weird_chars (Z.to_nat n).

(** What [name in inside] needs of [inside]: a list, a set and the keys
    of a dict all provide it. *)
Class Contains (C : Type) := contains : pystr -> C -> bool.
#[global] Instance list_contains : Contains (list pystr) :=
  fun name names => bool_decide (name ∈ names).
#[global] Instance set_contains : Contains (gset pystr) :=
  fun name names => bool_decide (name ∈ names).

(** The retry budget of [generate_unique_name]. *)
Definition RETRIES : nat := N.to_nat 100000.

(** [for _ in range(n): ...] of [generate_unique_name], then the [raise]. *)
Fixpoint generate_unique_name_from `{Contains C} (n : nat) (inside : C)
    (minlen maxlen : Z) : M rng pystr :=
  match n with
  | O => raise (Exception_ (py "Unable to generate unique name"))
  | S n' =>
      name ← generate_new_name minlen maxlen;
      if negb (contains name inside) then mret name
      else generate_unique_name_from n' inside minlen maxlen
  end.

Definition generate_unique_name `{Contains C} (inside : C) (minlen maxlen : Z)
  : M rng pystr :=
  generate_unique_name_from RETRIES inside minlen maxlen.

(** [minlen] and [maxlen] are accepted and not passed on: the names are
    drawn with the defaults. *)
Definition generate_multiple_unique_names (count : nat) (minlen maxlen : Z)
  : M rng (list pystr) :=
  for_ (seq 0 count)
       (fun names _ => name ← generate_unique_name names 20 50; mret (names ++ [name]))
       [].

Definition list_extend_beginning {A} (base_list prepend_with : list A) : list A :=
  foldl (fun base_list elem => elem :: base_list) base_list (reverse prepend_with).

(** ** ap-obfuscate.py: wrapping *)

Module WrappedWeightedOption.
Definition wrap (name : pystr) (option : Option) : Option :=
  WrappedWeightedOption (weights_of option) option name
                        ((fun k => (k, k)) <$> (weights_of option).*1).
End WrappedWeightedOption.

Module ContextExtra.
Record t := make {
  game_name : pystr;
  options : list (pystr * Option);
  triggers : list Trigger
}.

(** [ContextExtra(game_name)] *)
Definition new (game_name : pystr) : t := make game_name [] [].

Definition generate_option (self : t) (option : Option) : M rng (pystr * Option * t) :=
  name ← generate_unique_name (options self).*1 20 50;
  let self := make (game_name self) (dict_set name option (options self)) (triggers self) in
  mret (name, option, self).

Definition generate_option_weight_names (num : nat) : M rng (list pystr) :=
  generate_multiple_unique_names num 20 50.

(** The variables of the loop over the labels of one option:
    [wrapped_weight_names], the two fields of [wrapped_option] that the
    loop fills, and [triggers]. *)
Record labels_state := Labels {
  wrapped_weight_names : gset pystr;
  wrapped_weights : list (pystr * value);
  wrapped_weights_names : list (pystr * pystr);
  labels_triggers : list Trigger
}.

(** The body of [for weight_name, weight in orig_option.weights.items()]. *)
Definition wrap_label (game_name wrapped_name orig_name : pystr)
    (st : labels_state) (item : pystr * value) : M rng labels_state :=
  let '(weight_name, weight) := item in
  wrapped_weight_name ← generate_unique_name (wrapped_weight_names st) 20 50;
  mret (Labels
          ({[wrapped_weight_name]} ∪ wrapped_weight_names st)
          (dict_set wrapped_weight_name weight (wrapped_weights st))
          (dict_set weight_name wrapped_weight_name (wrapped_weights_names st))
          (labels_triggers st ++
             [Trigger.make game_name wrapped_name (VStr wrapped_weight_name)
                (VDict [(KStr game_name,
                         VDict [(KStr orig_name, VStr weight_name)])])])).

(** The variables of the loop over the options: [self],
    [real_to_wrapped] and [triggers]. *)
Definition options_state : Type := t * list (pystr * pystr) * list Trigger.

(** The body of [for orig_name, orig_option in orig_options.items()].
    [wrapped_option] is the object stored in [self.options]: the
    assignments to its fields show there, which the last step records. *)
Definition wrap_option (st : options_state) (item : pystr * Option)
  : M rng options_state :=
  let '(self, real_to_wrapped, triggers) := st in
  let '(orig_name, orig_option) := item in
  if negb (isinstance_WeightedOption orig_option) then mret st
  else
    '(wrapped_name, wrapped_option, self) ←
      generate_option self (WrappedWeightedOption.wrap orig_name orig_option);
    _ ← lift (assert_ (isinstance_WrappedWeightedOption wrapped_option));
    let real_to_wrapped := dict_set orig_name wrapped_name real_to_wrapped in
    st ← for_ (weights_of orig_option)
              (wrap_label (game_name self) wrapped_name orig_name)
              (Labels ∅ [] [] triggers);
    let wrapped_option :=
      WrappedWeightedOption (wrapped_weights st) orig_option orig_name
                            (wrapped_weights_names st) in
    let self := make (game_name self)
                     (dict_set wrapped_name wrapped_option (options self))
                     (ContextExtra.triggers self) in
    _ ← lift (assert_ (bool_decide (length (weights_of wrapped_option)
                                    = length (weights_of orig_option))));
    _ ← lift (assert_ (bool_decide (weights_of wrapped_option ≠ [])));
    mret (self, real_to_wrapped, labels_triggers st).

Definition create_wrapper_options (self : t) (orig_options : list (pystr * Option))
  : M rng (list Trigger * list (pystr * pystr) * t) :=
  '(self, real_to_wrapped, triggers) ← for_ orig_options wrap_option (self, [], []);
  mret (triggers, real_to_wrapped, self).
End ContextExtra.
Abbreviation ContextExtra := ContextExtra.t.

(** ** ap-obfuscate.py: the engine *)

(** [k in d.keys()] and [d[k]] for a dict with [str] keys and a key [k]
    of any hashable type: only a [str] can be found there. *)
Definition str_dict_in {V} (k : key) (d : list (pystr * V)) : bool :=
  match k with
  | KStr s => dict_in s d
  | _ => false
  end.

Definition str_dict_item {V} (k : key) (d : list (pystr * V)) : result V :=
  match k with
  | KStr s => dict_item s d
  | _ => Raise KeyError
  end.

Module Context.
Record t := make {
  orig_root : Root;
  root : Root;
  extra_root : ContextExtra;
  extra_games : list (pystr * ContextExtra);
  iteration : Z
}.

(** [Context(root)]; the deep copy of an immutable value is the value. *)
Definition new (root : Root) : t :=
  make root root (ContextExtra.new [])
       (foldl (fun extra_games game =>
                 dict_set (Game.name game) (ContextExtra.new (Game.name game)) extra_games)
              [] (Root.games root))
       0.

(** The loop [for weight_name, weight in list(weights.items())]:
    the labels the wrapper renamed are renamed in [weights]. *)
Definition rename_weight (new_weight_names : list (pystr * pystr))
    (weights : list (key * value)) (item : key * value) : result (list (key * value)) :=
  let '(weight_name, weight) := item in
  if str_dict_in weight_name new_weight_names then
    weights ← dict_del weight_name weights;
    new_weight_name ← str_dict_item weight_name new_weight_names;
    Ok (dict_set (KStr new_weight_name) weight weights)
  else Ok weights.

Definition rename_weights (new_weight_names : list (pystr * pystr))
    (weights : list (key * value)) : result (list (key * value)) :=
  foldl (fun acc item => weights ← acc; rename_weight new_weight_names weights item)
        (Ok weights) weights.

(** The body of [for option_name, weights in list(game_trigger_options.items())].
    [weights] is renamed in place after it was stored under the
    wrapper's name: the last step stores the renamed mapping there.
    The mapping is this entry's own; for a mapping that another entry
    holds too, see [Store.rename_override]. *)
Definition rename_override (real_name_to_wrapped : list (pystr * pystr))
    (extra_options : list (pystr * Option))
    (game_trigger_options : list (key * value)) (item : key * value)
  : result (list (key * value)) :=
  let '(option_name, weights) := item in
  if negb (str_dict_in option_name real_name_to_wrapped) then Ok game_trigger_options
  else
    weights ← match weights with
              | VDict weights => Ok weights
              | _ => k ← key_of_value weights; Ok [(k, VInt 1)]
              end;
    wrapped_option_name ← str_dict_item option_name real_name_to_wrapped;
    game_trigger_options ← dict_del option_name game_trigger_options;
    let game_trigger_options :=
      dict_set (KStr wrapped_option_name) (VDict weights) game_trigger_options in
    wrapped_option ← dict_item wrapped_option_name extra_options;
    match wrapped_option with
    | WrappedWeightedOption _ _ _ new_weight_names =>
        weights ← rename_weights new_weight_names weights;
        Ok (dict_set (KStr wrapped_option_name) (VDict weights) game_trigger_options)
    | _ => Raise AssertionError
    end.

(** [new_weight_names[trigger.option_result]] *)
Definition result_item (option_result : value) (new_weight_names : list (pystr * pystr))
  : result pystr :=
  k ← key_of_value option_result;
  str_dict_item k new_weight_names.

(** The body of [for trigger in game.triggers]. *)
Definition rename_trigger (game_name : pystr)
    (real_name_to_wrapped : list (pystr * pystr))
    (extra_options : list (pystr * Option)) (trigger : Trigger) : result Trigger :=
  if bool_decide (Trigger.option_category trigger ≠ game_name)
     || negb (dict_in (Trigger.option_name trigger) real_name_to_wrapped)
  then Ok trigger
  else
    option_name ← dict_item (Trigger.option_name trigger) real_name_to_wrapped;
    wrapped_option ← dict_item option_name extra_options;
    match wrapped_option with
    | WrappedWeightedOption _ _ _ new_weight_names =>
        option_result ← result_item (Trigger.option_result trigger) new_weight_names;
        match Trigger.options trigger with
        | VDict options =>
            match dict_get (KStr game_name) options with
            | Some (VDict game_trigger_options) =>
                game_trigger_options ←
                  foldl (fun acc item =>
                           game_trigger_options ← acc;
                           rename_override real_name_to_wrapped extra_options
                                           game_trigger_options item)
                        (Ok game_trigger_options) game_trigger_options;
                Ok (Trigger.make (Trigger.option_category trigger) option_name
                      (VStr option_result)
                      (VDict (dict_set (KStr game_name) (VDict game_trigger_options)
                                       options)))
            | Some _ => Raise AttributeError
            | None =>
                (* the default [{}]: nothing to rename *)
                Ok (Trigger.make (Trigger.option_category trigger) option_name
                      (VStr option_result) (Trigger.options trigger))
            end
        | _ => Raise AttributeError
        end
    | _ => Raise AssertionError
    end.

(** [for real_name, wrapped_name in real_name_to_wrapped.items()] *)
Definition replace_option (extra_options : list (pystr * Option))
    (game_options : list (pystr * Option)) (item : pystr * pystr)
  : result (list (pystr * Option)) :=
  let '(real_name, wrapped_name) := item in
  game_options ← dict_del real_name game_options;
  wrapped_option ← dict_item wrapped_name extra_options;
  Ok (dict_set wrapped_name wrapped_option game_options).

(** The game [obfuscate_game_wrap] leaves, with the side table of the game. *)
Definition wrap_game (game : Game) (extra_games : ContextExtra) (first_time : bool)
  : M rng (Game * ContextExtra) :=
  let game_name := Game.name game in
  '(wrapped_triggers, real_name_to_wrapped, extra_games) ←
    ContextExtra.create_wrapper_options extra_games
      (filter (fun item => isinstance_WeightedOption item.2) (Game.options game));
  game_options ←
    lift (foldl (fun acc item =>
                   game_options ← acc;
                   replace_option (ContextExtra.options extra_games) game_options item)
                (Ok (Game.options game)) real_name_to_wrapped);
  if first_time then
    triggers ← lift (mapR (rename_trigger game_name real_name_to_wrapped
                                          (ContextExtra.options extra_games))
                          (Game.triggers game));
    mret (Game.make game_name (triggers ++ wrapped_triggers) game_options, extra_games)
  else
    mret (Game.make game_name
                    (list_extend_beginning (Game.triggers game) wrapped_triggers)
                    game_options,
          extra_games).

Definition obfuscate_game_wrap (self : t) (game_name : pystr) (first_time : bool)
  : M rng t :=
  game ← lift (Root.game_by_name (root self) game_name);
  extra_games ← lift (dict_item game_name (extra_games self));
  '(game, extra) ← wrap_game game extra_games first_time;
  mret (make (orig_root self)
             (Root.with_game (root self) game_name game)
             (extra_root self)
             (dict_set game_name extra (Context.extra_games self))
             (iteration self)).

Definition obfuscate_game (self : t) (game_name : pystr) : M rng t :=
  obfuscate_game_wrap self game_name (bool_decide (iteration self = 0)).

Definition obfuscate (self : t) : M rng t :=
  self ← for_ (extra_games self).*1 obfuscate_game self;
  mret (make (orig_root self) (root self) (extra_root self) (extra_games self)
             (iteration self + 1)).
End Context.
Abbreviation Context := Context.t.


(** ** Notions used to state the properties *)

(** The names the first [n] calls of [generate_new_name] return. *)
Fixpoint attempts (n : nat) (minlen maxlen : Z) : M rng (list pystr) :=
  match n with
  | O => mret []
  | S n' =>
      name ← generate_new_name minlen maxlen;
      rest ← attempts n' minlen maxlen;
      mret (name :: rest)
  end.

(** An integer that [str] accepts, and a key, and a value given for an
    option, whose integers are such: the integers that parsing an option
    turns into labels are the value itself and the keys of a mapping. *)
Definition printable (z : Z) : Prop := Z.abs z < 10 ^ int_max_str_digits.

Definition printable_key (k : key) : Prop :=
  match k with
  | KInt z => printable z
  | _ => True
  end.

Definition printable_labels (obj : value) : Prop :=
  match obj with
  | VInt z => printable z
  | VDict d => Forall printable_key d.*1
  | _ => True
  end.

(** The characters of an escaped string: the backslash, [u], [U] and the
    lower-case hexadecimal digits. *)
Definition escape_chars : pystr := py "\uU0123456789abcdef".

(** A tree that the encoder takes: strings of code points (below [2^32]),
    integers that [str] accepts, no object of another type, and keys that
    are a string, an integer (or bool) or null. *)
Definition encodable_str (s : pystr) : Prop := Forall (fun c => (c < 2 ^ 32)%N) s.

Definition encodable_key (k : key) : Prop :=
  match k with
  | KStr s => encodable_str s
  | KInt z => printable z
  | KBool _ | KNone => True
  | KFloat _ | KOther _ _ => False
  end.

Fixpoint encodable (obj : value) : Prop :=
  match obj with
  | VStr s => encodable_str s
  | VInt z => printable z
  | VNone | VBool _ | VFloat _ => True
  | VList xs => foldr (fun x rest => encodable x ∧ rest) True xs
  | VDict d =>
      foldr (fun (kv : key * value) rest => (encodable_key kv.1 ∧ encodable kv.2) ∧ rest)
            True d
  | VOther _ _ _ => False
  end.

(** The keys of a mapping that are neither a string, an integer nor null. *)
Definition other_key (k : key) : Prop :=
  match k with
  | KStr _ | KInt _ | KNone => False
  | KBool _ | KFloat _ | KOther _ _ => True
  end.

(** What wrapping one option gave: the original option and its name, the
    name of the wrapper and the labels of the wrapper, in the order of
    the original labels. *)
Record wrapping := Wrapping {
  w_orig_name : pystr;
  w_orig_option : Option;
  w_name : pystr;
  w_labels : list pystr
}.

(** Original label to wrapper label. *)
Definition wrapping_label_names (w : wrapping) : list (pystr * pystr) :=
  zip (weights_of (w_orig_option w)).*1 (w_labels w).

(** The wrapper option. *)
Definition wrapping_option (w : wrapping) : Option :=
  WrappedWeightedOption (zip (w_labels w) (weights_of (w_orig_option w)).*2)
                        (w_orig_option w) (w_orig_name w) (wrapping_label_names w).

(** The trigger that sets the original option to [label] when the wrapper
    gave [wrapped_label]. *)
Definition wrapper_trigger (game_name wrapped_name orig_name : pystr)
    (labels : pystr * pystr) : Trigger :=
  Trigger.make game_name wrapped_name (VStr labels.2)
    (VDict [(KStr game_name, VDict [(KStr orig_name, VStr labels.1)])]).

(** The triggers generated for one wrapped option. *)
Definition wrapping_triggers (game_name : pystr) (w : wrapping) : list Trigger :=
  wrapper_trigger game_name (w_name w) (w_orig_name w) <$> wrapping_label_names w.

(** The labels of the wrapper are as many as the original ones and distinct. *)
Definition wrapping_ok (w : wrapping) : Prop :=
  length (w_labels w) = length (weights_of (w_orig_option w)) ∧ NoDup (w_labels w).

(** Options as a Python dict holds them: no name twice, and no label
    twice in a weighted option. *)
Definition options_wf (options : list (pystr * Option)) : Prop :=
  NoDup options.*1 ∧ Forall (fun item => NoDup (weights_of item.2).*1) options.

(** The state of the loop of [create_wrapper_options] over the labels of
    one option, after the items [done], from the triggers [triggers0]. *)
Definition labels_inv (game_name wrapped_name orig_name : pystr)
    (triggers0 : list Trigger) (done : list (pystr * value))
    (st : ContextExtra.labels_state) : Prop :=
  ∃ fresh : list pystr,
    length fresh = length done ∧ NoDup fresh
    ∧ ContextExtra.wrapped_weight_names st = list_to_set fresh
    ∧ ContextExtra.wrapped_weights st = zip fresh done.*2
    ∧ ContextExtra.wrapped_weights_names st = zip done.*1 fresh
    ∧ ContextExtra.labels_triggers st
      = triggers0 ++ (wrapper_trigger game_name wrapped_name orig_name
                        <$> zip done.*1 fresh).

(** The state of the loop of [create_wrapper_options] over the options,
    after the items [done], from the side table [self0]: one wrapping for
    each weighted option among them. *)
Definition options_inv (self0 : ContextExtra) (done : list (pystr * Option))
    (self : ContextExtra) (real_to_wrapped : list (pystr * pystr))
    (triggers : list Trigger) : Prop :=
  ∃ ws : list wrapping,
    (fun w => (w_orig_name w, w_orig_option w)) <$> ws
      = filter (fun item => isinstance_WeightedOption item.2) done
    ∧ Forall wrapping_ok ws
    ∧ NoDup (w_name <$> ws)
    ∧ (∀ w, w ∈ ws → w_name w ∉ (ContextExtra.options self0).*1)
    ∧ ContextExtra.game_name self = ContextExtra.game_name self0
    ∧ ContextExtra.triggers self = ContextExtra.triggers self0
    ∧ ContextExtra.options self
      = ContextExtra.options self0 ++ ((fun w => (w_name w, wrapping_option w)) <$> ws)
    ∧ real_to_wrapped = (fun w => (w_orig_name w, w_name w)) <$> ws
    ∧ triggers = concat (wrapping_triggers (ContextExtra.game_name self0) <$> ws).

(** ** Inputs the examples run on *)

(** A random source whose [i]-th draw is [i], and one that always draws 0. *)
Definition rng_count : rng := Rng (fun i => i) 0.
Definition rng_zero : rng := Rng (fun _ => 0%N) 0.

(** Twenty spaces: the name [rng_zero] makes [generate_new_name] return. *)
Definition spaces20 : pystr := replicate 20 32%N.

(** A game [G] with one weighted option named by twenty spaces. *)
Definition game_spaces : Game :=
  Game.make (py "G") [] [(spaces20, WeightedOption [(py "x", VInt 1)])].

(** A trigger of game [G] that waits for [mode] to be [hard] and
    overrides [speed], by a bare label, a custom option, and [mode]. *)
Definition trigger_hard : Trigger :=
  Trigger.make (py "G") (py "mode") (VStr (py "hard"))
    (VDict [(KStr (py "G"),
             VDict [(KStr (py "speed"), VStr (py "fast"));
                    (KStr (py "start_inventory"), VList []);
                    (KStr (py "mode"),
                     VDict [(KStr (py "easy"), VInt 1); (KStr (py "other"), VInt 2)])])]).

(** A game with two weighted options, a custom option and two triggers of
    its own; the second names the root scope and is not for the game. *)
Definition game_modes : Game :=
  Game.make (py "G")
    [trigger_hard;
     Trigger.make [] (py "mode") (VStr (py "easy")) (VDict [])]
    [(py "mode", WeightedOption [(py "easy", VInt 3); (py "hard", VInt 1)]);
     (py "start_inventory", CustomOption (VDict []));
     (py "speed", WeightedOption [(py "fast", VInt 1)])].

Definition root_modes : Root :=
  Root.make (VStr (py "player")) (VStr (py "")) (Requires.make (VStr (py "0.6.1")))
            [game_modes] [(KStr (py "G"), VInt 1)] [].



(** A random source whose first name is twenty spaces and whose later
    names are another name, twenty-one no-break spaces. *)
Definition rng_spaces_first : rng := Rng (fun i => if (i <? 21)%N then 0%N else 1%N) 0.

(** A game with an option named by twenty spaces beside [mode], and a
    trigger that overrides both. *)
Definition trigger_clash : Trigger :=
  Trigger.make (py "G") (py "mode") (VStr (py "easy"))
    (VDict [(KStr (py "G"),
             VDict [(KStr (py "mode"), VStr (py "easy"));
                    (KStr spaces20, VStr (py "x"))])]).

Definition game_clash : Game :=
  Game.make (py "G") [trigger_clash]
    [(py "mode", WeightedOption [(py "easy", VInt 1)]);
     (spaces20, WeightedOption [(py "x", VInt 1)])].

Definition root_clash : Root :=
  Root.make (VStr (py "player")) (VStr (py "")) (Requires.make (VStr (py "0.6.1")))
            [game_clash] [(KStr (py "G"), VInt 1)] [].


(** The mapping an override stands for: a bare label is the mapping of
    that label to weight 1. *)
Definition normalized (weights : value) : result (list (key * value)) :=
  match weights with
  | VDict weights => Ok weights
  | _ => k ← key_of_value weights; Ok [(k, VInt 1)]
  end.

(** A label through the label renaming of a wrapper. *)
Definition relabel_key (new_weight_names : list (pystr * pystr)) (k : key) : key :=
  match k with
  | KStr s => match dict_get s new_weight_names with
              | Some s' => KStr s'
              | None => k
              end
  | _ => k
  end.

(** A mapping of labels to weights with the labels of the wrapped option
    renamed: the renamed entries come last, as a dict that deletes and
    inserts leaves them. *)
Definition relabeled (new_weight_names : list (pystr * pystr))
    (weights : list (key * value)) : list (key * value) :=
  filter (fun item => ¬ str_dict_in item.1 new_weight_names) weights
  ++ ((fun item => (relabel_key new_weight_names item.1, item.2))
        <$> filter (fun item => str_dict_in item.1 new_weight_names) weights).

(** [item'] is the override [item] of a wrapped option, renamed: the key
    is the wrapper's name and the labels are the wrapper's. *)
Definition override_renamed (real_name_to_wrapped : list (pystr * pystr))
    (extra_options : list (pystr * Option)) (item item' : key * value) : Prop :=
  ∃ real_name wrapped_name weights w original_option original_name new_weight_names,
    item.1 = KStr real_name
    ∧ dict_get real_name real_name_to_wrapped = Some wrapped_name
    ∧ normalized item.2 = Ok weights
    ∧ dict_get wrapped_name extra_options
      = Some (WrappedWeightedOption w original_option original_name new_weight_names)
    ∧ item' = (KStr wrapped_name, VDict (relabeled new_weight_names weights)).

(** The overrides of a trigger for the game are a dict (no key twice, no
    label twice in an override) and the generated names are new to them:
    no wrapper name is a key, and no wrapper label is a label of the
    override of the option it wraps. *)
Definition overrides_fresh (real_name_to_wrapped : list (pystr * pystr))
    (extra_options : list (pystr * Option))
    (game_trigger_options : list (key * value)) : Prop :=
  NoDup game_trigger_options.*1
  ∧ (∀ wrapped_name, wrapped_name ∈ real_name_to_wrapped.*2 →
       KStr wrapped_name ∉ game_trigger_options.*1)
  ∧ (∀ real_name v wrapped_name w original_option original_name new_weight_names weights,
       (KStr real_name, v) ∈ game_trigger_options →
       dict_get real_name real_name_to_wrapped = Some wrapped_name →
       dict_get wrapped_name extra_options
       = Some (WrappedWeightedOption w original_option original_name new_weight_names) →
       normalized v = Ok weights →
       NoDup weights.*1
       ∧ ∀ label, label ∈ new_weight_names.*2 → KStr label ∉ weights.*1).

(** A check of [overrides_fresh] that computes. *)
Definition overrides_fresh_check (real_name_to_wrapped : list (pystr * pystr))
    (extra_options : list (pystr * Option))
    (game_trigger_options : list (key * value)) : bool :=
  bool_decide (NoDup game_trigger_options.*1)
  && forallb (fun wrapped_name =>
                bool_decide (KStr wrapped_name ∉ game_trigger_options.*1))
             real_name_to_wrapped.*2
  && forallb (fun item : key * value =>
                match item.1 with
                | KStr real_name =>
                    match dict_get real_name real_name_to_wrapped with
                    | Some wrapped_name =>
                        match dict_get wrapped_name extra_options, normalized item.2 with
                        | Some (WrappedWeightedOption _ _ _ new_weight_names), Ok weights =>
                            bool_decide (NoDup weights.*1)
                            && forallb (fun label => bool_decide (KStr label ∉ weights.*1))
                                       new_weight_names.*2
                        | _, _ => true
                        end
                    | None => true
                    end
                | _ => true
                end)
             game_trigger_options.

(** * The engine over an object store

    Python objects are shared and mutated in place.  To reason about what
    a run of the engine can change, it is embedded here a second time,
    statement by statement, over a store of objects: lists, dicts and
    instances of the classes are cells of the store, a variable holds an
    immutable scalar or a reference to a cell. *)

Module Store.

Abbreviation loc := N.

(** A value: an immutable hashable scalar, or a reference to an object. *)
Inductive val :=
| Imm (k : key)
| Ref (l : loc).

Inductive class :=
| cRoot | cGame | cTrigger | cRequires
| cWeightedOption | cCustomOption | cWrappedWeightedOption
| cContextExtra | cContext.

(** The objects: a list, a dict, an instance with its attributes
    ([__dict__]), or an object of another, unhashable, type. *)
Inductive cell :=
| CList (items : list val)
| CDict (items : list (key * val))
| CObject (cls : class) (attrs : list (pystr * val))
| COpaque (tyname text : pystr).

#[global] Instance val_eq_dec : EqDecision val.
Proof. solve_decision. Defined.
#[global] Instance class_eq_dec : EqDecision class.
Proof. solve_decision. Defined.

(** The store, the next free location and the state of [random]. *)
Record store := Store {
  cells : gmap N cell;
  next : loc;
  random : rng
}.

(** ** Objects *)

Definition alloc (c : cell) : M store loc := fun s =>
  (Ok (next s), Store (<[next s := c]> (cells s)) (N.succ (next s)) (random s)).

Definition read (l : loc) : M store cell := fun s =>
  match cells s !! l with
  | Some c => (Ok c, s)
  | None => (Raise SystemError, s)
  end.

Definition write (l : loc) (c : cell) : M store unit := fun s =>
  match cells s !! l with
  | Some _ => (Ok tt, Store (<[l := c]> (cells s)) (next s) (random s))
  | None => (Raise SystemError, s)
  end.

(** A computation that only draws random numbers. *)
Definition with_random {A} (m : M rng A) : M store A := fun s =>
  let '(a, g) := m (random s) in (a, Store (cells s) (next s) g).

(** [hash(x)]: the objects of the store are unhashable. *)
Definition key_of (x : val) : M store key :=
  match x with
  | Imm k => mret k
  | Ref _ => raise TypeError
  end.

(** A new instance of [cls], a new dict, a new list. *)
Definition new_object (cls : class) (attrs : list (pystr * val)) : M store val :=
  l ← alloc (CObject cls attrs); mret (Ref l).
Definition new_dict (items : list (key * val)) : M store val :=
  l ← alloc (CDict items); mret (Ref l).
Definition new_list (items : list val) : M store val :=
  l ← alloc (CList items); mret (Ref l).

(** [x.name] *)
Definition getattr (x : val) (name : pystr) : M store val :=
  match x with
  | Ref l =>
      c ← read l;
      match c with
      | CObject _ attrs =>
          match dict_get name attrs with
          | Some v => mret v
          | None => raise AttributeError
          end
      | _ => raise AttributeError
      end
  | Imm _ => raise AttributeError
  end.

(** [x.name = v] *)
Definition setattr (x : val) (name : pystr) (v : val) : M store unit :=
  match x with
  | Ref l =>
      c ← read l;
      match c with
      | CObject cls attrs => write l (CObject cls (dict_set name v attrs))
      | _ => raise AttributeError
      end
  | Imm _ => raise AttributeError
  end.

Definition issubclass (c1 c2 : class) : bool :=
  bool_decide (c1 = c2)
  || (bool_decide (c1 = cWrappedWeightedOption) && bool_decide (c2 = cWeightedOption)).

(** [isinstance(x, cls)] for a class of the program. *)
Definition isinstance (x : val) (cls : class) : M store bool :=
  match x with
  | Ref l =>
      c ← read l;
      mret (match c with
            | CObject c0 _ => issubclass c0 cls
            | _ => false
            end)
  | Imm _ => mret false
  end.

(** [isinstance(x, dict)] *)
Definition is_dict (x : val) : M store bool :=
  match x with
  | Ref l => c ← read l; mret (match c with CDict _ => true | _ => false end)
  | Imm _ => mret false
  end.

(** [list(d.items())]; a method of dicts, missing elsewhere. *)
Definition dict_items (d : val) : M store (list (key * val)) :=
  match d with
  | Ref l =>
      c ← read l;
      match c with
      | CDict items => mret items
      | _ => raise AttributeError
      end
  | Imm _ => raise AttributeError
  end.

(** [list(d.keys())] *)
Definition dict_keys (d : val) : M store (list key) :=
  items ← dict_items d; mret items.*1.

(** The items of [d], for a subscript: [d[k]] needs no method. *)
Definition subscript_items (d : val) : M store (loc * list (key * val)) :=
  match d with
  | Ref l =>
      c ← read l;
      match c with
      | CDict items => mret (l, items)
      | _ => raise TypeError
      end
  | Imm _ => raise TypeError
  end.

(** [d[k]] *)
Definition dict_getitem (d : val) (k : key) : M store val :=
  '(_, items) ← subscript_items d;
  lift (dict_item k items).

(** [d[k] = v] *)
Definition dict_setitem (d : val) (k : key) (v : val) : M store unit :=
  '(l, items) ← subscript_items d;
  write l (CDict (dict_set k v items)).

(** [del d[k]] *)
Definition dict_delitem (d : val) (k : key) : M store unit :=
  '(l, items) ← subscript_items d;
  items ← lift (dict_del k items);
  write l (CDict items).

(** [list(xs)], the items of a list. *)
Definition list_items (xs : val) : M store (list val) :=
  match xs with
  | Ref l =>
      c ← read l;
      match c with
      | CList items => mret items
      | _ => raise TypeError
      end
  | Imm _ => raise TypeError
  end.

(** The list that a list method is called on. *)
Definition method_list (xs : val) : M store (loc * list val) :=
  match xs with
  | Ref l =>
      c ← read l;
      match c with
      | CList items => mret (l, items)
      | _ => raise AttributeError
      end
  | Imm _ => raise AttributeError
  end.

(** [xs.append(x)] *)
Definition list_append (xs x : val) : M store unit :=
  '(l, items) ← method_list xs;
  write l (CList (items ++ [x])).

(** [xs.insert(0, x)] *)
Definition list_insert0 (xs x : val) : M store unit :=
  '(l, items) ← method_list xs;
  write l (CList (x :: items)).

(** [xs.extend(ys)] for the items [ys]. *)
Definition list_extend (xs : val) (ys : list val) : M store unit :=
  '(l, items) ← method_list xs;
  write l (CList (items ++ ys)).

(** ** [copy.deepcopy]

    The copy of an object is made once (the memo), registered before its
    parts are copied, and filled as they are.  Python gives up with
    [RecursionError] at a nesting depth of its own: [limit]. *)
Fixpoint deepcopy (limit : nat) (x : val) (memo : gmap N N)
  : M store (val * gmap N N) :=
  match x with
  | Imm _ => mret (x, memo)
  | Ref l =>
      match memo !! l with
      | Some l' => mret (Ref l', memo)
      | None =>
          match limit with
          | O => raise RecursionError
          | S limit' =>
              c ← read l;
              match c with
              | CList items =>
                  l' ← alloc (CList []);
                  memo ← for_ items
                         (fun memo a =>
                            '(a', memo) ← deepcopy limit' a memo;
                            _ ← list_append (Ref l') a';
                            mret memo)
                         (<[l := l']> memo);
                  mret (Ref l', memo)
              | CDict items =>
                  l' ← alloc (CDict []);
                  memo ← for_ items
                         (fun memo (item : key * val) =>
                            '(v', memo) ← deepcopy limit' item.2 memo;
                            _ ← dict_setitem (Ref l') item.1 v';
                            mret memo)
                         (<[l := l']> memo);
                  mret (Ref l', memo)
              | CObject cls attrs =>
                  l' ← alloc (CObject cls []);
                  memo ← for_ attrs
                         (fun memo (item : pystr * val) =>
                            '(v', memo) ← deepcopy limit' item.2 memo;
                            _ ← setattr (Ref l') item.1 v';
                            mret memo)
                         (<[l := l']> memo);
                  mret (Ref l', memo)
              | COpaque tyname text =>
                  l' ← alloc (COpaque tyname text);
                  mret (Ref l', <[l := l']> memo)
              end
          end
      end
  end.

(** ** The engine *)

(** [name in keys] for the keys of a dict. *)
#[global] Instance keys_contains : Contains (list key) :=
  fun name keys => bool_decide (KStr name ∈ keys).

(** [a == b]: scalars by value; objects by identity, which is all the
    engine needs of it (it compares names). *)
Definition eq_val (a b : val) : bool := bool_decide (a = b).

(** [WrappedWeightedOption.wrap(name, option)] *)
Definition wrap (name : key) (option : val) : M store val :=
  weights ← getattr option (py "weights");
  items ← dict_items weights;
  weights' ← new_dict items;
  names ← new_dict ((fun item : key * val => (item.1, Imm item.1)) <$> items);
  new_object cWrappedWeightedOption
    [(py "weights", weights'); (py "original_option", option);
     (py "original_name", Imm name); (py "wrapped_weights_names", names)].

(** [ContextExtra(game_name)] *)
Definition new_ContextExtra (game_name : val) : M store val :=
  options ← new_dict [];
  triggers ← new_list [];
  new_object cContextExtra
    [(py "game_name", game_name); (py "options", options); (py "triggers", triggers)].

Definition generate_option (self option : val) : M store (pystr * val) :=
  options ← getattr self (py "options");
  keys ← dict_keys options;
  name ← with_random (generate_unique_name keys 20 50);
  _ ← dict_setitem options (KStr name) option;
  mret (name, option).

(** The body of [for weight_name, weight in orig_option.weights.items()];
    [wrapped_weight_names] and [triggers] are locals of the function. *)
Definition wrap_label (self wrapped_option : val) (wrapped_name : pystr) (orig_name : key)
    (st : gset pystr * list val) (item : key * val) : M store (gset pystr * list val) :=
  let '(wrapped_weight_names, triggers) := st in
  let '(weight_name, weight) := item in
  wrapped_weight_name ← with_random (generate_unique_name wrapped_weight_names 20 50);
  let wrapped_weight_names := {[wrapped_weight_name]} ∪ wrapped_weight_names in
  weights ← getattr wrapped_option (py "weights");
  _ ← dict_setitem weights (KStr wrapped_weight_name) weight;
  names ← getattr wrapped_option (py "wrapped_weights_names");
  _ ← dict_setitem names weight_name (Imm (KStr wrapped_weight_name));
  game_name ← getattr self (py "game_name");
  override ← new_dict [(orig_name, Imm weight_name)];
  game_key ← key_of game_name;
  options ← new_dict [(game_key, override)];
  trigger ← new_object cTrigger
              [(py "option_category", game_name);
               (py "option_name", Imm (KStr wrapped_name));
               (py "option_result", Imm (KStr wrapped_weight_name));
               (py "options", options)];
  mret (wrapped_weight_names, triggers ++ [trigger]).

(** The body of [for orig_name, orig_option in orig_options.items()];
    [real_to_wrapped] and [triggers] are locals of the function. *)
Definition wrap_option (self : val) (st : list (key * pystr) * list val)
    (item : key * val) : M store (list (key * pystr) * list val) :=
  let '(real_to_wrapped, triggers) := st in
  let '(orig_name, orig_option) := item in
  weighted ← isinstance orig_option cWeightedOption;
  if negb weighted then mret st
  else
    wrapper ← wrap orig_name orig_option;
    '(wrapped_name, wrapped_option) ← generate_option self wrapper;
    wrapped ← isinstance wrapped_option cWrappedWeightedOption;
    _ ← lift (assert_ wrapped);
    let real_to_wrapped := dict_set orig_name wrapped_name real_to_wrapped in
    weights ← new_dict [];
    _ ← setattr wrapped_option (py "weights") weights;
    names ← new_dict [];
    _ ← setattr wrapped_option (py "wrapped_weights_names") names;
    orig_weights ← getattr orig_option (py "weights");
    items ← dict_items orig_weights;
    '(_, triggers) ← for_ items (wrap_label self wrapped_option wrapped_name orig_name)
                          (∅, triggers);
    weights ← getattr wrapped_option (py "weights");
    wrapped_items ← dict_items weights;
    orig_weights ← getattr orig_option (py "weights");
    orig_items ← dict_items orig_weights;
    _ ← lift (assert_ (bool_decide (length wrapped_items = length orig_items)));
    _ ← lift (assert_ (bool_decide (wrapped_items ≠ [])));
    mret (real_to_wrapped, triggers).

Definition create_wrapper_options (self : val) (orig_options : list (key * val))
  : M store (list val * list (key * pystr)) :=
  '(real_to_wrapped, triggers) ← for_ orig_options (wrap_option self) ([], []);
  mret (triggers, real_to_wrapped).

(** [Root.game_by_name] *)
Definition game_by_name (self : val) (game_name : key) : M store val :=
  games ← getattr self (py "games");
  games ← list_items games;
  found ← for_ games
          (fun (found : option val) game =>
             match found with
             | Some _ => mret found
             | None =>
                 name ← getattr game (py "name");
                 mret (if eq_val name (Imm game_name) then Some game else None)
             end)
          None;
  match found with
  | Some game => mret game
  | None => raise (IndexError (key_text game_name))
  end.

(** The body of [for weight_name, weight in list(weights.items())]. *)
Definition rename_weight (weights new_weight_names : val) (_ : unit)
    (item : key * val) : M store unit :=
  let '(weight_name, weight) := item in
  keys ← dict_keys new_weight_names;
  if bool_decide (weight_name ∈ keys) then
    _ ← dict_delitem weights weight_name;
    new_name ← dict_getitem new_weight_names weight_name;
    new_key ← key_of new_name;
    dict_setitem weights new_key weight
  else mret tt.

(** [if not isinstance(weights, dict): weights = {weights: 1}] *)
Definition as_mapping (weights : val) : M store val :=
  is_mapping ← is_dict weights;
  if negb is_mapping then k ← key_of weights; new_dict [(k, Imm (KInt 1))]
  else mret weights.

(** The body of [for option_name, weights in list(game_trigger_options.items())]. *)
Definition rename_override (extra_games game_trigger_options : val)
    (real_name_to_wrapped : list (key * pystr)) (_ : unit) (item : key * val)
  : M store unit :=
  let '(option_name, weights) := item in
  if negb (dict_in option_name real_name_to_wrapped) then mret tt
  else
    weights ← as_mapping weights;
    wrapped_option_name ← lift (dict_item option_name real_name_to_wrapped);
    _ ← dict_delitem game_trigger_options option_name;
    _ ← dict_setitem game_trigger_options (KStr wrapped_option_name) weights;
    options ← getattr extra_games (py "options");
    wrapped_option ← dict_getitem options (KStr wrapped_option_name);
    wrapped ← isinstance wrapped_option cWrappedWeightedOption;
    _ ← lift (assert_ wrapped);
    new_weight_names ← getattr wrapped_option (py "wrapped_weights_names");
    items ← dict_items weights;
    for_ items (rename_weight weights new_weight_names) tt.

(** The body of [for trigger in game.triggers]. *)
Definition rename_trigger (extra_games : val) (game_name : key)
    (real_name_to_wrapped : list (key * pystr)) (_ : unit) (trigger : val)
  : M store unit :=
  category ← getattr trigger (py "option_category");
  if negb (eq_val category (Imm game_name)) then mret tt
  else
    option_name ← getattr trigger (py "option_name");
    option_key ← key_of option_name;
    if negb (dict_in option_key real_name_to_wrapped) then mret tt
    else
      wrapped_name ← lift (dict_item option_key real_name_to_wrapped);
      _ ← setattr trigger (py "option_name") (Imm (KStr wrapped_name));
      options ← getattr extra_games (py "options");
      wrapped_option ← dict_getitem options (KStr wrapped_name);
      wrapped ← isinstance wrapped_option cWrappedWeightedOption;
      _ ← lift (assert_ wrapped);
      new_weight_names ← getattr wrapped_option (py "wrapped_weights_names");
      option_result ← getattr trigger (py "option_result");
      result_key ← key_of option_result;
      new_result ← dict_getitem new_weight_names result_key;
      _ ← setattr trigger (py "option_result") new_result;
      trigger_options ← getattr trigger (py "options");
      items ← dict_items trigger_options;
      game_trigger_options ← match dict_get game_name items with
                             | Some d => mret d
                             | None => new_dict []
                             end;
      items ← dict_items game_trigger_options;
      for_ items (rename_override extra_games game_trigger_options real_name_to_wrapped) tt.

(** The body of [for real_name, wrapped_name in real_name_to_wrapped.items()]. *)
Definition replace_option (game extra_games : val) (_ : unit) (item : key * pystr)
  : M store unit :=
  let '(real_name, wrapped_name) := item in
  options ← getattr game (py "options");
  _ ← dict_delitem options real_name;
  extra_options ← getattr extra_games (py "options");
  wrapped_option ← dict_getitem extra_options (KStr wrapped_name);
  options ← getattr game (py "options");
  dict_setitem options (KStr wrapped_name) wrapped_option.

(** [list_extend_beginning(base_list, prepend_with)] *)
Definition list_extend_beginning (base_list : val) (prepend_with : list val)
  : M store val :=
  _ ← for_ (reverse prepend_with) (fun (_ : unit) elem => list_insert0 base_list elem) tt;
  mret base_list.

(** The dict [{name: option for ... if isinstance(option, WeightedOption)}]. *)
Definition weighted_options (items : list (key * val)) : M store (list (key * val)) :=
  for_ items
       (fun (kept : list (key * val)) (item : key * val) =>
          weighted ← isinstance item.2 cWeightedOption;
          mret (if negb weighted then kept else dict_set item.1 item.2 kept))
       [].

Definition obfuscate_game_wrap (self : val) (game_name : key) (first_time : bool)
  : M store unit :=
  root ← getattr self (py "root");
  game ← game_by_name root game_name;
  extra_games ← getattr self (py "extra_games");
  extra_games ← dict_getitem extra_games game_name;
  options ← getattr game (py "options");
  items ← dict_items options;
  orig_options ← weighted_options items;
  '(wrapped_triggers, real_name_to_wrapped) ← create_wrapper_options extra_games orig_options;
  _ ← for_ real_name_to_wrapped (replace_option game extra_games) tt;
  if first_time then
    triggers ← getattr game (py "triggers");
    items ← list_items triggers;
    _ ← for_ items (rename_trigger extra_games game_name real_name_to_wrapped) tt;
    triggers ← getattr game (py "triggers");
    list_extend triggers wrapped_triggers
  else
    triggers ← getattr game (py "triggers");
    _ ← list_extend_beginning triggers wrapped_triggers;
    mret tt.

Definition obfuscate_game (self : val) (game_name : key) : M store unit :=
  iteration ← getattr self (py "iteration");
  obfuscate_game_wrap self game_name (eq_val iteration (Imm (KInt 0))).

Definition obfuscate (self : val) : M store unit :=
  extra_games ← getattr self (py "extra_games");
  names ← dict_keys extra_games;
  _ ← for_ names (fun (_ : unit) game_name => obfuscate_game self game_name) tt;
  iteration ← getattr self (py "iteration");
  match iteration with
  | Imm (KInt z) => setattr self (py "iteration") (Imm (KInt (z + 1)))
  | _ => raise TypeError
  end.

(** The module [random], as the value of a variable; its state is the
    [random] of the store. *)
Definition random_module : val := Imm (KOther (py "<class 'module'>") (py "random")).

(** [Context.__init__(self, root)] *)
Definition Context_init (limit : nat) (self root : val) : M store unit :=
  _ ← setattr self (py "orig_root") root;
  '(copy, _) ← deepcopy limit root ∅;
  _ ← setattr self (py "root") copy;
  _ ← setattr self (py "random") random_module;
  extra_root ← new_ContextExtra (Imm (KStr []));
  _ ← setattr self (py "extra_root") extra_root;
  extra_games ← new_dict [];
  _ ← setattr self (py "extra_games") extra_games;
  _ ← setattr self (py "iteration") (Imm (KInt 0));
  root ← getattr self (py "root");
  games ← getattr root (py "games");
  games ← list_items games;
  for_ games
       (fun (_ : unit) game =>
          name ← getattr game (py "name");
          extra ← new_ContextExtra name;
          extra_games ← getattr self (py "extra_games");
          name ← getattr game (py "name");
          game_key ← key_of name;
          dict_setitem extra_games game_key extra)
       tt.

(** [Context(root)]: the instance, then [__init__]. *)
Definition new_Context (limit : nat) (root : val) : M store val :=
  self ← new_object cContext [];
  _ ← Context_init limit self root;
  mret self.

(** [context = Context(root)], then [n] times [context.obfuscate()]. *)
Definition run (limit n : nat) (root : val) : M store val :=
  context ← new_Context limit root;
  _ ← for_ (seq 0 n) (fun (_ : unit) _ => obfuscate context) tt;
  mret context.

(** ** Notions used to state the properties *)

(** All references of a value, of a cell, are at or above [base]; the
    attribute [orig_root] of an instance is exempted: it is the one
    reference to the original that the engine keeps. *)
Definition val_above (base : loc) (v : val) : Prop :=
  match v with
  | Imm _ => True
  | Ref l => (base ≤ l)%N
  end.

Definition cell_above (base : loc) (c : cell) : Prop :=
  match c with
  | CList items => Forall (val_above base) items
  | CDict items => Forall (fun item : key * val => val_above base item.2) items
  | CObject _ attrs =>
      Forall (fun item : pystr * val => item.1 = py "orig_root" ∨ val_above base item.2)
             attrs
  | COpaque _ _ => True
  end.

Definition items_above (base : loc) (items : list (key * val)) : Prop :=
  Forall (fun item : key * val => val_above base item.2) items.

(** The copies a memo of [deepcopy] holds are at or above [base]. *)
Definition memo_above (base : loc) (memo : gmap N N) : Prop :=
  map_Forall (fun _ l' => (base ≤ l')%N) memo.

(** The store is sound: objects are below the next free location.
    With a [base]: the objects at or above it refer to objects at or
    above it only. *)
Definition store_ok (s : store) : Prop :=
  ∀ l c, cells s !! l = Some c → (l < next s)%N.

Definition store_ok_check (s : store) : bool :=
  bool_decide (map_Forall (fun l _ => (l < next s)%N) (cells s)).

Definition store_above (base : loc) (s : store) : Prop :=
  store_ok s ∧ (base ≤ next s)%N
  ∧ ∀ l c, (base ≤ l)%N → cells s !! l = Some c → cell_above base c.

(** The objects below [base] are what they were. *)
Definition same_below (base : loc) (s s' : store) : Prop :=
  ∀ l, (l < base)%N → cells s' !! l = cells s !! l.

(** The instance at [base] has the attribute [orig_root], and it is
    [root]; the next free location is past it. *)
Definition orig_kept (base : loc) (root : val) (s : store) : Prop :=
  (base < next s)%N
  ∧ ∃ cls attrs, cells s !! base = Some (CObject cls attrs)
                 ∧ dict_get (py "orig_root") attrs = Some root.

(** A computation preserves a property of the store, whether it returns
    or raises. *)
Definition preserves {A} (inv : store → Prop) (m : M store A) : Prop :=
  ∀ s, inv s → inv (m s).2.

(** A computation keeps to the objects at or above [base]: from a sound
    store it leaves a sound store with the objects below [base] as they
    were, and [post] holds of what it returns. *)
Definition keeps {A} (base : loc) (m : M store A) (post : A → Prop) : Prop :=
  ∀ s, store_above base s →
       store_above base (m s).2 ∧ same_below base s (m s).2
       ∧ ∀ a, (m s).1 = Ok a → post a.

(** ** Inputs the examples run on *)

(** The objects of an option, of a trigger, of a game and of a root,
    freshly made from the values of the first embedding. *)
Definition map_store {A B} (f : A → M store B) : list A → M store (list B) :=
  fix go (l : list A) : M store (list B) :=
    match l with
    | [] => mret []
    | x :: rest => y ← f x; ys ← go rest; mret (y :: ys)
    end.

Fixpoint store_value (v : value) : M store val :=
  match v with
  | VNone => mret (Imm KNone)
  | VBool b => mret (Imm (KBool b))
  | VInt z => mret (Imm (KInt z))
  | VFloat f => mret (Imm (KFloat f))
  | VStr s => mret (Imm (KStr s))
  | VList xs => items ← map_store store_value xs; new_list items
  | VDict d =>
      items ← map_store (fun item : key * value =>
                           x' ← store_value item.2; mret (item.1, x')) d;
      new_dict items
  | VOther tyname text hashable =>
      if hashable then mret (Imm (KOther tyname text))
      else l ← alloc (COpaque tyname text); mret (Ref l)
  end.

Definition store_weights (weights : list (pystr * value)) : M store val :=
  items ← map_store (fun item : pystr * value =>
                       x' ← store_value item.2; mret (KStr item.1, x')) weights;
  new_dict items.

Definition store_option (option : Option) : M store val :=
  match option with
  | CustomOption raw =>
      raw ← store_value raw; new_object cCustomOption [(py "raw", raw)]
  | _ =>
      weights ← store_weights (weights_of option);
      new_object cWeightedOption [(py "weights", weights)]
  end.

Definition store_trigger (trigger : Trigger) : M store val :=
  options ← store_value (Trigger.options trigger);
  result ← store_value (Trigger.option_result trigger);
  new_object cTrigger
    [(py "option_category", Imm (KStr (Trigger.option_category trigger)));
     (py "option_name", Imm (KStr (Trigger.option_name trigger)));
     (py "option_result", result);
     (py "options", options)].

(** A game, with the objects of its triggers made by [triggers]. *)
Definition store_game_with (triggers : M store (list val)) (game : Game) : M store val :=
  triggers ← triggers;
  triggers ← new_list triggers;
  options ← map_store (fun item : pystr * Option =>
                         o ← store_option item.2; mret (KStr item.1, o))
                      (Game.options game);
  options ← new_dict options;
  new_object cGame
    [(py "name", Imm (KStr (Game.name game))); (py "triggers", triggers);
     (py "options", options)].

Definition store_game (game : Game) : M store val :=
  store_game_with (map_store store_trigger (Game.triggers game)) game.

(** A root, with the objects of its games made by [games]. *)
Definition store_root_with (games : M store (list val)) (root : Root) : M store val :=
  name ← store_value (Root.name root);
  description ← store_value (Root.description root);
  version ← store_value (Requires.version (Root.requires root));
  requires ← new_object cRequires [(py "version", version)];
  games ← games;
  games ← new_list games;
  game_weights ← store_value (VDict (Root.game_weights root));
  triggers ← map_store store_trigger (Root.triggers root);
  triggers ← new_list triggers;
  new_object cRoot
    [(py "name", name); (py "description", description); (py "requires", requires);
     (py "games", games); (py "game_weights", game_weights); (py "triggers", triggers)].

Definition store_root (root : Root) : M store val :=
  store_root_with (map_store store_game (Root.games root)) root.

(** A trigger of game [G] on [mode] being [hard], whose overrides of
    [mode] and of [speed] are one and the same mapping object, as an
    anchor and an alias of it make them:
    [options: {G: {mode: &w {easy: 1, other: 2}, speed: *w}}]. *)
Definition store_trigger_shared : M store val :=
  shared ← new_dict [(KStr (py "easy"), Imm (KInt 1)); (KStr (py "other"), Imm (KInt 2))];
  overrides ← new_dict [(KStr (py "mode"), shared); (KStr (py "speed"), shared)];
  options ← new_dict [(KStr (py "G"), overrides)];
  new_object cTrigger
    [(py "option_category", Imm (KStr (py "G")));
     (py "option_name", Imm (KStr (py "mode")));
     (py "option_result", Imm (KStr (py "hard")));
     (py "options", options)].

(** The root of [root_modes], its game with that trigger only. *)
Definition store_root_shared : M store val :=
  store_root_with
    (game ← store_game_with (trigger ← store_trigger_shared; mret [trigger]) game_modes;
     mret [game])
    root_modes.

(** The empty store. *)
Definition empty (g : rng) : store := Store ∅ 0 g.

(** ** Reading a store *)

(** The overrides that the [i]-th trigger of a game has for the game:
    [context.root.game_by_name(game_name).triggers[i].options[game_name]]. *)
Definition trigger_overrides (context : val) (game_name : key) (i : nat) : M store val :=
  root ← getattr context (py "root");
  game ← game_by_name root game_name;
  triggers ← getattr game (py "triggers");
  triggers ← list_items triggers;
  match triggers !! i with
  | Some trigger =>
      options ← getattr trigger (py "options");
      dict_getitem options game_name
  | None => raise (IndexError [])
  end.

(** The wrapper that the side table of a game holds under [wrapped_name]:
    the name of the option it wraps and its renaming of the labels,
    [wrapped_weights_names]. *)
Definition wrapper_names (context : val) (game_name wrapped_name : key)
  : M store (val * list (key * val)) :=
  extra_games ← getattr context (py "extra_games");
  extra ← dict_getitem extra_games game_name;
  options ← getattr extra (py "options");
  wrapper ← dict_getitem options wrapped_name;
  original_name ← getattr wrapper (py "original_name");
  names ← getattr wrapper (py "wrapped_weights_names");
  names ← dict_items names;
  mret (original_name, names).

End Store.

(** * Properties *)

(** ** Dicts *)

Section pydict_facts.
Context {K V : Type} `{EqDecision K}.
Implicit Types (d : list (K * V)) (k : K) (v : V).

Lemma dict_get_None k d : dict_get k d = None ↔ k ∉ d.*1.
Proof.
  induction d as [|[k' v'] d IH]; csimpl.
  - split; [intros _; apply not_elem_of_nil | done].
  - case_decide; subst.
    + split; [done | intros Hn; destruct Hn; left].
    + rewrite IH, not_elem_of_cons. tauto.
Qed.

Lemma dict_get_Some_elem k v d : dict_get k d = Some v → (k, v) ∈ d.
Proof.
  induction d as [|[k' v'] d IH]; csimpl; [done|].
  case_decide; subst.
  - intros [= ->]. left.
  - intros. right. auto.
Qed.

Lemma dict_get_is_Some k d : is_Some (dict_get k d) ↔ k ∈ d.*1.
Proof.
  rewrite <- not_eq_None_Some, dict_get_None.
  split; [apply dec_stable | auto].
Qed.

Lemma dict_get_NoDup k v d : NoDup d.*1 → (k, v) ∈ d → dict_get k d = Some v.
Proof.
  induction d as [|[k' v'] d IH]; csimpl; [by rewrite elem_of_nil|].
  rewrite NoDup_cons, elem_of_cons. intros [Hk Hd] [[= <- <-]|Hin].
  - by rewrite decide_True.
  - rewrite decide_False; [auto|].
    intros <-. apply Hk. change k with (k, v).1. by apply list_elem_of_fmap_2.
Qed.

Lemma dict_in_spec k d : dict_in k d = true ↔ k ∈ d.*1.
Proof. unfold dict_in. by rewrite bool_decide_eq_true. Qed.

Lemma dict_set_keys_fresh k v d : k ∉ d.*1 → dict_set k v d = d ++ [(k, v)].
Proof.
  induction d as [|[k' v'] d IH]; csimpl; [done|].
  rewrite not_elem_of_cons. intros [Hne Hd].
  rewrite decide_False by done. by rewrite IH.
Qed.

Lemma dict_set_keys_old k v d : k ∈ d.*1 → (dict_set k v d).*1 = d.*1.
Proof.
  induction d as [|[k' v'] d IH]; csimpl; [by rewrite elem_of_nil|].
  case_decide; subst; [done|].
  rewrite elem_of_cons. intros [?|?]; [done|]. csimpl. by rewrite IH.
Qed.

Lemma elem_of_dict_set_keys k v d k0 : k0 ∈ (dict_set k v d).*1 ↔ k0 = k ∨ k0 ∈ d.*1.
Proof.
  destruct (decide (k ∈ d.*1)) as [Hin|Hnin].
  - rewrite dict_set_keys_old by done. naive_solver.
  - rewrite dict_set_keys_fresh, fmap_app, elem_of_app by done.
    csimpl. rewrite list_elem_of_singleton. naive_solver.
Qed.

Lemma dict_get_set k v d k0 :
  dict_get k0 (dict_set k v d) = if decide (k0 = k) then Some v else dict_get k0 d.
Proof.
  induction d as [|[k' v'] d IH]; csimpl.
  - by destruct (decide (k0 = k)).
  - destruct (decide (k = k')) as [->|Hne]; csimpl.
    + destruct (decide (k0 = k')); done.
    + rewrite IH. destruct (decide (k0 = k')) as [->|]; [|done].
      by rewrite decide_False.
Qed.

Lemma dict_set_NoDup k v d : NoDup d.*1 → NoDup (dict_set k v d).*1.
Proof.
  intros Hd. destruct (decide (k ∈ d.*1)).
  - by rewrite dict_set_keys_old.
  - rewrite dict_set_keys_fresh, fmap_app by done. csimpl.
    apply NoDup_app. split_and!; [done| |apply NoDup_singleton].
    intros x Hx. rewrite list_elem_of_singleton. by intros ->.
Qed.

Lemma dict_remove_notin k d : k ∉ d.*1 → dict_remove k d = d.
Proof.
  induction d as [|[k' v'] d IH]; csimpl; [done|].
  rewrite not_elem_of_cons. intros [Hne Hd].
  rewrite decide_False by done. by rewrite IH.
Qed.

Lemma elem_of_dict_remove_keys k d k0 :
  NoDup d.*1 → k0 ∈ (dict_remove k d).*1 ↔ k0 ≠ k ∧ k0 ∈ d.*1.
Proof.
  induction d as [|[k' v'] d IH]; csimpl.
  - rewrite elem_of_nil. naive_solver.
  - rewrite NoDup_cons. intros [Hk Hd]. case_decide; subst.
    + rewrite elem_of_cons. split; [|naive_solver].
      intros Hin. split; [|by right]. by intros ->.
    + csimpl. rewrite !elem_of_cons, IH by done. naive_solver.
Qed.

Lemma dict_remove_NoDup k d : NoDup d.*1 → NoDup (dict_remove k d).*1.
Proof.
  induction d as [|[k' v'] d IH]; csimpl; [done|].
  rewrite NoDup_cons. intros [Hk Hd]. case_decide; subst; [done|].
  csimpl. apply NoDup_cons. split; [|auto].
  rewrite elem_of_dict_remove_keys by done. naive_solver.
Qed.

Lemma dict_get_remove k d k0 :
  NoDup d.*1 →
  dict_get k0 (dict_remove k d) = if decide (k0 = k) then None else dict_get k0 d.
Proof.
  induction d as [|[k' v'] d IH]; csimpl.
  - by destruct (decide (k0 = k)).
  - rewrite NoDup_cons. intros [Hk Hd].
    destruct (decide (k = k')) as [->|Hne]; csimpl.
    + destruct (decide (k0 = k')) as [->|]; [|done]. by apply dict_get_None.
    + rewrite IH by done. destruct (decide (k0 = k')) as [->|]; [|done].
      by rewrite decide_False.
Qed.
End pydict_facts.

(** ** The configuration model *)

Lemma str_int_printable (z : Z) : printable z → str_int z = Ok (decimal z).
Proof. intros Hz. unfold str_int. by rewrite bool_decide_eq_true_2. Qed.

Lemma str_int_long (z : Z) : ¬ printable z → str_int z = Raise ValueError.
Proof. intros Hz. unfold str_int. by rewrite bool_decide_eq_false_2. Qed.

Lemma str_key_printable (k : key) : printable_key k → str_key k = Ok (key_text k).
Proof. destruct k; try done. apply str_int_printable. Qed.

Lemma str_key_long (k : key) : ¬ printable_key k → str_key k = Raise ValueError.
Proof. destruct k; try (by intros []). apply str_int_long. Qed.

#[global] Instance printable_dec (z : Z) : Decision (printable z).
Proof. unfold printable. apply _. Defined.

#[global] Instance printable_key_dec (k : key) : Decision (printable_key k).
Proof. destruct k; simpl; apply _. Defined.

Section stringify_keys.
Import WeightedOption.

(** The loop of [stringify_keys], from the weights it has so far. *)
Local Abbreviation step :=
  (fun (acc : result (list (pystr * value))) (kv : key * value) =>
     weights ← acc; label ← str_key kv.1; Ok (dict_set label kv.2 weights)).

Lemma stringify_keys_raised (e : exn) (d : list (key * value)) :
  foldl step (Raise e) d = Raise e.
Proof. induction d as [|kv d IH]; [done|]. simpl. apply IH. Qed.

Lemma stringify_keys_from (acc : list (pystr * value)) (d : list (key * value)) :
  Forall printable_key d.*1 →
  foldl step (Ok acc) d
  = Ok (foldl (fun acc kv => dict_set (key_text kv.1) kv.2 acc) acc d).
Proof.
  revert acc. induction d as [|[k v] d IH]; intros acc Hd; [done|].
  apply Forall_cons in Hd as [Hk Hd]. cbn [foldl mbind result_bind fst snd].
  rewrite (str_key_printable k Hk). cbn [mbind result_bind]. by apply IH.
Qed.

Lemma stringify_keys_from_long (acc : list (pystr * value)) (d : list (key * value)) :
  ¬ Forall printable_key d.*1 → foldl step (Ok acc) d = Raise ValueError.
Proof.
  revert acc. induction d as [|[k v] d IH]; intros acc Hd.
  - destruct Hd. constructor.
  - cbn [foldl mbind result_bind fst snd].
    destruct (decide (printable_key k)) as [Hk|Hk].
    + rewrite (str_key_printable k Hk). cbn [mbind result_bind]. apply IH.
      intros Hrest. apply Hd. by constructor.
    + rewrite (str_key_long k Hk). apply stringify_keys_raised.
Qed.

Lemma stringify_keys_labels (d : list (key * value)) :
  Forall printable_key d.*1 →
  ∃ weights, stringify_keys d = Ok weights
             ∧ ∀ label, label ∈ weights.*1 ↔ label ∈ key_text <$> d.*1.
Proof.
  intros Hd. eexists. split; [by apply stringify_keys_from|].
  intros label.
  assert (∀ acc : list (pystr * value),
    label ∈ (foldl (fun acc kv => dict_set (key_text kv.1) kv.2 acc) acc d).*1
    ↔ label ∈ acc.*1 ∨ label ∈ key_text <$> d.*1) as Hgen.
  { clear Hd. induction d as [|[k v] d IH]; intros acc; simpl.
    - rewrite elem_of_nil. naive_solver.
    - rewrite IH, elem_of_dict_set_keys, elem_of_cons. naive_solver. }
  rewrite Hgen. simpl. rewrite elem_of_nil. naive_solver.
Qed.

Lemma stringify_keys_long (d : list (key * value)) :
  ¬ Forall printable_key d.*1 → stringify_keys d = Raise ValueError.
Proof. apply stringify_keys_from_long. Qed.
End stringify_keys.

(** C7.  [WeightedOption.output] returns the bare label of an option with
    exactly one label, the label-to-weight mapping of an option with two
    or more labels, and raises exactly when the option has no label. *)
Theorem WeightedOption_output_by_label_count (weights : list (pystr * value)) :
  WeightedOption.output weights =
    match weights with
    | [] => Raise (Exception_ (py "Empty weigthed option"))
    | [(label, _)] => Ok (VStr label)
    | _ :: _ :: _ => Ok (WeightedOption.weights_value weights)
    end
  ∧ ((∃ e, WeightedOption.output weights = Raise e) ↔ length weights = 0%nat).
Proof.
  unfold WeightedOption.output.
  destruct weights as [|[label w] [|item weights]]; simpl.
  - split; [done|]. split; [done|]. intros _. eauto.
  - split; [done|]. split; [intros [e ?]|]; done.
  - split; [done|]. split; [intros [e ?]|]; done.
Qed.

(** C10 as stated fails: [Option.parse] raises for an integer of 4301
    digits, which [str] refuses; the [ValueError] is not the
    [NotImplementedError] that [Option.parse] catches. *)
Lemma Option_parse_long_int_raises :
  Option.parse (py "accessibility") (VInt (10 ^ 4300)) = Raise ValueError
  ∧ ¬ (∀ option_name obj, ∃ option, Option.parse option_name obj = Ok option).
Proof.
  assert (Option.parse (py "accessibility") (VInt (10 ^ 4300)) = Raise ValueError)
    as Hrun by (vm_compute; reflexivity).
  split; [exact Hrun|].
  intros Hall. destruct (Hall (py "accessibility") (VInt (10 ^ 4300))) as [option Hok].
  rewrite Hrun in Hok. discriminate Hok.
Qed.

(** C10, amended.  A name of the special options gives a [CustomOption]
    of the raw value, whatever the value.  For another name, and a value
    whose integers [str] accepts (the value itself, the integer keys of a
    mapping: at most 4300 digits), [Option.parse] returns: a mapping gives
    a [WeightedOption] whose labels are the [str] of its keys, a string
    or an integer (a bool with it) gives a [WeightedOption] of that one
    label with weight 1, and every other value gives a [CustomOption], so
    that no [NotImplementedError] leaves [Option.parse].  For another
    name and an integer that [str] refuses, [Option.parse] raises the
    [ValueError] of [str]. *)
Theorem Option_parse_by_shape (option_name : pystr) (obj : value) :
  (option_name ∈ GAME_SPECIAL_OPTIONS →
   Option.parse option_name obj = Ok (CustomOption obj))
  ∧ (option_name ∉ GAME_SPECIAL_OPTIONS → printable_labels obj →
     ∃ option, Option.parse option_name obj = Ok option
       ∧ match obj with
         | VDict d =>
             ∃ weights, option = WeightedOption weights
               ∧ ∀ label, label ∈ weights.*1 ↔ label ∈ key_text <$> d.*1
         | VStr s => option = WeightedOption [(s, VInt 1)]
         | VInt z => option = WeightedOption [(decimal z, VInt 1)]
         | VBool b => option = WeightedOption [(str_bool b, VInt 1)]
         | VList _ | VNone | VFloat _ | VOther _ _ _ => option = CustomOption obj
         end)
  ∧ (option_name ∉ GAME_SPECIAL_OPTIONS → ¬ printable_labels obj →
     Option.parse option_name obj = Raise ValueError).
Proof.
  unfold Option.parse. split_and!.
  - intros Hname. by rewrite bool_decide_eq_true_2.
  - intros Hname Hobj. rewrite bool_decide_eq_false_2 by done.
    destruct obj as [|b|z|f|s|xs|d|ty text hashable]; cbn [WeightedOption.parse];
      try (by eexists).
    + cbn [printable_labels] in Hobj. rewrite (str_int_printable z Hobj). by eexists.
    + destruct (stringify_keys_labels d Hobj) as (weights & -> & Hlabels).
      eexists. split; [reflexivity|]. by exists weights.
  - intros Hname Hobj. rewrite bool_decide_eq_false_2 by done.
    destruct obj as [|b|z|f|s|xs|d|ty text hashable]; cbn [printable_labels] in Hobj;
      try (by destruct Hobj).
    + cbn [WeightedOption.parse]. by rewrite (str_int_long z Hobj).
    + cbn [WeightedOption.parse]. by rewrite (stringify_keys_long d Hobj).
Qed.

Lemma Option_parse_by_shape_witness :
  Option.parse (py "start_inventory") (VInt (10 ^ 4300))
  = Ok (CustomOption (VInt (10 ^ 4300)))
  ∧ (∃ option,
       Option.parse (py "accessibility")
                    (VDict [(KStr (py "full"), VInt 3); (KInt 7, VInt 1)]) = Ok option
       ∧ ∃ weights, option = WeightedOption weights
           ∧ ∀ label, label ∈ weights.*1
                      ↔ label ∈ key_text <$> [KStr (py "full"); KInt 7])
  ∧ Option.parse (py "accessibility") (VDict [(KInt (10 ^ 4300), VInt 1)])
    = Raise ValueError.
Proof.
  assert (py "start_inventory" ∈ GAME_SPECIAL_OPTIONS) as Hspecial
    by (apply (bool_decide_eq_true_1 _); vm_compute; reflexivity).
  assert (py "accessibility" ∉ GAME_SPECIAL_OPTIONS) as Hplain
    by (apply (bool_decide_eq_false_1 _); vm_compute; reflexivity).
  assert (printable 7) as H7 by (vm_compute; reflexivity).
  assert (¬ printable (10 ^ 4300)) as Hlong
    by (apply (bool_decide_eq_false_1 _); vm_compute; reflexivity).
  split_and!.
  - exact (proj1 (Option_parse_by_shape (py "start_inventory") (VInt (10 ^ 4300)))
             Hspecial).
  - apply (proj1 (proj2 (Option_parse_by_shape (py "accessibility")
                           (VDict [(KStr (py "full"), VInt 3); (KInt 7, VInt 1)])))
             Hplain).
    constructor; [exact I|]. constructor; [exact H7|]. constructor.
  - apply (proj2 (proj2 (Option_parse_by_shape (py "accessibility")
                           (VDict [(KInt (10 ^ 4300), VInt 1)])))
             Hplain).
    intros Hall. apply Hlong. by apply Forall_cons in Hall as [Hk _].
Defined.

(** ** The escaped encoder *)

(** C8 as stated fails: the claim has encoding raise for every key that is
    neither a string, an integer nor null, a boolean key for example; a
    boolean key is encoded. *)
Lemma do_dict_inner_bool_key_encoded :
  do_dict_inner (KBool true) (VInt 1) = Ok (py "True: 1")
  ∧ ¬ (∀ k v, other_key k → ∃ e, do_dict_inner k v = Raise e).
Proof.
  assert (do_dict_inner (KBool true) (VInt 1) = Ok (py "True: 1")) as Hrun
    by (vm_compute; reflexivity).
  split; [exact Hrun|].
  intros Hall. destruct (Hall (KBool true) (VInt 1) I) as [e He].
  rewrite Hrun in He. discriminate He.
Qed.

(** C8, amended.  A string key is rendered as the quoted escaped form of
    the string, then [:] and the encoded value with no space; an integer
    key of at most 4300 digits as its decimal text, then [: ] and the
    encoded value; an integer key of more digits raises the [ValueError]
    of the conversion, whatever the value; a boolean key goes the way of
    the integers, as [True] or [False], then [: ] and the encoded value;
    a null key as an empty quoted string, then [:] and the encoded value;
    every key of another type, a float for example, raises
    [NotImplementedError]. *)
Theorem do_dict_inner_by_key_type (k : key) (v : value) :
  do_dict_inner k v =
    match k with
    | KStr s => quoted ← do (VStr s); r ← do v; Ok (quoted ++ py ":" ++ r)
    | KInt z =>
        if bool_decide (Z.abs z < 10 ^ int_max_str_digits)
        then (fun r => decimal z ++ py ": " ++ r) <$> do v
        else Raise ValueError
    | KBool b => (fun r => str_bool b ++ py ": " ++ r) <$> do v
    | KNone => (fun r => dquote ++ dquote ++ py ":" ++ r) <$> do v
    | KFloat _ | KOther _ _ => Raise (NotImplementedError (key_type_str k))
    end.
Proof.
  unfold do_dict_inner, do_dict_inner_with.
  destruct k as [|b|z|f|s|ty text]; try reflexivity; try (by destruct (do v)).
  - unfold str_int.
    destruct (bool_decide (Z.abs z < 10 ^ int_max_str_digits)); [|reflexivity].
    cbn [mbind result_bind]. by destruct (do v).
  - change (do (VStr s)) with
      (esc ← str_to_unicode_escapes s; Ok (dquote ++ esc ++ dquote)).
    destruct (str_to_unicode_escapes s) as [esc|e]; [|reflexivity].
    simpl. destruct (do v) as [r|e]; [|reflexivity].
    simpl. by rewrite <- !app_assoc.
Qed.

(** ** Computations with a state *)

Section monad_facts.
Context {S A B : Type}.
Implicit Types (m : M S A) (f : A → M S B) (s : S).

Lemma bind_Ok m f s b s' :
  (m ≫= f) s = (Ok b, s') ↔ ∃ a s1, m s = (Ok a, s1) ∧ f a s1 = (Ok b, s').
Proof.
  unfold mbind, M_bind. destruct (m s) as [[a|e] s1]; split.
  - intros. eauto.
  - by intros (? & ? & [= <- <-] & ?).
  - done.
  - by intros (? & ? & [=] & ?).
Qed.

Lemma bind_Raise m f s e s' :
  (m ≫= f) s = (Raise e, s') ↔
  m s = (Raise e, s') ∨ ∃ a s1, m s = (Ok a, s1) ∧ f a s1 = (Raise e, s').
Proof.
  unfold mbind, M_bind. destruct (m s) as [[a|e0] s1]; split.
  - intros. right. eauto.
  - by intros [[=]|(? & ? & [= <- <-] & ?)].
  - intros [= -> ->]. by left.
  - by intros [[= -> ->]|(? & ? & [=] & ?)].
Qed.

Lemma bind_eq m f s a s1 : m s = (Ok a, s1) → (m ≫= f) s = f a s1.
Proof. unfold mbind, M_bind. by intros ->. Qed.

Lemma bind_eq_Raise m f s e s1 : m s = (Raise e, s1) → (m ≫= f) s = (Raise e, s1).
Proof. unfold mbind, M_bind. by intros ->. Qed.
End monad_facts.

Lemma ret_Ok {S A} (a b : A) (s s' : S) :
  (mret a : M S A) s = (Ok b, s') ↔ a = b ∧ s = s'.
Proof. unfold mret, M_ret. naive_solver. Qed.

Lemma lift_Ok {S A} (r : result A) (a : A) (s s' : S) :
  lift r s = (Ok a, s') ↔ r = Ok a ∧ s = s'.
Proof. unfold lift. naive_solver. Qed.

Lemma result_bind_Ok {A B} (m : result A) (f : A → result B) (b : B) :
  m ≫= f = Ok b ↔ ∃ a, m = Ok a ∧ f a = Ok b.
Proof. destruct m; simpl; naive_solver. Qed.

Lemma assert_Ok (b : bool) (u : unit) : assert_ b = Ok u ↔ b = true.
Proof. destruct b, u; simpl; naive_solver. Qed.

(** Decompose a hypothesis [H] stating that a computation returned. *)
Ltac inv_ok H :=
  repeat match type of H with
  | (_ ≫= _) _ = (Ok _, _) =>
      let a := fresh "a" in let s := fresh "r" in
      let H1 := fresh "Hstep" in
      apply bind_Ok in H as (a & s & H1 & H)
  | mret _ _ = (Ok _, _) => apply ret_Ok in H as [? ?]
  | lift _ _ = (Ok _, _) => apply lift_Ok in H as [H ?]
  end.

(** ** The name generator *)

Lemma choice_WEIRD_CHARS (r : rng) :
  ∃ c, choice WEIRD_CHARS r = (Ok c, Rng (draws r) (N.succ (pos r))).
Proof.
  unfold choice. rewrite decide_False by done.
  assert (is_Some (WEIRD_CHARS !! N.to_nat (draws r (pos r) mod 23)%N)) as [c Hc].
  { apply lookup_lt_is_Some.
    pose proof (N.mod_upper_bound (draws r (pos r)) 23). simpl. lia. }
  exists c. unfold mbind, M_bind, randbelow.
  change (N.of_nat (length WEIRD_CHARS)) with 23%N. by rewrite Hc.
Qed.

Lemma weird_chars_Ok (n : nat) (r : rng) :
  ∃ name r', weird_chars n r = (Ok name, r').
Proof.
  revert r. induction n as [|n IH]; intros r; simpl; [by eexists _, _|].
  destruct (choice_WEIRD_CHARS r) as [c Hc].
  destruct (IH (Rng (draws r) (N.succ (pos r)))) as (name & r' & Hn).
  exists (c :: name), r'.
  rewrite (bind_eq _ _ _ _ _ Hc), (bind_eq _ _ _ _ _ Hn). done.
Qed.

Lemma generate_new_name_Ok (minlen maxlen : Z) (r : rng) :
  minlen ≤ maxlen → ∃ name r', generate_new_name minlen maxlen r = (Ok name, r').
Proof.
  intros Hle. unfold generate_new_name, randint.
  rewrite decide_False by lia.
  unfold mbind at 1 2, M_bind, randbelow, mret, M_ret.
  apply weird_chars_Ok.
Qed.

Lemma generate_new_name_Raise (minlen maxlen : Z) (r r' : rng) (e : exn) :
  generate_new_name minlen maxlen r = (Raise e, r') → e = ValueError ∧ maxlen < minlen.
Proof.
  destruct (decide (maxlen < minlen)) as [Hlt|Hge].
  - unfold generate_new_name, randint. rewrite decide_True by done.
    unfold mbind, M_bind, raise. by intros [= <- <-].
  - destruct (generate_new_name_Ok minlen maxlen r) as (? & ? & ->); [lia|done].
Qed.

Section unique_names.
Context `{Contains C}.
Implicit Types (inside : C) (r : rng).

Lemma generate_unique_name_from_fresh n inside minlen maxlen r name r' :
  generate_unique_name_from n inside minlen maxlen r = (Ok name, r') →
  contains name inside = false.
Proof.
  revert r. induction n as [|n IH]; intros r; simpl; [done|].
  intros Hrun. apply bind_Ok in Hrun as (name0 & r1 & _ & Hrun).
  destruct (contains name0 inside) eqn:Hin; simpl in Hrun; [eauto|].
  apply ret_Ok in Hrun as [<- _]. done.
Qed.

Lemma generate_unique_name_from_exhausted n inside minlen maxlen r r' :
  generate_unique_name_from n inside minlen maxlen r
    = (Raise (Exception_ (py "Unable to generate unique name")), r')
  ↔ ∃ names, attempts n minlen maxlen r = (Ok names, r')
             ∧ Forall (fun name => contains name inside = true) names.
Proof.
  revert r. induction n as [|n IH]; intros r; simpl.
  - unfold raise, mret, M_ret. split.
    + intros [= <-]. by exists [].
    + by intros (? & [= <- <-] & _).
  - destruct (generate_new_name minlen maxlen r) as [[name|e] r1] eqn:Hname.
    + rewrite !(bind_eq _ _ _ _ _ Hname).
      destruct (contains name inside) eqn:Hin; simpl.
      * rewrite IH. split.
        -- intros (names & Hatt & Hall). exists (name :: names).
           rewrite (bind_eq _ _ _ _ _ Hatt). by split; [|constructor].
        -- intros (names & Hatt & Hall).
           apply bind_Ok in Hatt as (rest & r2 & Hatt & Hret).
           apply ret_Ok in Hret as [<- <-].
           apply Forall_cons in Hall as [_ Hall]. eauto.
      * split; [done|]. intros (names & Hatt & Hall).
        apply bind_Ok in Hatt as (rest & r2 & Hatt & Hret).
        apply ret_Ok in Hret as [<- <-].
        apply Forall_cons in Hall as [Hused _]. congruence.
    + rewrite !(bind_eq_Raise _ _ _ _ _ Hname).
      apply generate_new_name_Raise in Hname as [-> _].
      split; [done|]. by intros (? & [=] & _).
Qed.

Lemma generate_unique_name_from_Raise n inside minlen maxlen r r' e :
  minlen ≤ maxlen →
  generate_unique_name_from n inside minlen maxlen r = (Raise e, r') →
  e = Exception_ (py "Unable to generate unique name").
Proof.
  intros Hle. revert r. induction n as [|n IH]; intros r; simpl.
  - unfold raise. by intros [= <- <-].
  - intros [Hname|(name & r1 & _ & Hrun)]%bind_Raise.
    + apply generate_new_name_Raise in Hname. lia.
    + destruct (contains name inside); simpl in Hrun; [eauto|done].
Qed.
End unique_names.

(** Names drawn one after the other, each excluded from the next draws:
    the loop of [generate_multiple_unique_names], from any first list. *)
Lemma unique_names_threaded {X} (xs : list X) (minlen maxlen : Z)
    (init names : list pystr) (r r' : rng) :
  for_ xs (fun names _ => name ← generate_unique_name names minlen maxlen;
                          mret (names ++ [name])) init r = (Ok names, r') →
  ∃ new, names = init ++ new ∧ length new = length xs
         ∧ NoDup new ∧ ∀ name, name ∈ new → name ∉ init.
Proof.
  revert init r. induction xs as [|x xs IH]; intros init r; simpl.
  - intros [<- <-]%ret_Ok. exists []. rewrite app_nil_r.
    split_and!; [done|done|constructor|]. intros ?. by rewrite elem_of_nil.
  - intros (names1 & r1 & Hstep & Hrest)%bind_Ok.
    apply bind_Ok in Hstep as (name & r2 & Hname & Hret).
    apply ret_Ok in Hret as [<- <-].
    apply generate_unique_name_from_fresh in Hname.
    unfold contains, list_contains in Hname. apply bool_decide_eq_false in Hname.
    apply IH in Hrest as (new & -> & Hlen & Hnd & Hfresh).
    exists (name :: new). rewrite <- app_assoc. split_and!; [done|simpl; lia| |].
    + apply NoDup_cons. split; [|done].
      intros Hin. apply (Hfresh _ Hin). apply elem_of_app. right. left.
    + intros name' [->|Hin]%elem_of_cons; [done|].
      intros Hinit. apply (Hfresh _ Hin). apply elem_of_app. by left.
Qed.

(** C6.  A name [generate_unique_name] returns is absent from [inside];
    the names drawn by successive calls that each exclude the names
    before them are pairwise distinct and absent from the first exclusion
    list, and so the [count] names of [generate_multiple_unique_names]
    are pairwise distinct; [generate_unique_name] raises its fatal error
    exactly when each of the 100000 names it drew was in [inside], and,
    with [minlen <= maxlen], it raises nothing else. *)
Theorem generate_unique_name_unique `{Contains C} (inside : C) (minlen maxlen : Z)
    (r : rng) :
  (∀ name r', generate_unique_name inside minlen maxlen r = (Ok name, r') →
     contains name inside = false)
  ∧ (∀ (count : nat) (init names : list pystr) r',
       for_ (seq 0 count)
            (fun names _ => name ← generate_unique_name names minlen maxlen;
                            mret (names ++ [name])) init r = (Ok names, r') →
       ∃ new, names = init ++ new ∧ length new = count
              ∧ NoDup new ∧ ∀ name, name ∈ new → name ∉ init)
  ∧ (∀ (count : nat) names r',
       generate_multiple_unique_names count minlen maxlen r = (Ok names, r') →
       length names = count ∧ NoDup names)
  ∧ (∀ r', generate_unique_name inside minlen maxlen r
             = (Raise (Exception_ (py "Unable to generate unique name")), r')
           ↔ ∃ names, attempts RETRIES minlen maxlen r = (Ok names, r')
                      ∧ Forall (fun name => contains name inside = true) names)
  ∧ (∀ e r', minlen ≤ maxlen →
       generate_unique_name inside minlen maxlen r = (Raise e, r') →
       e = Exception_ (py "Unable to generate unique name")).
Proof.
  split_and!.
  - intros name r'. apply generate_unique_name_from_fresh.
  - intros count init names r' Hrun.
    apply unique_names_threaded in Hrun as (new & ? & Hlen & ?).
    rewrite length_seq in Hlen. eauto.
  - intros count names r' Hrun.
    apply unique_names_threaded in Hrun as (new & -> & Hlen & ? & _).
    rewrite length_seq in Hlen. done.
  - intros r'. apply generate_unique_name_from_exhausted.
  - intros e r' Hle. by apply generate_unique_name_from_Raise.
Qed.

Lemma generate_unique_name_unique_witness :
  (∃ name r', generate_unique_name [spaces20] 20 50 rng_count = (Ok name, r')
              ∧ contains name [spaces20] = false)
  ∧ (∃ names r', generate_multiple_unique_names 3 20 50 rng_count = (Ok names, r')
                 ∧ length names = 3%nat ∧ NoDup names)
  ∧ (∃ e r', generate_unique_name [spaces20] 20 50 rng_zero = (Raise e, r')
             ∧ e = Exception_ (py "Unable to generate unique name")).
Proof.
  split_and!.
  - eexists _, _. split; [vm_compute; reflexivity|].
    eapply (proj1 (generate_unique_name_unique [spaces20] 20 50 rng_count)).
    vm_compute. reflexivity.
  - eexists _, _. split; [vm_compute; reflexivity|].
    eapply (proj1 (proj2 (proj2
              (generate_unique_name_unique [spaces20] 20 50 rng_count)))).
    vm_compute. reflexivity.
  - eexists _, (Rng (fun _ => 0%N) 2100000).
    assert (generate_unique_name [spaces20] 20 50 rng_zero
            = (Raise (Exception_ (py "Unable to generate unique name")),
               Rng (fun _ => 0%N) 2100000)) as Hrun
      by (vm_compute; reflexivity).
    split; [exact Hrun|].
    refine (proj2 (proj2 (proj2 (proj2
              (generate_unique_name_unique [spaces20] 20 50 rng_zero))))
              _ (Rng (fun _ => 0%N) 2100000) _ Hrun).
    lia.
Defined.

(** ** Wrapping the options of a game *)

Lemma dict_set_snoc {K V} `{EqDecision K} (k : K) (v v0 : V) (d : list (K * V)) :
  k ∉ d.*1 → dict_set k v (d ++ [(k, v0)]) = d ++ [(k, v)].
Proof.
  induction d as [|[k' v'] d IH]; csimpl.
  - intros _. by rewrite decide_True.
  - rewrite not_elem_of_cons. intros [Hne Hd].
    rewrite decide_False by done. by rewrite IH.
Qed.

Lemma dict_get_app {K V} `{EqDecision K} (k : K) (d1 d2 : list (K * V)) :
  dict_get k (d1 ++ d2) =
    match dict_get k d1 with Some v => Some v | None => dict_get k d2 end.
Proof.
  induction d1 as [|[k' v'] d1 IH]; csimpl; [done|]. by case_decide.
Qed.

Lemma dict_get_fmap_inj {K V W} `{EqDecision K} (f : W → K) (g : W → V)
    (ws : list W) (w : W) :
  NoDup (f <$> ws) → w ∈ ws → dict_get (f w) ((fun w => (f w, g w)) <$> ws) = Some (g w).
Proof.
  intros Hnd Hin. apply dict_get_NoDup.
  - by rewrite <- list_fmap_compose.
  - by apply (list_elem_of_fmap_2 (fun w => (f w, g w))).
Qed.

Section wrap_labels.
Context (game_name wrapped_name orig_name : pystr) (triggers0 : list Trigger).

Lemma wrap_label_inv done st item r st' r' :
  item.1 ∉ done.*1 →
  labels_inv game_name wrapped_name orig_name triggers0 done st →
  ContextExtra.wrap_label game_name wrapped_name orig_name st item r = (Ok st', r') →
  labels_inv game_name wrapped_name orig_name triggers0 (done ++ [item]) st'.
Proof.
  destruct item as [weight_name weight].
  intros Hnew (fresh & Hlen & Hnd & Hset & Hw & Hwn & Htr) Hrun.
  unfold ContextExtra.wrap_label in Hrun.
  apply bind_Ok in Hrun as (name & r1 & Hname & Hret).
  apply ret_Ok in Hret as [<- <-].
  apply generate_unique_name_from_fresh in Hname.
  unfold contains, set_contains in Hname.
  apply bool_decide_eq_false in Hname.
  rewrite Hset, elem_of_list_to_set in Hname.
  exists (fresh ++ [name]). simpl.
  rewrite !fmap_app, !length_app, Hlen. csimpl.
  split_and!.
  - done.
  - apply NoDup_app. split_and!; [done| |apply NoDup_singleton].
    intros x Hx. rewrite list_elem_of_singleton. by intros ->.
  - rewrite Hset, list_to_set_app_L. simpl. set_solver.
  - rewrite Hw, dict_set_keys_fresh.
    + rewrite zip_with_app by (rewrite length_fmap; done). done.
    + rewrite fst_zip by (rewrite length_fmap; lia). done.
  - rewrite Hwn, dict_set_keys_fresh.
    + rewrite zip_with_app by (rewrite length_fmap; done). done.
    + rewrite fst_zip by (rewrite length_fmap; lia). done.
  - rewrite Htr, zip_with_app by (rewrite length_fmap; done).
    rewrite fmap_app, <- app_assoc. done.
Qed.

Lemma wrap_labels_inv items done st r st' r' :
  NoDup (done ++ items).*1 →
  labels_inv game_name wrapped_name orig_name triggers0 done st →
  for_ items (ContextExtra.wrap_label game_name wrapped_name orig_name) st r
    = (Ok st', r') →
  labels_inv game_name wrapped_name orig_name triggers0 (done ++ items) st'.
Proof.
  revert done st r. induction items as [|item items IH]; intros done st r; simpl.
  - intros _ Hinv [<- <-]%ret_Ok. by rewrite app_nil_r.
  - intros Hnd Hinv (st1 & r1 & Hstep & Hrest)%bind_Ok.
    rewrite cons_middle, (assoc_L (++) done [item] items) in Hnd |- *.
    eapply IH; [done| |done].
    eapply wrap_label_inv; [|done|done].
    rewrite !fmap_app in Hnd. apply NoDup_app in Hnd as [Hnd _].
    apply NoDup_app in Hnd as (_ & Hnd & _).
    intros Hin. apply (Hnd _ Hin). left.
Qed.
End wrap_labels.

Section wrap_options.
Context (self0 : ContextExtra).

Lemma wrap_option_inv done self rtw triggers item r st' r' :
  item.1 ∉ done.*1 →
  NoDup (weights_of item.2).*1 →
  options_inv self0 done self rtw triggers →
  ContextExtra.wrap_option (self, rtw, triggers) item r = (Ok st', r') →
  options_inv self0 (done ++ [item]) st'.1.1 st'.1.2 st'.2.
Proof.
  destruct item as [orig_name orig_option]. simpl.
  intros Hnew Hlabels (ws & Hws & Hok & Hnd & Hfresh & Hgame & Htrig & Hopts & -> & ->).
  unfold ContextExtra.wrap_option.
  destruct (isinstance_WeightedOption orig_option) eqn:Hweighted; simpl.
  2: { intros [<- <-]%ret_Ok. exists ws. simpl.
       rewrite filter_app, filter_cons_False, filter_nil, app_nil_r
         by (simpl; rewrite Hweighted; auto).
       done. }
  intros Hrun. apply bind_Ok in Hrun as ([[name option] self1] & r1 & Hgen & Hrun).
  unfold ContextExtra.generate_option in Hgen.
  apply bind_Ok in Hgen as (name' & r2 & Hname & Hret).
  apply ret_Ok in Hret as [[= <- <- <-] <-].
  apply generate_unique_name_from_fresh in Hname.
  unfold contains, list_contains in Hname. apply bool_decide_eq_false in Hname.
  rewrite Hopts, fmap_app, <- list_fmap_compose, not_elem_of_app in Hname.
  destruct Hname as [Hname0 Hname1]. simpl in Hrun.
  apply bind_Ok in Hrun as (u1 & r3 & _ & Hrun).
  apply bind_Ok in Hrun as (lst & r4 & Hloop & Hrun).
  apply bind_Ok in Hrun as (u2 & r5 & _ & Hrun).
  apply bind_Ok in Hrun as (u3 & r6 & _ & Hrun).
  apply ret_Ok in Hrun as [<- <-]. simpl.
  eapply wrap_labels_inv with (done := []) in Hloop.
  2: { done. }
  2: { exists []. split_and!; try done. constructor. by rewrite app_nil_r. }
  destruct Hloop as (fresh & Hflen & Hfnd & _ & Hw & Hwn & Htr). simpl in *.
  set (w := Wrapping orig_name orig_option name' fresh).
  assert (orig_name ∉ w_orig_name <$> ws) as Hrtw.
  { intros Hin. apply Hnew.
    apply list_elem_of_fmap in Hin as (w0 & Heq & Hin).
    assert ((w_orig_name w0, w_orig_option w0)
            ∈ filter (fun item => isinstance_WeightedOption item.2) done) as Hin'.
    { rewrite <- Hws.
      by apply (list_elem_of_fmap_2 (fun w => (w_orig_name w, w_orig_option w))). }
    apply list_elem_of_filter in Hin' as [_ Hin'].
    apply (list_elem_of_fmap_2 fst) in Hin'. by rewrite Heq. }
  exists (ws ++ [w]). split_and!.
  - rewrite filter_app, filter_cons_True, filter_nil, fmap_app, Hws
      by (simpl; rewrite Hweighted; done).
    done.
  - apply Forall_app. split; [done|]. apply Forall_singleton. by split.
  - rewrite fmap_app. apply NoDup_app. split_and!; [done| |apply NoDup_singleton].
    intros x Hx. simpl. rewrite list_elem_of_singleton. by intros ->.
  - intros w0 [Hin| ->%list_elem_of_singleton]%elem_of_app; [auto|done].
  - done.
  - done.
  - simpl.
    assert (name' ∉ (ContextExtra.options self).*1) as Hname.
    { rewrite Hopts, fmap_app, <- list_fmap_compose, not_elem_of_app. done. }
    rewrite (dict_set_keys_fresh name' _ (ContextExtra.options self)) by done.
    rewrite dict_set_snoc by done.
    rewrite Hopts, fmap_app, <- app_assoc.
    unfold wrapping_option, wrapping_label_names. simpl. by rewrite Hw, Hwn.
  - rewrite dict_set_keys_fresh, fmap_app
      by (rewrite <- list_fmap_compose; exact Hrtw).
    done.
  - rewrite Htr, fmap_app, concat_app. simpl. rewrite app_nil_r.
    unfold wrapping_triggers. simpl. by rewrite Hgame.
Qed.

Lemma wrap_options_inv items done self rtw triggers r st' r' :
  NoDup (done ++ items).*1 →
  Forall (fun item => NoDup (weights_of item.2).*1) items →
  options_inv self0 done self rtw triggers →
  for_ items ContextExtra.wrap_option (self, rtw, triggers) r = (Ok st', r') →
  options_inv self0 (done ++ items) st'.1.1 st'.1.2 st'.2.
Proof.
  revert done self rtw triggers r.
  induction items as [|item items IH]; intros done self rtw triggers r; simpl.
  - intros _ _ Hinv [<- <-]%ret_Ok. by rewrite app_nil_r.
  - intros Hnd [Hitem Hitems]%Forall_cons Hinv (st1 & r1 & Hstep & Hrest)%bind_Ok.
    rewrite cons_middle, (assoc_L (++) done [item] items) in Hnd |- *.
    destruct st1 as [[self1 rtw1] triggers1].
    eapply IH; [done|done| |done].
    eapply (wrap_option_inv _ _ _ _ _ _ (self1, rtw1, triggers1)); [|done|done|done].
    rewrite !fmap_app in Hnd. apply NoDup_app in Hnd as [Hnd _].
    apply NoDup_app in Hnd as (_ & Hnd & _).
    intros Hin. apply (Hnd _ Hin). left.
Qed.
End wrap_options.

(** What [create_wrapper_options] returns, and leaves in [self]. *)
Lemma create_wrapper_options_wrappings (self : ContextExtra)
    (orig_options : list (pystr * Option)) (r r' : rng)
    (triggers : list Trigger) (real_to_wrapped : list (pystr * pystr))
    (self' : ContextExtra) :
  options_wf orig_options →
  ContextExtra.create_wrapper_options self orig_options r
    = (Ok (triggers, real_to_wrapped, self'), r') →
  options_inv self orig_options self' real_to_wrapped triggers.
Proof.
  intros [Hnd Hlabels] Hrun. unfold ContextExtra.create_wrapper_options in Hrun.
  apply bind_Ok in Hrun as ([[self1 rtw1] triggers1] & r1 & Hloop & Hret).
  apply ret_Ok in Hret as [[= <- <- <-] <-].
  apply (wrap_options_inv self _ []) in Hloop; [done|done|done|].
  exists []. simpl. rewrite app_nil_r. split_and!; try done.
  - constructor.
  - intros w. by rewrite elem_of_nil.
Qed.

Lemma filter_none {A} (P : A → Prop) `{∀ x, Decision (P x)} (l : list A) :
  Forall (fun x => ¬ P x) l → filter P l = [].
Proof.
  induction 1 as [|x l Hx _ IH]; [done|]. by rewrite filter_cons_False.
Qed.

Lemma filter_all {A} (P : A → Prop) `{∀ x, Decision (P x)} (l : list A) :
  Forall P l → filter P l = l.
Proof.
  induction 1 as [|x l Hx _ IH]; [done|]. by rewrite filter_cons_True, IH.
Qed.

Lemma elem_of_concat {A} (x : A) (ls : list (list A)) :
  x ∈ concat ls ↔ ∃ l, l ∈ ls ∧ x ∈ l.
Proof.
  induction ls as [|l ls IH]; simpl.
  - rewrite elem_of_nil. split; [done|]. intros (l & Hl & _). by apply elem_of_nil in Hl.
  - rewrite elem_of_app, IH. split.
    + intros [Hx|(l' & Hl' & Hx)]; [exists l; split; [left|done]|].
      exists l'. split; [by right|done].
    + intros (l' & [->|Hl']%elem_of_cons & Hx); [by left|]. right. eauto.
Qed.

Lemma wrapping_triggers_option_name (game_name : pystr) (w : wrapping) (t : Trigger) :
  t ∈ wrapping_triggers game_name w → Trigger.option_name t = w_name w.
Proof.
  unfold wrapping_triggers. by intros (labels & -> & _)%list_elem_of_fmap.
Qed.

(** The triggers of one wrapping among those of all: the wrapper names
    tell them apart. *)
Lemma filter_wrapping_triggers (game_name : pystr) (ws : list wrapping) (w : wrapping) :
  NoDup (w_name <$> ws) → w ∈ ws →
  filter (fun t => Trigger.option_name t = w_name w)
         (concat (wrapping_triggers game_name <$> ws))
  = wrapping_triggers game_name w.
Proof.
  assert (∀ w', w_name w' ≠ w_name w →
            filter (fun t => Trigger.option_name t = w_name w)
                   (wrapping_triggers game_name w') = []) as Hother.
  { intros w' Hne. apply filter_none, Forall_forall.
    intros t Ht. by rewrite (wrapping_triggers_option_name _ _ _ Ht). }
  assert (filter (fun t => Trigger.option_name t = w_name w)
                 (wrapping_triggers game_name w) = wrapping_triggers game_name w) as Hsame.
  { apply filter_all, Forall_forall. apply wrapping_triggers_option_name. }
  induction ws as [|w' ws IH]; csimpl; [by rewrite elem_of_nil|].
  rewrite NoDup_cons, elem_of_cons, filter_app. intros [Hw' Hnd] [<-|Hin].
  - rewrite Hsame. rewrite filter_none; [by rewrite app_nil_r|].
    apply Forall_forall. intros t (ts & Hts & Ht)%elem_of_concat.
    apply list_elem_of_fmap in Hts as (w' & -> & Hin).
    rewrite (wrapping_triggers_option_name _ _ _ Ht). intros Heq.
    apply Hw'. rewrite <- Heq. by apply list_elem_of_fmap_2.
  - rewrite Hother, IH by (try done; intros Heq; apply Hw'; rewrite Heq;
                            by apply list_elem_of_fmap_2).
    done.
Qed.

(** C2.  For every weighted option [create_wrapper_options] wraps, the
    wrapper has as many labels as the original; the original labels are
    paired one to one with distinct new labels and each original weight
    is the weight of the paired wrapper label; the triggers generated for
    the option have the wrapper's labels as their [option_result], one
    trigger for each label, and each overrides the original option with the
    paired original label under the game's name. *)
Theorem create_wrapper_options_label_bijection (self self' : ContextExtra)
    (orig_options : list (pystr * Option)) (r r' : rng)
    (triggers : list Trigger) (real_to_wrapped : list (pystr * pystr))
    (orig_name : pystr) (orig_option : Option) :
  options_wf orig_options →
  ContextExtra.create_wrapper_options self orig_options r
    = (Ok (triggers, real_to_wrapped, self'), r') →
  (orig_name, orig_option) ∈ orig_options →
  isinstance_WeightedOption orig_option = true →
  ∃ (wrapped_name : pystr) (labels : list pystr),
    dict_get orig_name real_to_wrapped = Some wrapped_name
    ∧ dict_get wrapped_name (ContextExtra.options self')
      = Some (WrappedWeightedOption
                (zip labels (weights_of orig_option).*2) orig_option orig_name
                (zip (weights_of orig_option).*1 labels))
    ∧ length (zip labels (weights_of orig_option).*2) = length (weights_of orig_option)
    ∧ length labels = length (weights_of orig_option)
    ∧ NoDup labels
    ∧ filter (fun t => Trigger.option_name t = wrapped_name) triggers
      = wrapper_trigger (ContextExtra.game_name self) wrapped_name orig_name
          <$> zip (weights_of orig_option).*1 labels.
Proof.
  intros Hwf Hrun Hin Hweighted.
  destruct (create_wrapper_options_wrappings _ _ _ _ _ _ _ Hwf Hrun)
    as (ws & Hws & Hok & Hnd & Hfresh & Hgame & _ & Hopts & -> & ->).
  assert (∃ w, w ∈ ws ∧ w_orig_name w = orig_name ∧ w_orig_option w = orig_option)
    as (w & Hw & <- & <-).
  { assert ((orig_name, orig_option)
            ∈ filter (fun item => isinstance_WeightedOption item.2) orig_options) as Hin'.
    { apply list_elem_of_filter. split; [|done]. simpl. by rewrite Hweighted. }
    rewrite <- Hws in Hin'. apply list_elem_of_fmap in Hin' as (w & [= -> ->] & Hw).
    eauto. }
  pose proof (proj1 (Forall_forall _ _) Hok w Hw) as [Hlen Hlabels].
  assert (NoDup (w_orig_name <$> ws)) as Hnames.
  { destruct Hwf as [Hnd0 _].
    assert (w_orig_name <$> ws
            = (filter (fun item => isinstance_WeightedOption item.2) orig_options).*1)
      as -> by (rewrite <- Hws, <- list_fmap_compose; done).
    eapply sublist_NoDup; [exact Hnd0|]. apply fmap_sublist, sublist_filter. }
  exists (w_name w), (w_labels w). split_and!.
  - by apply (dict_get_fmap_inj w_orig_name w_name).
  - rewrite Hopts, dict_get_app.
    rewrite (proj2 (dict_get_None _ _)) by auto.
    by apply (dict_get_fmap_inj w_name wrapping_option).
  - rewrite length_zip, length_fmap. lia.
  - done.
  - done.
  - rewrite filter_wrapping_triggers by done. done.
Qed.

Lemma create_wrapper_options_label_bijection_witness :
  ∃ (wrapped_name : pystr) (labels : list pystr),
    length labels = 2%nat ∧ NoDup labels
    ∧ ∃ triggers real_to_wrapped self' r',
        ContextExtra.create_wrapper_options (ContextExtra.new (py "G"))
          (filter (fun item => isinstance_WeightedOption item.2) (Game.options game_modes))
          rng_count
        = (Ok (triggers, real_to_wrapped, self'), r')
        ∧ filter (fun t => Trigger.option_name t = wrapped_name) triggers
          = wrapper_trigger (py "G") wrapped_name (py "mode")
              <$> zip [py "easy"; py "hard"] labels.
Proof.
  assert (∃ out r',
            ContextExtra.create_wrapper_options (ContextExtra.new (py "G"))
              (filter (fun item => isinstance_WeightedOption item.2)
                      (Game.options game_modes)) rng_count
            = (Ok out, r')) as ([[triggers rtw] self'] & r' & Hrun)
    by (eexists _, _; vm_compute; reflexivity).
  assert (options_wf (filter (fun item => isinstance_WeightedOption item.2)
                             (Game.options game_modes))) as Hwf
    by (split; compute_done).
  assert ((py "mode", WeightedOption [(py "easy", VInt 3); (py "hard", VInt 1)])
          ∈ filter (fun item => isinstance_WeightedOption item.2)
                   (Game.options game_modes)) as Hin
    by left.
  destruct (create_wrapper_options_label_bijection _ _ _ _ _ _ _
              (py "mode") (WeightedOption [(py "easy", VInt 3); (py "hard", VInt 1)])
              Hwf Hrun Hin eq_refl)
    as (wrapped_name & labels & _ & _ & _ & Hlen & Hnd & Htr).
  exists wrapped_name, labels. split_and!; [exact Hlen|exact Hnd|].
  exists triggers, rtw, self', r'. split; [exact Hrun|exact Htr].
Defined.

(** C5 as stated fails: the claim has every generated wrapper name
    distinct from the option names the game already has; with a random
    source that draws twenty spaces, the wrapper of the option named by
    twenty spaces gets that very name. *)
Lemma wrapper_name_taken_by_game_option :
  ∃ triggers real_to_wrapped self' r',
    ContextExtra.create_wrapper_options (ContextExtra.new (py "G"))
      (filter (fun item => isinstance_WeightedOption item.2) (Game.options game_spaces))
      rng_zero
    = (Ok (triggers, real_to_wrapped, self'), r')
    ∧ ∃ wrapped_name, wrapped_name ∈ real_to_wrapped.*2
                      ∧ wrapped_name ∈ (Game.options game_spaces).*1.
Proof.
  eexists _, _, _, _. split; [vm_compute; reflexivity|].
  exists spaces20. split; left.
Qed.

Lemma wrapper_names_new_to_side_table (self self' : ContextExtra)
    (orig_options : list (pystr * Option)) (r r' : rng)
    (triggers : list Trigger) (real_to_wrapped : list (pystr * pystr)) :
  options_wf orig_options →
  ContextExtra.create_wrapper_options self orig_options r
    = (Ok (triggers, real_to_wrapped, self'), r') →
  NoDup real_to_wrapped.*2
  ∧ (∀ wrapped_name, wrapped_name ∈ real_to_wrapped.*2 →
       wrapped_name ∉ (ContextExtra.options self).*1)
  ∧ (ContextExtra.options self').*1 = (ContextExtra.options self).*1 ++ real_to_wrapped.*2.
Proof.
  intros Hwf Hrun.
  destruct (create_wrapper_options_wrappings _ _ _ _ _ _ _ Hwf Hrun)
    as (ws & _ & _ & Hnd & Hfresh & _ & _ & Hopts & -> & _).
  rewrite <- list_fmap_compose. split_and!.
  - done.
  - intros name (w & -> & Hw)%list_elem_of_fmap. by apply Hfresh.
  - by rewrite Hopts, fmap_app, <- list_fmap_compose.
Qed.

(** C5, amended.  The wrapper names [create_wrapper_options] generates
    are pairwise distinct and distinct from every name of the game's side
    table, which holds the wrappers generated for the game before, in
    this pass and in earlier ones.  (The names of the options of the game
    itself are not consulted.) *)
Theorem create_wrapper_options_names_fresh (self self' : ContextExtra)
    (orig_options : list (pystr * Option)) (r r' : rng)
    (triggers : list Trigger) (real_to_wrapped : list (pystr * pystr)) :
  options_wf orig_options →
  ContextExtra.create_wrapper_options self orig_options r
    = (Ok (triggers, real_to_wrapped, self'), r') →
  NoDup real_to_wrapped.*2
  ∧ (∀ wrapped_name, wrapped_name ∈ real_to_wrapped.*2 →
       wrapped_name ∉ (ContextExtra.options self).*1)
  ∧ (ContextExtra.options self').*1 = (ContextExtra.options self).*1 ++ real_to_wrapped.*2.
Proof.
  intros Hwf Hrun.
  destruct (create_wrapper_options_wrappings _ _ _ _ _ _ _ Hwf Hrun)
    as (ws & _ & _ & Hnd & Hfresh & _ & _ & Hopts & -> & _).
  rewrite <- list_fmap_compose. split_and!.
  - done.
  - intros name (w & -> & Hw)%list_elem_of_fmap. by apply Hfresh.
  - by rewrite Hopts, fmap_app, <- list_fmap_compose.
Qed.

Lemma create_wrapper_options_names_fresh_witness :
  ∃ triggers real_to_wrapped self' r',
    ContextExtra.create_wrapper_options (ContextExtra.new (py "G"))
      (filter (fun item => isinstance_WeightedOption item.2) (Game.options game_modes))
      rng_count
    = (Ok (triggers, real_to_wrapped, self'), r')
    ∧ NoDup real_to_wrapped.*2.
Proof.
  assert (options_wf (filter (fun item => isinstance_WeightedOption item.2)
                             (Game.options game_modes))) as Hwf
    by (split; compute_done).
  assert (∃ out r',
            ContextExtra.create_wrapper_options (ContextExtra.new (py "G"))
              (filter (fun item => isinstance_WeightedOption item.2)
                      (Game.options game_modes)) rng_count
            = (Ok out, r')) as ([[triggers rtw] self'] & r' & Hrun)
    by (eexists _, _; vm_compute; reflexivity).
  exists triggers, rtw, self', r'. split; [exact Hrun|].
  exact (proj1 (create_wrapper_options_names_fresh _ _ _ _ _ _ _ Hwf Hrun)).
Defined.

(** ** One game, one pass *)

Lemma list_extend_beginning_app {A} (base_list prepend_with : list A) :
  list_extend_beginning base_list prepend_with = prepend_with ++ base_list.
Proof.
  unfold list_extend_beginning.
  rewrite <- (reverse_involutive prepend_with) at 2.
  generalize (reverse prepend_with) as l. intros l. revert base_list.
  induction l as [|x l IH]; intros base_list; simpl; [done|].
  by rewrite IH, reverse_cons, <- app_assoc.
Qed.

Lemma mapR_Forall2 {A B} (f : A → result B) (l : list A) (l' : list B) :
  mapR f l = Ok l' ↔ Forall2 (fun x y => f x = Ok y) l l'.
Proof.
  revert l'. induction l as [|x l IH]; intros l'; simpl.
  - split; [intros [= <-]; constructor | by inversion 1].
  - split.
    + intros (y & Hy & Hrest)%result_bind_Ok.
      apply result_bind_Ok in Hrest as (ys & Hys & [= <-]).
      constructor; [done|]. by apply IH.
    + inversion 1 as [|? y ? ys Hy Hys]; subst.
      rewrite Hy. simpl. apply IH in Hys. by rewrite Hys.
Qed.

Lemma game_by_name_with_game (root : Root) (game_name : pystr) (game game' : Game) :
  Root.game_by_name root game_name = Ok game →
  Game.name game' = game_name →
  Root.game_by_name (Root.with_game root game_name game') game_name = Ok game'.
Proof.
  unfold Root.game_by_name, Root.with_game.
  destruct (list_find _ (Root.games root)) as [[i g]|] eqn:Hfind; [|done].
  intros _ Hname. simpl.
  apply list_find_Some in Hfind as (Hi & Hg & Hbefore).
  assert (list_find (fun game => Game.name game = game_name)
                    (<[i:=game']> (Root.games root)) = Some (i, game')) as ->; [|done].
  apply list_find_Some. split_and!.
  - apply list_lookup_insert_eq. by eapply lookup_lt_Some.
  - done.
  - intros j y Hj Hlt. rewrite list_lookup_insert_ne in Hj by lia. eauto.
Qed.

(** What a run of [wrap_game] that returns went through. *)
Lemma wrap_game_Ok (game game' : Game) (extra extra' : ContextExtra)
    (first_time : bool) (r r' : rng) :
  Context.wrap_game game extra first_time r = (Ok (game', extra'), r') →
  ∃ wrapped_triggers real_name_to_wrapped,
    ContextExtra.create_wrapper_options extra
      (filter (fun item => isinstance_WeightedOption item.2) (Game.options game)) r
    = (Ok (wrapped_triggers, real_name_to_wrapped, extra'), r')
    ∧ foldl (fun acc item =>
               game_options ← acc;
               Context.replace_option (ContextExtra.options extra') game_options item)
            (Ok (Game.options game)) real_name_to_wrapped
      = Ok (Game.options game')
    ∧ Game.name game' = Game.name game
    ∧ if first_time then
        ∃ rewritten,
          mapR (Context.rename_trigger (Game.name game) real_name_to_wrapped
                                       (ContextExtra.options extra'))
               (Game.triggers game) = Ok rewritten
          ∧ Game.triggers game' = rewritten ++ wrapped_triggers
      else Game.triggers game' = wrapped_triggers ++ Game.triggers game.
Proof.
  unfold Context.wrap_game. intros Hrun.
  apply bind_Ok in Hrun as ([[wrapped_triggers rtw] extra1] & r1 & Hwrap & Hrun).
  apply bind_Ok in Hrun as (game_options & r2 & [Hopts <-]%lift_Ok & Hrun).
  exists wrapped_triggers, rtw. destruct first_time.
  - apply bind_Ok in Hrun as (rewritten & r3 & [Hmap <-]%lift_Ok & Hrun).
    apply ret_Ok in Hrun as [[= <- <-] <-]. simpl. split_and!; try done. eauto.
  - apply ret_Ok in Hrun as [[= <- <-] <-]. simpl. split_and!; try done.
    apply list_extend_beginning_app.
Qed.

(** What a run of [obfuscate_game_wrap] that returns went through. *)
Lemma obfuscate_game_wrap_Ok (self self' : Context) (game_name : pystr)
    (first_time : bool) (r r' : rng) :
  Context.obfuscate_game_wrap self game_name first_time r = (Ok self', r') →
  ∃ game game' extra extra',
    Root.game_by_name (Context.root self) game_name = Ok game
    ∧ dict_get game_name (Context.extra_games self) = Some extra
    ∧ Context.wrap_game game extra first_time r = (Ok (game', extra'), r')
    ∧ Game.name game = game_name
    ∧ Root.game_by_name (Context.root self') game_name = Ok game'
    ∧ dict_get game_name (Context.extra_games self') = Some extra'
    ∧ Context.orig_root self' = Context.orig_root self
    ∧ Context.iteration self' = Context.iteration self.
Proof.
  unfold Context.obfuscate_game_wrap. intros Hrun.
  apply bind_Ok in Hrun as (game & r1 & [Hgame <-]%lift_Ok & Hrun).
  apply bind_Ok in Hrun as (extra & r2 & [Hextra <-]%lift_Ok & Hrun).
  apply bind_Ok in Hrun as ([game' extra'] & r3 & Hwrap & Hrun).
  apply ret_Ok in Hrun as [<- <-]. simpl.
  unfold dict_item in Hextra.
  destruct (dict_get game_name (Context.extra_games self)) as [extra0|] eqn:Hget;
    [|done].
  injection Hextra as ->.
  assert (Game.name game = game_name) as Hname.
  { unfold Root.game_by_name in Hgame.
    destruct (list_find _ _) as [[i g]|] eqn:Hfind; [|done].
    injection Hgame as ->. by apply list_find_Some in Hfind as (_ & ? & _). }
  exists game, game', extra, extra'. split_and!; try done.
  - apply game_by_name_with_game with (game := game); [done|].
    apply wrap_game_Ok in Hwrap as (? & ? & _ & _ & Hn & _). congruence.
  - rewrite dict_get_set. by rewrite decide_True.
Qed.

(** C3.  On pass 0 ([iteration = 0]) the triggers of a game become the
    pre-existing ones, each rewritten and none dropped, followed by the
    freshly generated wrapper triggers; on a later pass they become the
    freshly generated wrapper triggers, in their order, followed by the
    pre-existing ones, untouched. *)
Theorem obfuscate_game_trigger_order (self self' : Context) (game_name : pystr)
    (r r' : rng) :
  Context.obfuscate_game self game_name r = (Ok self', r') →
  ∃ game game' extra extra' wrapped_triggers real_name_to_wrapped,
    Root.game_by_name (Context.root self) game_name = Ok game
    ∧ Root.game_by_name (Context.root self') game_name = Ok game'
    ∧ dict_get game_name (Context.extra_games self) = Some extra
    ∧ ContextExtra.create_wrapper_options extra
        (filter (fun item => isinstance_WeightedOption item.2) (Game.options game)) r
      = (Ok (wrapped_triggers, real_name_to_wrapped, extra'), r')
    ∧ (Context.iteration self = 0 →
       ∃ rewritten,
         Forall2 (fun trigger trigger' =>
                    Context.rename_trigger game_name real_name_to_wrapped
                      (ContextExtra.options extra') trigger = Ok trigger')
                 (Game.triggers game) rewritten
         ∧ length rewritten = length (Game.triggers game)
         ∧ Game.triggers game' = rewritten ++ wrapped_triggers)
    ∧ (Context.iteration self ≠ 0 →
       Game.triggers game' = wrapped_triggers ++ Game.triggers game).
Proof.
  unfold Context.obfuscate_game. intros Hrun.
  apply obfuscate_game_wrap_Ok in Hrun
    as (game & game' & extra & extra' & Hgame & Hextra & Hwrap & Hname & Hgame' & _).
  apply wrap_game_Ok in Hwrap as (wrapped & rtw & Hcreate & _ & _ & Htriggers).
  exists game, game', extra, extra', wrapped, rtw. split_and!; try done.
  - intros Hit. rewrite bool_decide_eq_true_2 in Htriggers by done.
    destruct Htriggers as (rewritten & Hmap & Htr). exists rewritten.
    apply mapR_Forall2 in Hmap. rewrite Hname in Hmap. split_and!; try done.
    symmetry. by eapply Forall2_length.
  - intros Hit. by rewrite bool_decide_eq_false_2 in Htriggers.
Qed.

Lemma obfuscate_game_trigger_order_witness :
  (∃ self' r' game' rewritten wrapped_triggers,
     Context.obfuscate_game (Context.new root_modes) (py "G") rng_count = (Ok self', r')
     ∧ Root.game_by_name (Context.root self') (py "G") = Ok game'
     ∧ length rewritten = 2%nat
     ∧ Game.triggers game' = rewritten ++ wrapped_triggers)
  ∧ (∃ self1 r1 self' r' game game' wrapped_triggers,
       Context.obfuscate (Context.new root_modes) rng_count = (Ok self1, r1)
       ∧ Context.obfuscate_game self1 (py "G") r1 = (Ok self', r')
       ∧ Root.game_by_name (Context.root self1) (py "G") = Ok game
       ∧ Root.game_by_name (Context.root self') (py "G") = Ok game'
       ∧ Game.triggers game' = wrapped_triggers ++ Game.triggers game).
Proof.
  split.
  - assert (∃ self' r', Context.obfuscate_game (Context.new root_modes) (py "G") rng_count
                        = (Ok self', r')) as (self' & r' & Hrun)
      by (eexists _, _; vm_compute; reflexivity).
    destruct (obfuscate_game_trigger_order _ _ _ _ _ Hrun)
      as (game & game' & extra & extra' & wrapped & rtw & Hgame & Hgame' & _ & _ & Hfirst & _).
    destruct (Hfirst eq_refl) as (rewritten & _ & Hlen & Htr).
    assert (game = game_modes) as -> by (injection Hgame as <-; reflexivity).
    exists self', r', game', rewritten, wrapped.
    split; [exact Hrun|]. split; [exact Hgame'|]. split; [exact Hlen|exact Htr].
  - assert (∃ self1 r1, Context.obfuscate (Context.new root_modes) rng_count
                        = (Ok self1, r1)
                        ∧ Context.iteration self1 = 1) as (self1 & r1 & Hpass & Hit)
      by (eexists _, _; split; [vm_compute; reflexivity|reflexivity]).
    assert (∃ self' r', Context.obfuscate_game self1 (py "G") r1 = (Ok self', r'))
      as (self' & r' & Hrun).
    { assert (Ok (A:=Context) self1 = (Context.obfuscate (Context.new root_modes) rng_count).1
              ∧ r1 = (Context.obfuscate (Context.new root_modes) rng_count).2)
        as [Hs Hr] by (rewrite Hpass; split; reflexivity).
      vm_compute in Hs, Hr. injection Hs as ->. subst r1.
      eexists _, _. vm_compute. reflexivity. }
    destruct (obfuscate_game_trigger_order _ _ _ _ _ Hrun)
      as (game & game' & extra & extra' & wrapped & rtw & Hgame & Hgame' & _ & _ & _ & Hlater).
    exists self1, r1, self', r', game, game', wrapped.
    split; [exact Hpass|]. split; [exact Hrun|]. split; [exact Hgame|].
    split; [exact Hgame'|]. apply Hlater. rewrite Hit. discriminate.
Defined.

(** ** The options of the game after wrapping *)

Lemma elem_of_keys {K V} (k : K) (v : V) (d : list (K * V)) : (k, v) ∈ d → k ∈ d.*1.
Proof. intros Hin. by apply (list_elem_of_fmap_2 fst) in Hin. Qed.


Lemma filter_keys_subseteq {K V} (P : K * V → Prop) `{∀ x, Decision (P x)}
    (d : list (K * V)) (k : K) :
  k ∈ (filter P d).*1 → k ∈ d.*1.
Proof.
  intros (item & -> & Hin)%list_elem_of_fmap.
  apply list_elem_of_filter in Hin as [_ Hin]. by apply list_elem_of_fmap_2.
Qed.

Lemma filter_keys_NoDup {K V} (P : K * V → Prop) `{∀ x, Decision (P x)}
    (d : list (K * V)) :
  NoDup d.*1 → NoDup (filter P d).*1.
Proof.
  intros Hnd. eapply sublist_NoDup; [exact Hnd|]. apply fmap_sublist, sublist_filter.
Qed.



Lemma options_wf_filter (P : pystr * Option → Prop) `{∀ x, Decision (P x)}
    (options : list (pystr * Option)) :
  options_wf options → options_wf (filter P options).
Proof.
  intros [Hnd Hall]. split; [by apply filter_keys_NoDup|].
  apply Forall_forall. intros item [_ Hin]%list_elem_of_filter.
  by apply (proj1 (Forall_forall _ _) Hall).
Qed.




(** ** Rewriting the triggers of the game *)

Lemma dict_remove_middle {K V} `{EqDecision K} (k : K) (v : V) (d1 d2 : list (K * V)) :
  k ∉ d1.*1 → dict_remove k (d1 ++ (k, v) :: d2) = d1 ++ d2.
Proof.
  induction d1 as [|[k' v'] d1 IH]; csimpl.
  - intros _. by rewrite decide_True.
  - rewrite not_elem_of_cons. intros [Hne Hd].
    rewrite decide_False by done. by rewrite IH.
Qed.

Lemma dict_get_inj {K V} `{EqDecision K} (k k' : K) (v : V) (d : list (K * V)) :
  NoDup d.*2 → dict_get k d = Some v → dict_get k' d = Some v → k = k'.
Proof.
  intros Hnd H1%dict_get_Some_elem H2%dict_get_Some_elem.
  apply list_elem_of_lookup in H1 as [i Hi], H2 as [j Hj].
  assert (i = j) as ->.
  { eapply NoDup_lookup; [exact Hnd| |].
    - rewrite list_lookup_fmap, Hi. done.
    - rewrite list_lookup_fmap, Hj. done. }
  congruence.
Qed.

Lemma str_dict_in_inv {V} (k : key) (d : list (pystr * V)) :
  str_dict_in k d = true → ∃ s v, k = KStr s ∧ dict_get s d = Some v.
Proof.
  destruct k; try done. simpl. intros Hin%dict_in_spec%dict_get_is_Some.
  destruct Hin as [v Hv]. eauto.
Qed.

Lemma str_dict_in_get {V} (s : pystr) (v : V) (d : list (pystr * V)) :
  dict_get s d = Some v → str_dict_in (KStr s) d = true.
Proof. intros Hget. simpl. apply dict_in_spec, dict_get_is_Some. eauto. Qed.

Section rename_weights.
Context (new_weight_names : list (pystr * pystr)).
Context (Hinj : NoDup new_weight_names.*2).

Let renamed (item : key * value) : Prop := str_dict_in item.1 new_weight_names.
Let relabel (item : key * value) : key * value :=
  (relabel_key new_weight_names item.1, item.2).

Lemma rename_weights_from (p q : list (key * value)) :
  NoDup (p ++ q).*1 →
  (∀ label, label ∈ new_weight_names.*2 → KStr label ∉ (p ++ q).*1) →
  foldl (fun acc item => weights ← acc; Context.rename_weight new_weight_names weights item)
        (Ok (filter (fun item => ¬ renamed item) p ++ q
             ++ (relabel <$> filter renamed p))) q
  = Ok (filter (fun item => ¬ renamed item) (p ++ q)
        ++ (relabel <$> filter renamed (p ++ q))).
Proof.
  revert p. induction q as [|[k v] q IH]; intros p Hnd Hfresh.
  - simpl. by rewrite !app_nil_r.
  - assert ((k ∉ p.*1) ∧ (k ∉ q.*1)) as [Hkp Hkq].
    { rewrite fmap_app, fmap_cons in Hnd. apply NoDup_app in Hnd as (_ & Hpq & Hq).
      apply NoDup_cons in Hq as [Hq _]. split; [|done].
      intros Hin. apply (Hpq _ Hin). left. }
    assert (Ok (filter (fun item => ¬ renamed item) p ++ ((k, v) :: q)
                ++ (relabel <$> filter renamed p))
              ≫= (fun weights => Context.rename_weight new_weight_names weights (k, v))
            = Ok (filter (fun item => ¬ renamed item) (p ++ [(k, v)]) ++ q
                  ++ (relabel <$> filter renamed (p ++ [(k, v)])))) as Hstep.
    { simpl. unfold Context.rename_weight. rewrite !filter_app.
      destruct (str_dict_in k new_weight_names) eqn:Hin.
      + rewrite (filter_cons_False _ (k, v)) by (unfold renamed; simpl; rewrite Hin; auto).
        rewrite (filter_cons_True renamed (k, v)) by (unfold renamed; simpl; by rewrite Hin).
        rewrite !filter_nil, app_nil_r.
        destruct (str_dict_in_inv _ _ Hin) as (s & label & -> & Hget).
        unfold dict_del, dict_in.
        rewrite bool_decide_eq_true_2.
        2: { rewrite !fmap_app. apply elem_of_app. right. left. }
        simpl. unfold dict_item. rewrite Hget. simpl. f_equal.
        rewrite dict_remove_middle by (by intros Hk%filter_keys_subseteq).
        rewrite dict_set_keys_fresh.
        * rewrite fmap_app, <- !app_assoc. csimpl. unfold relabel. simpl.
          by rewrite Hget.
        * assert (label ∈ new_weight_names.*2) as Hlabel
            by (apply dict_get_Some_elem in Hget;
                by apply (list_elem_of_fmap_2 snd) in Hget).
          specialize (Hfresh label Hlabel). rewrite fmap_app, fmap_cons in Hfresh.
          rewrite !fmap_app, !not_elem_of_app. split_and!.
          -- intros Hk%filter_keys_subseteq. apply Hfresh. rewrite elem_of_app. auto.
          -- intros Hk. apply Hfresh. rewrite elem_of_app, elem_of_cons. auto.
          -- rewrite <- list_fmap_compose.
             intros ([k' v'] & Hk' & [Hren Hin']%list_elem_of_filter)%list_elem_of_fmap.
             unfold renamed in Hren. simpl in Hk', Hren.
             apply Is_true_true in Hren.
             destruct (str_dict_in_inv _ _ Hren) as (s' & label' & -> & Hget').
             simpl in Hk'. rewrite Hget' in Hk'. injection Hk' as <-.
             assert (s = s') as <- by (eapply dict_get_inj; done).
             apply Hkp. by apply (elem_of_keys _ v').
      + rewrite (filter_cons_True _ (k, v)) by (unfold renamed; simpl; rewrite Hin; auto).
        rewrite (filter_cons_False renamed (k, v))
          by (unfold renamed; simpl; rewrite Hin; exact id).
        rewrite !filter_nil, app_nil_r. simpl. by rewrite <- !app_assoc. }
    cbn [foldl]. rewrite Hstep.
    rewrite (cons_middle (k, v) p q), (assoc_L (++) p [(k, v)] q) in Hnd, Hfresh |- *.
    by apply IH.
Qed.

Lemma rename_weights_relabeled (weights : list (key * value)) :
  NoDup weights.*1 →
  (∀ label, label ∈ new_weight_names.*2 → KStr label ∉ weights.*1) →
  Context.rename_weights new_weight_names weights
  = Ok (relabeled new_weight_names weights).
Proof.
  intros Hnd Hfresh. unfold Context.rename_weights.
  pose proof (rename_weights_from [] weights Hnd Hfresh) as Hfold.
  rewrite !filter_nil in Hfold. simpl in Hfold. rewrite app_nil_r in Hfold.
  exact Hfold.
Qed.
End rename_weights.

Lemma foldl_Raise {A B} (f : B → A → result B) (e : exn) (l : list A) :
  foldl (fun acc x => b ← acc; f b x) (Raise e) l = Raise e.
Proof. induction l as [|x l IH]; simpl; [done|]. exact IH. Qed.

Section rename_overrides.
Context (real_name_to_wrapped : list (pystr * pystr)).
Context (extra_options : list (pystr * Option)).
Context (Hinj : NoDup real_name_to_wrapped.*2).
Context (Hlabels : ∀ wrapped_name w original_option original_name new_weight_names,
           wrapped_name ∈ real_name_to_wrapped.*2 →
           dict_get wrapped_name extra_options
           = Some (WrappedWeightedOption w original_option original_name new_weight_names) →
           NoDup new_weight_names.*2).

Let wrapped (item : key * value) : Prop := str_dict_in item.1 real_name_to_wrapped.

(** One wrapped override: deleted where it was, and stored last under
    the wrapper's name with its labels renamed. *)
Lemma rename_override_wrapped (d1 d2 gto' : list (key * value))
    (real_name wrapped_name : pystr) (v : value) :
  dict_get real_name real_name_to_wrapped = Some wrapped_name →
  KStr real_name ∉ d1.*1 →
  KStr wrapped_name ∉ (d1 ++ d2).*1 →
  (∀ w original_option original_name new_weight_names weights,
     dict_get wrapped_name extra_options
     = Some (WrappedWeightedOption w original_option original_name new_weight_names) →
     normalized v = Ok weights →
     NoDup weights.*1
     ∧ ∀ label, label ∈ new_weight_names.*2 → KStr label ∉ weights.*1) →
  Context.rename_override real_name_to_wrapped extra_options
    (d1 ++ (KStr real_name, v) :: d2) (KStr real_name, v) = Ok gto' →
  ∃ item', gto' = d1 ++ d2 ++ [item']
           ∧ override_renamed real_name_to_wrapped extra_options (KStr real_name, v) item'.
Proof.
  intros Hget Hd1 Hnew Hfresh. unfold Context.rename_override.
  rewrite (str_dict_in_get _ _ _ Hget). simpl.
  assert (wrapped_name ∈ real_name_to_wrapped.*2) as Hrange
    by (apply dict_get_Some_elem in Hget; by apply (list_elem_of_fmap_2 snd) in Hget).
  fold (normalized v).
  destruct (normalized v) as [weights|e] eqn:Hnorm; [|done]. simpl.
  unfold dict_item. rewrite Hget. simpl.
  unfold dict_del, dict_in.
  rewrite bool_decide_eq_true_2 by (rewrite fmap_app; apply elem_of_app; right; left).
  simpl. rewrite dict_remove_middle by done.
  destruct (dict_get wrapped_name extra_options)
    as [[|?|w original_option original_name new_weight_names]|] eqn:Hextra; try done.
  simpl. destruct (Hfresh _ _ _ _ _ eq_refl eq_refl) as [Hnd Hnew_labels].
  rewrite (rename_weights_relabeled new_weight_names
             (Hlabels _ _ _ _ _ Hrange Hextra) _ Hnd Hnew_labels).
  simpl. intros [= <-].
  rewrite (dict_set_keys_fresh _ _ (d1 ++ d2)) by done.
  rewrite dict_set_snoc by done.
  eexists. split; [by rewrite <- app_assoc|].
  by exists real_name, wrapped_name, weights, w, original_option, original_name,
            new_weight_names.
Qed.

Lemma rename_overrides_from (p q renamed gto' : list (key * value)) :
  overrides_fresh real_name_to_wrapped extra_options (p ++ q) →
  Forall2 (override_renamed real_name_to_wrapped extra_options) (filter wrapped p) renamed →
  foldl (fun acc item =>
           game_trigger_options ← acc;
           Context.rename_override real_name_to_wrapped extra_options
                                   game_trigger_options item)
        (Ok (filter (fun item => ¬ wrapped item) p ++ q ++ renamed)) q = Ok gto' →
  ∃ renamed',
    gto' = filter (fun item => ¬ wrapped item) (p ++ q) ++ renamed'
    ∧ Forall2 (override_renamed real_name_to_wrapped extra_options)
              (filter wrapped (p ++ q)) renamed'.
Proof.
  revert p renamed. induction q as [|[k v] q IH]; intros p renamed Hwf Hren.
  - simpl. rewrite !app_nil_r. intros [= <-]. eauto.
  - destruct Hwf as (Hnd & Hnames & Hfresh).
    assert ((k ∉ p.*1) ∧ (k ∉ q.*1)) as [Hkp Hkq].
    { rewrite fmap_app, fmap_cons in Hnd. apply NoDup_app in Hnd as (_ & Hpq & Hq).
      apply NoDup_cons in Hq as [Hq _]. split; [|done].
      intros Hin. apply (Hpq _ Hin). left. }
    cbn [foldl].
    destruct (Ok (filter (fun item => ¬ wrapped item) p ++ ((k, v) :: q) ++ renamed)
                ≫= (fun game_trigger_options =>
                      Context.rename_override real_name_to_wrapped extra_options
                                              game_trigger_options (k, v)))
      as [gto1|e] eqn:Hstep; [|by rewrite foldl_Raise].
    cbn [mbind result_bind] in Hstep.
    rewrite (cons_middle (k, v) p q), (assoc_L (++) p [(k, v)] q) in Hnd, Hnames, Hfresh |- *.
    destruct (str_dict_in k real_name_to_wrapped) eqn:Hin.
    + destruct (str_dict_in_inv _ _ Hin) as (real_name & wrapped_name & -> & Hget).
      assert (wrapped_name ∈ real_name_to_wrapped.*2) as Hrange
        by (apply dict_get_Some_elem in Hget; by apply (list_elem_of_fmap_2 snd) in Hget).
      assert (KStr wrapped_name ∉ renamed.*1) as Hrenamed.
      { intros (item' & Hkey & Hitem')%list_elem_of_fmap.
        apply list_elem_of_lookup in Hitem' as [i Hi].
        destruct (Forall2_lookup_r _ _ _ _ _ Hren Hi) as ([k0 v0] & Hi0 & Hrel).
        destruct Hrel as (n0 & wn0 & ? & ? & ? & ? & ? & Hk0 & Hget0 & _ & _ & ->).
        simpl in Hkey, Hk0. injection Hkey as <-. subst k0.
        assert (real_name = n0) as <- by (eapply dict_get_inj; done).
        apply Hkp. apply (elem_of_keys _ v0).
        eapply list_elem_of_filter, list_elem_of_lookup_2, Hi0. }
      destruct (rename_override_wrapped
                  (filter (fun item => ¬ wrapped item) p) (q ++ renamed) gto1
                  real_name wrapped_name v Hget) as (item' & -> & Hitem'); [| | |exact Hstep|].
      * by intros Hk%filter_keys_subseteq.
      * specialize (Hnames _ Hrange). rewrite !fmap_app, !not_elem_of_app in Hnames |- *.
        destruct Hnames as [[Hp _] Hq]. split_and!; [|done|done].
        intros Hk%filter_keys_subseteq. done.
      * intros w oo on nwn weights Hextra Hnorm.
        apply (Hfresh real_name v wrapped_name w oo on nwn weights); [|done|done|done].
        rewrite !elem_of_app, list_elem_of_singleton. auto.
      * intros Hfold. rewrite <- app_assoc in Hfold.
        apply (IH (p ++ [(KStr real_name, v)]) (renamed ++ [item'])).
        -- done.
        -- rewrite filter_app, (filter_cons_True wrapped)
             by (unfold wrapped; cbn [fst]; rewrite Hin; simpl; tauto).
           apply Forall2_app; [done|]. rewrite filter_nil. by constructor.
        -- rewrite filter_app, (filter_cons_False _ (KStr real_name, v)), filter_nil,
             app_nil_r by (unfold wrapped; cbn [fst]; rewrite Hin; simpl; tauto).
           exact Hfold.
    + unfold Context.rename_override in Hstep. rewrite Hin in Hstep. simpl in Hstep.
      injection Hstep as <-. intros Hfold.
      apply (IH (p ++ [(k, v)]) renamed); [done| |].
      * by rewrite filter_app, (filter_cons_False wrapped), filter_nil, app_nil_r
          by (unfold wrapped; cbn [fst]; rewrite Hin; simpl; tauto).
      * rewrite filter_app, (filter_cons_True _ (k, v)), filter_nil
          by (unfold wrapped; cbn [fst]; rewrite Hin; simpl; tauto).
        by rewrite <- !app_assoc.
Qed.

Lemma rename_overrides_renamed (gto gto' : list (key * value)) :
  overrides_fresh real_name_to_wrapped extra_options gto →
  foldl (fun acc item =>
           game_trigger_options ← acc;
           Context.rename_override real_name_to_wrapped extra_options
                                   game_trigger_options item)
        (Ok gto) gto = Ok gto' →
  ∃ renamed,
    gto' = filter (fun item => ¬ wrapped item) gto ++ renamed
    ∧ Forall2 (override_renamed real_name_to_wrapped extra_options)
              (filter wrapped gto) renamed.
Proof.
  intros Hwf Hfold.
  apply (rename_overrides_from [] gto []); [done|constructor|].
  rewrite filter_nil. simpl. by rewrite app_nil_r.
Qed.
End rename_overrides.

Lemma key_of_value_KStr (v : value) (s : pystr) : key_of_value v = Ok (KStr s) → v = VStr s.
Proof.
  destruct v as [| | | |s'| | |ty text hashable]; simpl; try done.
  - by intros [= ->].
  - by destruct hashable.
Qed.

Lemma result_item_Ok (option_result : value) (new_weight_names : list (pystr * pystr))
    (wrapped_label : pystr) :
  Context.result_item option_result new_weight_names = Ok wrapped_label →
  ∃ label, option_result = VStr label ∧ dict_get label new_weight_names = Some wrapped_label.
Proof.
  unfold Context.result_item.
  intros (k & Hk & Hitem)%result_bind_Ok.
  destruct k as [| | | |label|]; try done.
  apply key_of_value_KStr in Hk. simpl in Hitem. unfold dict_item in Hitem.
  destruct (dict_get label new_weight_names) as [l|] eqn:Hget; [|done].
  injection Hitem as ->. eauto.
Qed.

(** What [rename_trigger] does to a trigger of the game's category that
    waits for a wrapped option. *)
Lemma rename_trigger_renamed (game_name : pystr)
    (real_name_to_wrapped : list (pystr * pystr))
    (extra_options : list (pystr * Option)) (trigger trigger' : Trigger)
    (wrapped_name : pystr) :
  NoDup real_name_to_wrapped.*2 →
  (∀ wrapped_name w original_option original_name new_weight_names,
     wrapped_name ∈ real_name_to_wrapped.*2 →
     dict_get wrapped_name extra_options
     = Some (WrappedWeightedOption w original_option original_name new_weight_names) →
     NoDup new_weight_names.*2) →
  Context.rename_trigger game_name real_name_to_wrapped extra_options trigger
  = Ok trigger' →
  Trigger.option_category trigger = game_name →
  dict_get (Trigger.option_name trigger) real_name_to_wrapped = Some wrapped_name →
  ∃ w original_option original_name new_weight_names label wrapped_label,
    dict_get wrapped_name extra_options
    = Some (WrappedWeightedOption w original_option original_name new_weight_names)
    ∧ Trigger.option_result trigger = VStr label
    ∧ dict_get label new_weight_names = Some wrapped_label
    ∧ Trigger.option_category trigger' = game_name
    ∧ Trigger.option_name trigger' = wrapped_name
    ∧ Trigger.option_result trigger' = VStr wrapped_label
    ∧ (∀ options game_trigger_options,
         Trigger.options trigger = VDict options →
         dict_get (KStr game_name) options = Some (VDict game_trigger_options) →
         overrides_fresh real_name_to_wrapped extra_options game_trigger_options →
         ∃ renamed,
           Trigger.options trigger'
           = VDict (dict_set (KStr game_name)
                      (VDict (filter (fun item =>
                                        ¬ str_dict_in item.1 real_name_to_wrapped)
                                     game_trigger_options ++ renamed))
                      options)
           ∧ Forall2 (override_renamed real_name_to_wrapped extra_options)
                     (filter (fun item => str_dict_in item.1 real_name_to_wrapped)
                             game_trigger_options)
                     renamed)
    ∧ (∀ options,
         Trigger.options trigger = VDict options →
         dict_get (KStr game_name) options = None →
         Trigger.options trigger' = Trigger.options trigger).
Proof.
  intros Hinj Hlabels Hrun Hcat Hget. unfold Context.rename_trigger in Hrun.
  rewrite bool_decide_eq_false_2 in Hrun by auto.
  assert (dict_in (Trigger.option_name trigger) real_name_to_wrapped = true) as Hin
    by (apply dict_in_spec, dict_get_is_Some; eauto).
  rewrite Hin in Hrun. simpl in Hrun. unfold dict_item in Hrun.
  rewrite Hget in Hrun. simpl in Hrun.
  destruct (dict_get wrapped_name extra_options)
    as [[|?|w original_option original_name new_weight_names]|] eqn:Hextra; try done.
  simpl in Hrun.
  destruct (Context.result_item _ _) as [wrapped_label|] eqn:Hresult; [|done].
  apply result_item_Ok in Hresult as (label & Hlabel & Hwrapped). simpl in Hrun.
  exists w, original_option, original_name, new_weight_names, label, wrapped_label.
  destruct (Trigger.options trigger) as [| | | | | |options|] eqn:Hoptions; try done.
  destruct (dict_get (KStr game_name) options) as [[| | | | | |gto|]|] eqn:Hgto; try done.
  - destruct (foldl _ _ gto) as [gto'|] eqn:Hfold; [|done]. simpl in Hrun.
    injection Hrun as <-. simpl. split_and!; try done.
    + intros options0 gto0 [= <-]. rewrite Hgto. intros [= <-] Hfresh.
      destruct (rename_overrides_renamed _ _ Hinj Hlabels _ _ Hfresh Hfold)
        as (renamed & -> & Hren).
      eauto.
    + intros options0 [= <-]. by rewrite Hgto.
  - injection Hrun as <-. simpl. split_and!; try done.
    intros options0 gto0 [= <-]. by rewrite Hgto.
Qed.

Lemma wrapping_label_names_snd (w : wrapping) :
  wrapping_ok w → (wrapping_label_names w).*2 = w_labels w.
Proof.
  intros [Hlen _]. unfold wrapping_label_names.
  apply snd_zip. rewrite length_fmap. lia.
Qed.

Lemma wrapping_label_names_fst (w : wrapping) :
  wrapping_ok w → (wrapping_label_names w).*1 = (weights_of (w_orig_option w)).*1.
Proof.
  intros [Hlen _]. unfold wrapping_label_names.
  apply fst_zip. rewrite length_fmap. lia.
Qed.

(** The wrappers [create_wrapper_options] stored, looked up by name. *)
Lemma create_wrapper_options_lookup (self self' : ContextExtra)
    (orig_options : list (pystr * Option)) (r r' : rng)
    (triggers : list Trigger) (real_to_wrapped : list (pystr * pystr))
    (wrapped_name : pystr) :
  options_wf orig_options →
  ContextExtra.create_wrapper_options self orig_options r
    = (Ok (triggers, real_to_wrapped, self'), r') →
  wrapped_name ∈ real_to_wrapped.*2 →
  ∃ w, wrapping_ok w ∧ w_name w = wrapped_name
       ∧ (w_orig_name w, w_orig_option w) ∈ orig_options
       ∧ isinstance_WeightedOption (w_orig_option w) = true
       ∧ dict_get (w_orig_name w) real_to_wrapped = Some wrapped_name
       ∧ dict_get wrapped_name (ContextExtra.options self') = Some (wrapping_option w).
Proof.
  intros Hwf Hrun Hin.
  destruct (create_wrapper_options_wrappings _ _ _ _ _ _ _ Hwf Hrun)
    as (ws & Hws & Hok & Hnd & Hfresh & _ & _ & Hopts & -> & _).
  rewrite <- list_fmap_compose in Hin.
  apply list_elem_of_fmap in Hin as (w & -> & Hw).
  assert ((w_orig_name w, w_orig_option w)
          ∈ filter (fun item => isinstance_WeightedOption item.2) orig_options) as Hin.
  { rewrite <- Hws.
    by apply (list_elem_of_fmap_2 (fun w => (w_orig_name w, w_orig_option w))). }
  apply list_elem_of_filter in Hin as [Hweighted Hin].
  assert (NoDup (w_orig_name <$> ws)) as Hnames.
  { assert (w_orig_name <$> ws
            = (filter (fun item => isinstance_WeightedOption item.2) orig_options).*1)
      as -> by (rewrite <- Hws, <- list_fmap_compose; done).
    apply filter_keys_NoDup, Hwf. }
  exists w. split_and!.
  - by apply (proj1 (Forall_forall _ _) Hok).
  - done.
  - done.
  - simpl in Hweighted. by destruct (isinstance_WeightedOption _).
  - by apply (dict_get_fmap_inj w_orig_name w_name).
  - rewrite Hopts, dict_get_app.
    rewrite (proj2 (dict_get_None _ _)) by auto.
    by apply (dict_get_fmap_inj w_name wrapping_option).
Qed.

Lemma overrides_fresh_check_sound (real_name_to_wrapped : list (pystr * pystr))
    (extra_options : list (pystr * Option)) (game_trigger_options : list (key * value)) :
  overrides_fresh_check real_name_to_wrapped extra_options game_trigger_options = true →
  overrides_fresh real_name_to_wrapped extra_options game_trigger_options.
Proof.
  unfold overrides_fresh_check.
  intros [[Hnd Hnames]%andb_prop Hitems]%andb_prop.
  apply bool_decide_eq_true in Hnd.
  rewrite forallb_forall in Hnames, Hitems. split_and!.
  - done.
  - intros wrapped_name Hin%list_elem_of_In%Hnames. by apply bool_decide_eq_true in Hin.
  - intros real_name v wrapped_name w oo on nwn weights Hin%list_elem_of_In%Hitems
           Hget Hextra Hnorm.
    simpl in Hin. rewrite Hget, Hextra, Hnorm in Hin.
    apply andb_prop in Hin as [Hnd' Hlabels]. apply bool_decide_eq_true in Hnd'.
    split; [done|]. rewrite forallb_forall in Hlabels.
    intros label Hlabel%list_elem_of_In%Hlabels. by apply bool_decide_eq_true in Hlabel.
Qed.

(** Overrides to which a generated name is not new: the wrapper of
    [mode] gets the name of twenty spaces, which is a key of the overrides
    already and names a wrapped option too; the override of [mode] is
    stored under that name, and deleted again when the entry of that name
    is renamed in its turn.  The trigger is left without an override
    under the name of the wrapper of [mode]. *)
Lemma override_lost_to_generated_name :
  ∃ self' r' game' trigger' overrides,
    Context.obfuscate_game (Context.new root_clash) (py "G") rng_spaces_first
    = (Ok self', r')
    ∧ Root.game_by_name (Context.root self') (py "G") = Ok game'
    ∧ Game.triggers game' !! 0%nat = Some trigger'
    ∧ Trigger.option_name trigger' = spaces20
    ∧ Trigger.options trigger' = VDict [(KStr (py "G"), VDict overrides)]
    ∧ (KStr spaces20 ∉ overrides.*1).
Proof.
  eexists _, _, _, _, _.
  split_and!; try (vm_compute; reflexivity).
  apply (bool_decide_eq_true_1 _). vm_compute. reflexivity.
Qed.

(** C4, amended.  On pass 0, a pre-existing trigger of the game, declared
    for the game ([option_category] is the game's name), whose
    [option_name] names an option that was just wrapped, is rewritten
    where it stands: its [option_result] was a label of that option, its
    [option_name] is now the wrapper's name and its [option_result] the
    wrapper label paired with the original one; in its overrides for the
    game, every entry whose key names a just-wrapped option is replaced
    by an entry under the wrapper's name, whose labels are renamed through
    the label pairing of that wrapper, after a bare label was made the
    mapping of that label to weight 1; the other entries stay.  This is
    for overrides that are a tree of their own, no mapping of them being
    shared with another entry, and to which the generated names are new,
    [overrides_fresh]: no wrapper name is a key of the overrides already,
    no wrapper label a label of the override it is set in. *)
Theorem obfuscate_game_rewrites_trigger (self self' : Context) (game_name : pystr)
    (r r' : rng) (game game' : Game) (extra extra' : ContextExtra)
    (wrapped_triggers : list Trigger) (real_name_to_wrapped : list (pystr * pystr))
    (i : nat) (trigger : Trigger) (wrapped_name : pystr) :
  Context.iteration self = 0 →
  Context.obfuscate_game self game_name r = (Ok self', r') →
  Root.game_by_name (Context.root self) game_name = Ok game →
  Root.game_by_name (Context.root self') game_name = Ok game' →
  dict_get game_name (Context.extra_games self) = Some extra →
  ContextExtra.create_wrapper_options extra
    (filter (fun item => isinstance_WeightedOption item.2) (Game.options game)) r
  = (Ok (wrapped_triggers, real_name_to_wrapped, extra'), r') →
  options_wf (Game.options game) →
  Game.triggers game !! i = Some trigger →
  Trigger.option_category trigger = game_name →
  dict_get (Trigger.option_name trigger) real_name_to_wrapped = Some wrapped_name →
  ∃ trigger' orig_option wrapped_weights new_weight_names label wrapped_label,
    Game.triggers game' !! i = Some trigger'
    ∧ (Trigger.option_name trigger, orig_option) ∈ Game.options game
    ∧ isinstance_WeightedOption orig_option = true
    ∧ dict_get wrapped_name (ContextExtra.options extra')
      = Some (WrappedWeightedOption wrapped_weights orig_option
                (Trigger.option_name trigger) new_weight_names)
    ∧ new_weight_names.*1 = (weights_of orig_option).*1
    ∧ new_weight_names.*2 = wrapped_weights.*1
    ∧ NoDup wrapped_weights.*1
    ∧ Trigger.option_result trigger = VStr label
    ∧ dict_get label new_weight_names = Some wrapped_label
    ∧ Trigger.option_category trigger' = game_name
    ∧ Trigger.option_name trigger' = wrapped_name
    ∧ Trigger.option_result trigger' = VStr wrapped_label
    ∧ (∀ options game_trigger_options,
         Trigger.options trigger = VDict options →
         dict_get (KStr game_name) options = Some (VDict game_trigger_options) →
         overrides_fresh real_name_to_wrapped (ContextExtra.options extra')
                         game_trigger_options →
         ∃ renamed,
           Trigger.options trigger'
           = VDict (dict_set (KStr game_name)
                      (VDict (filter (fun item =>
                                        ¬ str_dict_in item.1 real_name_to_wrapped)
                                     game_trigger_options ++ renamed))
                      options)
           ∧ Forall2 (override_renamed real_name_to_wrapped (ContextExtra.options extra'))
                     (filter (fun item => str_dict_in item.1 real_name_to_wrapped)
                             game_trigger_options)
                     renamed)
    ∧ (∀ options,
         Trigger.options trigger = VDict options →
         dict_get (KStr game_name) options = None →
         Trigger.options trigger' = Trigger.options trigger).
Proof.
  intros Hit Hrun Hgame Hgame' Hextra Hcreate Hwf Htrigger Hcat Hget.
  unfold Context.obfuscate_game in Hrun.
  rewrite bool_decide_eq_true_2 in Hrun by done.
  apply obfuscate_game_wrap_Ok in Hrun
    as (game0 & game0' & extra0 & extra0' & Hgame0 & Hextra0 & Hwrap & _ & Hgame0' & _).
  rewrite Hgame in Hgame0. injection Hgame0 as <-.
  rewrite Hgame' in Hgame0'. injection Hgame0' as <-.
  rewrite Hextra in Hextra0. injection Hextra0 as <-.
  assert (Game.name game = game_name) as Hname.
  { unfold Root.game_by_name in Hgame.
    destruct (list_find _ _) as [[j g]|] eqn:Hfind; [|done].
    injection Hgame as ->. by apply list_find_Some in Hfind as (_ & ? & _). }
  apply wrap_game_Ok in Hwrap as (wrapped0 & rtw0 & Hcreate0 & _ & _ & rewritten & Hmap & Htr).
  rewrite Hcreate in Hcreate0. injection Hcreate0 as <- <- <-.
  apply mapR_Forall2 in Hmap. rewrite Hname in Hmap.
  destruct (Forall2_lookup_l _ _ _ _ _ Hmap Htrigger) as (trigger' & Htrigger' & Hrename).
  pose proof (options_wf_filter (fun item => isinstance_WeightedOption item.2) _ Hwf)
    as Hwf'.
  destruct (wrapper_names_new_to_side_table _ _ _ _ _ _ _ Hwf' Hcreate)
    as (Hinj & _ & _).
  assert (wrapped_name ∈ real_name_to_wrapped.*2) as Hrange
    by (apply dict_get_Some_elem in Hget; by apply (list_elem_of_fmap_2 snd) in Hget).
  destruct (create_wrapper_options_lookup _ _ _ _ _ _ _ _ Hwf' Hcreate Hrange)
    as (w & Hok & Hwname & Hworig & Hweighted & Hwget & Hwextra).
  assert (w_orig_name w = Trigger.option_name trigger) as Horig
    by (eapply dict_get_inj; done).
  assert (∀ wn w1 oo1 on1 nwn1,
            wn ∈ real_name_to_wrapped.*2 →
            dict_get wn (ContextExtra.options extra')
            = Some (WrappedWeightedOption w1 oo1 on1 nwn1) →
            NoDup nwn1.*2) as Hlabels.
  { intros wn w1 oo1 on1 nwn1 Hwn Hwn_extra.
    destruct (create_wrapper_options_lookup _ _ _ _ _ _ _ _ Hwf' Hcreate Hwn)
      as (w2 & Hok2 & _ & _ & _ & _ & Hw2).
    rewrite Hwn_extra in Hw2. injection Hw2 as -> -> -> ->.
    rewrite wrapping_label_names_snd by done. apply Hok2. }
  destruct (rename_trigger_renamed game_name real_name_to_wrapped
              (ContextExtra.options extra') trigger trigger' wrapped_name
              Hinj Hlabels Hrename Hcat Hget)
    as (w0 & oo & on & nwn & label & wrapped_label
        & Hextra' & Hresult & Hlabel & Hcat' & Hname' & Hresult' & Hoverrides & Hnone).
  rewrite Hwextra in Hextra'. injection Hextra' as <- <- <- <-.
  exists trigger', (w_orig_option w), (zip (w_labels w) (weights_of (w_orig_option w)).*2),
         (wrapping_label_names w), label, wrapped_label.
  rewrite <- Horig. split_and!; try done.
  - rewrite Htr. by apply lookup_app_l_Some.
  - by apply list_elem_of_filter in Hworig as [_ ?].
  - by apply wrapping_label_names_fst.
  - rewrite wrapping_label_names_snd by done.
    destruct Hok as [Hlen _]. symmetry. apply fst_zip. rewrite length_fmap. lia.
  - destruct Hok as [Hlen Hnd]. rewrite fst_zip by (rewrite length_fmap; lia). done.
Qed.

(** What a run of [obfuscate_game] that returns went through. *)
Lemma obfuscate_game_Ok (self self' : Context) (game_name : pystr) (r r' : rng) :
  Context.obfuscate_game self game_name r = (Ok self', r') →
  ∃ game game' extra extra' wrapped_triggers real_name_to_wrapped,
    Root.game_by_name (Context.root self) game_name = Ok game
    ∧ Root.game_by_name (Context.root self') game_name = Ok game'
    ∧ dict_get game_name (Context.extra_games self) = Some extra
    ∧ ContextExtra.create_wrapper_options extra
        (filter (fun item => isinstance_WeightedOption item.2) (Game.options game)) r
      = (Ok (wrapped_triggers, real_name_to_wrapped, extra'), r').
Proof.
  unfold Context.obfuscate_game. intros Hrun.
  apply obfuscate_game_wrap_Ok in Hrun
    as (game & game' & extra & extra' & Hgame & Hextra & Hwrap & _ & Hgame' & _).
  apply wrap_game_Ok in Hwrap as (wrapped & rtw & Hcreate & _).
  by exists game, game', extra, extra', wrapped, rtw.
Qed.

Lemma obfuscate_game_rewrites_trigger_witness :
  ∃ self' r' game' trigger' renamed options,
    Context.obfuscate_game (Context.new root_modes) (py "G") rng_count = (Ok self', r')
    ∧ Root.game_by_name (Context.root self') (py "G") = Ok game'
    ∧ Game.triggers game' !! 0%nat = Some trigger'
    ∧ Trigger.option_category trigger' = py "G"
    ∧ length renamed = 2%nat
    ∧ Trigger.options trigger'
      = VDict (dict_set (KStr (py "G"))
                 (VDict ([(KStr (py "start_inventory"), VList [])] ++ renamed))
                 options).
Proof.
  assert (∃ self' r', Context.obfuscate_game (Context.new root_modes) (py "G") rng_count
                      = (Ok self', r')) as (self' & r' & Hrun)
    by (eexists _, _; vm_compute; reflexivity).
  destruct (obfuscate_game_Ok _ _ _ _ _ Hrun)
    as (game & game' & extra & extra' & wrapped & rtw & Hgame & Hgame' & Hextra & Hcreate).
  assert (game = game_modes) as -> by (injection Hgame as <-; reflexivity).
  assert (extra = ContextExtra.new (py "G")) as -> by (injection Hextra as <-; reflexivity).
  assert (options_wf (Game.options game_modes)) as Hwf by (split; compute_done).
  assert (∃ rtw0 options0,
            rtw = rtw0 ∧ ContextExtra.options extra' = options0
            ∧ is_Some (dict_get (py "mode") rtw0)
            ∧ ∀ gto, gto = [(KStr (py "speed"), VStr (py "fast"));
                            (KStr (py "start_inventory"), VList []);
                            (KStr (py "mode"),
                             VDict [(KStr (py "easy"), VInt 1);
                                    (KStr (py "other"), VInt 2)])] →
                     overrides_fresh_check rtw0 options0 gto = true
                     ∧ filter (fun item => ¬ str_dict_in item.1 rtw0) gto
                       = [(KStr (py "start_inventory"), VList [])]
                     ∧ length (filter (fun item => str_dict_in item.1 rtw0) gto) = 2%nat)
    as (rtw0 & options0 & -> & Hoptions0 & [wrapped_name Hget] & Hcheck).
  { pose proof Hcreate as Hc. vm_compute in Hc. injection Hc as _ <- <- _.
    eexists _, _. split; [reflexivity|]. split; [reflexivity|].
    split; [by eexists|]. intros gto ->. split_and!; vm_compute; reflexivity. }
  destruct (Hcheck _ eq_refl) as (Hfresh & Hkept & Hlen).
  apply overrides_fresh_check_sound in Hfresh. rewrite <- Hoptions0 in Hfresh.
  edestruct (obfuscate_game_rewrites_trigger (Context.new root_modes)
               _ _ _ _ _ _ _ _ _ _ 0%nat trigger_hard wrapped_name
               eq_refl Hrun Hgame Hgame' Hextra Hcreate Hwf)
    as (trigger' & oo & ww & nwn & label & wl & Htrigger' & _ & _ & _ & _ & _ & _ & _ & _
        & Hcat & _ & _ & Hoverrides & _).
  - reflexivity.
  - reflexivity.
  - exact Hget.
  - destruct (Hoverrides _ _ eq_refl eq_refl Hfresh) as (renamed & Hopts & Hren).
    apply Forall2_length in Hren. rewrite Hlen in Hren. rewrite Hkept in Hopts.
    eexists self', r', game', trigger', renamed, _.
    split; [exact Hrun|]. split; [exact Hgame'|]. split; [exact Htrigger'|].
    split; [exact Hcat|]. split; [by symmetry|]. exact Hopts.
Defined.

(** ** The engine over the store: what a run can change *)

Section keeps.
Import Store.
Context (base : loc).

Lemma same_below_refl (s : store) : same_below base s s.
Proof. by intros l _. Qed.

Lemma same_below_trans (s1 s2 s3 : store) :
  same_below base s1 s2 → same_below base s2 s3 → same_below base s1 s3.
Proof. intros H12 H23 l Hl. by rewrite H23, H12. Qed.

Lemma keeps_ret {A} (a : A) (post : A → Prop) : post a → keeps base (mret a) post.
Proof.
  intros Hpost s Hs. simpl. split_and!; [done|apply same_below_refl|].
  by intros a' [= <-].
Qed.

Lemma keeps_raise {A} (e : exn) (post : A → Prop) : keeps base (raise e) post.
Proof. intros s Hs. simpl. split_and!; [done|apply same_below_refl|done]. Qed.

Lemma keeps_lift {A} (r : result A) : keeps base (lift r) (fun a => r = Ok a).
Proof. intros s Hs. simpl. split_and!; [done|apply same_below_refl|done]. Qed.

Lemma keeps_weaken {A} (m : M store A) (pre post : A → Prop) :
  keeps base m pre → (∀ a, pre a → post a) → keeps base m post.
Proof.
  intros Hm Himp s Hs. destruct (Hm s Hs) as (? & ? & Hpre). split_and!; auto.
Qed.

Lemma keeps_bind {A B} (m : M store A) (f : A → M store B)
    (mid : A → Prop) (post : B → Prop) :
  keeps base m mid → (∀ a, mid a → keeps base (f a) post) →
  keeps base (m ≫= f) post.
Proof.
  intros Hm Hf s Hs. destruct (Hm s Hs) as (Hs1 & Hsame1 & Hmid).
  unfold mbind, M_bind. destruct (m s) as [[a|e] s1] eqn:Hrun; simpl in *.
  - destruct (Hf a (Hmid a eq_refl) s1 Hs1) as (Hs2 & Hsame2 & Hpost).
    split_and!; [done| |done]. by eapply same_below_trans.
  - split_and!; done.
Qed.

Lemma keeps_for {A St} (xs : list A) (body : St → A → M store St) (st : St)
    (inv : St → Prop) :
  inv st → (∀ st x, inv st → x ∈ xs → keeps base (body st x) inv) →
  keeps base (for_ xs body st) inv.
Proof.
  revert st. induction xs as [|x xs IH]; intros st Hinv Hbody; simpl.
  - by apply keeps_ret.
  - eapply keeps_bind; [apply Hbody; [done|left]|].
    intros st' Hinv'. apply IH; [done|]. intros st0 x0 ? ?. apply Hbody; [done|by right].
Qed.

Lemma keeps_with_random {A} (m : M rng A) : keeps base (with_random m) (fun _ => True).
Proof.
  intros s Hs. unfold with_random. destruct (m (random s)) as [a g]. simpl.
  split_and!; [apply Hs|by intros l _|done].
Qed.

Lemma keeps_alloc (c : cell) :
  cell_above base c → keeps base (alloc c) (fun l => (base ≤ l)%N).
Proof.
  intros Hc s (Hok & Hbase & Habove). unfold alloc. simpl. split_and!.
  - split_and!.
    + intros l c'. simpl. rewrite lookup_insert. case_decide; subst; [lia|].
      intros Hl%Hok. lia.
    + simpl. lia.
    + intros l c' Hl. simpl. rewrite lookup_insert. case_decide; subst.
      * by intros [= <-].
      * by apply Habove.
  - intros l Hl. simpl. rewrite lookup_insert_ne by lia. done.
  - by intros l [= <-].
Qed.

Lemma keeps_read (l : loc) :
  keeps base (read l) (fun c => (base ≤ l)%N → cell_above base c).
Proof.
  intros s Hs. unfold read. destruct (cells s !! l) as [c|] eqn:Hl; simpl.
  - split_and!; [done|apply same_below_refl|].
    intros c' [= <-] Hbase. by eapply Hs.
  - split_and!; [done|apply same_below_refl|done].
Qed.

Lemma keeps_write (l : loc) (c : cell) :
  (base ≤ l)%N → cell_above base c → keeps base (write l c) (fun _ => True).
Proof.
  intros Hl Hc s (Hok & Hbase & Habove). unfold write.
  destruct (cells s !! l) as [c0|] eqn:Hl0; simpl.
  - split_and!; [split_and!| |done].
    + intros l' c'. simpl. rewrite lookup_insert. case_decide; subst; eauto.
    + done.
    + intros l' c' Hl'. simpl. rewrite lookup_insert. case_decide; subst.
      * by intros [= <-].
      * by apply Habove.
    + intros l' Hl'. simpl. rewrite lookup_insert_ne by lia. done.
  - split_and!; [done|apply same_below_refl|done].
Qed.
End keeps.

Create HintDb keeps discriminated.

Section keeps_objects.
Import Store.
Context (base : loc).

Local Abbreviation items_above := (Store.items_above base).

Lemma items_above_set (k : key) (v : val) (items : list (key * val)) :
  val_above base v → items_above items → items_above (dict_set k v items).
Proof.
  intros Hv. induction 1 as [|[k' v'] items Hitem Hrest IH]; simpl.
  - constructor; [exact Hv|constructor].
  - case_decide; constructor; done.
Qed.

Lemma items_above_remove (k : key) (items : list (key * val)) :
  items_above items → items_above (dict_remove k items).
Proof.
  induction 1 as [|[k' v'] items Hitem Hrest IH]; simpl; [constructor|].
  case_decide; [done|by constructor].
Qed.

Lemma items_above_get (k : key) (v : val) (items : list (key * val)) :
  items_above items → dict_get k items = Some v → val_above base v.
Proof.
  intros Hall Hget%dict_get_Some_elem.
  by apply (proj1 (Forall_forall _ _) Hall (k, v)).
Qed.

Lemma keeps_key_of (x : val) : keeps base (key_of x) (fun _ => True).
Proof. destruct x; [by apply keeps_ret|apply keeps_raise]. Qed.

Lemma keeps_new_object (cls : class) (attrs : list (pystr * val)) :
  Forall (fun item : pystr * val => item.1 = py "orig_root" ∨ val_above base item.2) attrs →
  keeps base (new_object cls attrs) (val_above base).
Proof.
  intros Hattrs. eapply keeps_bind; [by apply keeps_alloc|].
  intros l Hl. by apply keeps_ret.
Qed.

Lemma keeps_new_dict (items : list (key * val)) :
  items_above items → keeps base (new_dict items) (val_above base).
Proof.
  intros Hitems. eapply keeps_bind; [by apply keeps_alloc|].
  intros l Hl. by apply keeps_ret.
Qed.

Lemma keeps_new_list (items : list val) :
  Forall (val_above base) items → keeps base (new_list items) (val_above base).
Proof.
  intros Hitems. eapply keeps_bind; [by apply keeps_alloc|].
  intros l Hl. by apply keeps_ret.
Qed.

Lemma keeps_getattr (x : val) (name : pystr) :
  val_above base x → name ≠ py "orig_root" →
  keeps base (getattr x name) (val_above base).
Proof.
  intros Hx Hname. destruct x as [k|l]; [apply keeps_raise|].
  eapply keeps_bind; [apply keeps_read|].
  intros [| |cls attrs|] Hc; try apply keeps_raise.
  destruct (dict_get name attrs) as [v|] eqn:Hget; [|apply keeps_raise].
  apply keeps_ret. apply dict_get_Some_elem in Hget.
  destruct (proj1 (Forall_forall _ _) (Hc Hx) _ Hget) as [?|?]; done.
Qed.

Lemma keeps_setattr (x : val) (name : pystr) (v : val) :
  val_above base x → name = py "orig_root" ∨ val_above base v →
  keeps base (setattr x name v) (fun _ => True).
Proof.
  intros Hx Hv. destruct x as [k|l]; [apply keeps_raise|].
  eapply keeps_bind; [apply keeps_read|].
  intros [| |cls attrs|] Hc; try apply keeps_raise.
  apply keeps_write; [done|]. specialize (Hc Hx). simpl in *.
  induction Hc as [|[n v'] attrs Hitem Hrest IH]; simpl.
  - constructor; [exact Hv|constructor].
  - case_decide; constructor; done.
Qed.

Lemma keeps_isinstance (x : val) (cls : class) :
  keeps base (isinstance x cls) (fun _ => True).
Proof.
  destruct x as [k|l]; [by apply keeps_ret|].
  eapply keeps_bind; [apply keeps_read|]. intros c _. by apply keeps_ret.
Qed.

Lemma keeps_is_dict (x : val) : keeps base (is_dict x) (fun _ => True).
Proof.
  destruct x as [k|l]; [by apply keeps_ret|].
  eapply keeps_bind; [apply keeps_read|]. intros c _. by apply keeps_ret.
Qed.

Lemma keeps_dict_items (d : val) :
  val_above base d → keeps base (dict_items d) items_above.
Proof.
  intros Hd. destruct d as [k|l]; [apply keeps_raise|].
  eapply keeps_bind; [apply keeps_read|].
  intros [|items| |] Hc; try apply keeps_raise. apply keeps_ret. by apply Hc.
Qed.

Lemma keeps_dict_keys (d : val) :
  val_above base d → keeps base (dict_keys d) (fun _ => True).
Proof.
  intros Hd. eapply keeps_bind; [by apply keeps_dict_items|].
  intros items _. by apply keeps_ret.
Qed.

Lemma keeps_subscript_items (d : val) :
  val_above base d →
  keeps base (subscript_items d) (fun p => (base ≤ p.1)%N ∧ items_above p.2).
Proof.
  intros Hd. destruct d as [k|l]; [apply keeps_raise|].
  eapply keeps_bind; [apply keeps_read|].
  intros [|items| |] Hc; try apply keeps_raise. apply keeps_ret. split; [done|by apply Hc].
Qed.

Lemma keeps_dict_getitem (d : val) (k : key) :
  val_above base d → keeps base (dict_getitem d k) (val_above base).
Proof.
  intros Hd. eapply keeps_bind; [by apply keeps_subscript_items|].
  intros [l items] [Hl Hitems]. simpl in *.
  eapply keeps_weaken; [apply keeps_lift|].
  intros v Hv. unfold dict_item in Hv.
  destruct (dict_get k items) as [v'|] eqn:Hget; [|done].
  injection Hv as ->. by eapply items_above_get.
Qed.

Lemma keeps_dict_setitem (d : val) (k : key) (v : val) :
  val_above base d → val_above base v →
  keeps base (dict_setitem d k v) (fun _ => True).
Proof.
  intros Hd Hv. eapply keeps_bind; [by apply keeps_subscript_items|].
  intros [l items] [Hl Hitems]. simpl in *.
  apply keeps_write; [done|]. by apply items_above_set.
Qed.

Lemma keeps_dict_delitem (d : val) (k : key) :
  val_above base d → keeps base (dict_delitem d k) (fun _ => True).
Proof.
  intros Hd. eapply keeps_bind; [by apply keeps_subscript_items|].
  intros [l items] [Hl Hitems]. simpl in *.
  eapply keeps_bind; [apply keeps_lift|].
  intros items' Hdel. unfold dict_del in Hdel.
  destruct (dict_in k items); [|done]. injection Hdel as <-.
  apply keeps_write; [done|]. by apply items_above_remove.
Qed.

Lemma keeps_list_items (xs : val) :
  val_above base xs → keeps base (list_items xs) (Forall (val_above base)).
Proof.
  intros Hxs. destruct xs as [k|l]; [apply keeps_raise|].
  eapply keeps_bind; [apply keeps_read|].
  intros [items| | |] Hc; try apply keeps_raise. apply keeps_ret. by apply Hc.
Qed.

Lemma keeps_method_list (xs : val) :
  val_above base xs →
  keeps base (method_list xs) (fun p => (base ≤ p.1)%N ∧ Forall (val_above base) p.2).
Proof.
  intros Hxs. destruct xs as [k|l]; [apply keeps_raise|].
  eapply keeps_bind; [apply keeps_read|].
  intros [items| | |] Hc; try apply keeps_raise. apply keeps_ret. split; [done|by apply Hc].
Qed.

Lemma keeps_list_extend (xs : val) (ys : list val) :
  val_above base xs → Forall (val_above base) ys →
  keeps base (list_extend xs ys) (fun _ => True).
Proof.
  intros Hxs Hys. eapply keeps_bind; [by apply keeps_method_list|].
  intros [l items] [Hl Hitems]. simpl in *.
  apply keeps_write; [done|]. by apply Forall_app.
Qed.

Lemma keeps_list_append (xs x : val) :
  val_above base xs → val_above base x →
  keeps base (list_append xs x) (fun _ => True).
Proof.
  intros Hxs Hx. eapply keeps_bind; [by apply keeps_method_list|].
  intros [l items] [Hl Hitems]. simpl in *.
  apply keeps_write; [done|]. apply Forall_app. split; [done|].
  constructor; [exact Hx|constructor].
Qed.

Lemma keeps_list_insert0 (xs x : val) :
  val_above base xs → val_above base x →
  keeps base (list_insert0 xs x) (fun _ => True).
Proof.
  intros Hxs Hx. eapply keeps_bind; [by apply keeps_method_list|].
  intros [l items] [Hl Hitems]. simpl in *.
  apply keeps_write; [done|]. by constructor.
Qed.
End keeps_objects.

#[global] Hint Resolve keeps_key_of keeps_isinstance keeps_is_dict keeps_with_random
  keeps_getattr keeps_setattr keeps_dict_items keeps_dict_keys keeps_dict_getitem
  keeps_dict_setitem keeps_dict_delitem keeps_list_items keeps_list_extend
  keeps_list_append keeps_list_insert0 keeps_new_dict keeps_new_list keeps_new_object
  keeps_lift keeps_raise : keeps.

(** The side conditions on the items of a new object. *)
Ltac solve_above :=
  unfold Store.items_above;
  repeat first
    [ apply List.Forall_nil
    | apply List.Forall_cons;
      [cbn [fst snd]; first [assumption | exact I | right; first [assumption | exact I]]|] ].

(** One statement of the program: the first computation of a sequence is
    a primitive, or the goal is a test. *)
Ltac keeps_step :=
  match goal with
  | |- Store.keeps _ (let '(_, _) := ?p in _) _ => destruct p
  | |- Store.keeps _ (mret _) _ => apply keeps_ret
  | |- Store.keeps _ (raise _) _ => apply keeps_raise
  | |- Store.keeps _ (if ?b then _ else _) _ => destruct b
  | |- Store.keeps _ (_ ≫= _) _ =>
      eapply keeps_bind;
      [first [ apply keeps_new_dict; solve [solve_above]
             | apply keeps_new_list; solve [solve_above]
             | apply keeps_new_object; solve [solve_above]
             | solve [eauto 6 with keeps; try discriminate] ]
      |intros ? ?]
  end.

Section keeps_engine.
Import Store.
Context (base : loc).

Lemma memo_above_insert (memo : gmap N N) (l l' : loc) :
  memo_above base memo → (base ≤ l')%N → memo_above base (<[l := l']> memo).
Proof. intros Hmemo Hl'. by apply map_Forall_insert_2. Qed.

(** [deepcopy] reads anything and writes to the copies only. *)
Lemma keeps_deepcopy (limit : nat) (x : val) (memo : gmap N N) :
  memo_above base memo →
  keeps base (deepcopy limit x memo)
        (fun p => val_above base p.1 ∧ memo_above base p.2).
Proof.
  revert x memo. induction limit as [|limit IH]; intros [k|l] memo Hmemo; cbn [deepcopy].
  - by apply keeps_ret.
  - destruct (memo !! l) as [l'|] eqn:Hl; [|apply keeps_raise].
    apply keeps_ret. split; [|done]. by apply (Hmemo l l').
  - by apply keeps_ret.
  - destruct (memo !! l) as [l'|] eqn:Hl.
    { apply keeps_ret. split; [|done]. by apply (Hmemo l l'). }
    eapply keeps_bind; [apply keeps_read|]. intros c _.
    destruct c as [items|items|cls attrs|tyname text].
    + eapply keeps_bind; [apply keeps_alloc; constructor|]. intros l' Hl'.
      eapply keeps_bind; [|intros memo' Hmemo'; by apply keeps_ret].
      apply keeps_for; [by apply memo_above_insert|].
      intros memo0 a Hmemo0 _.
      eapply keeps_bind; [by apply IH|]. intros [a' memo1] [Ha' Hmemo1]. cbn [fst snd] in *.
      eapply keeps_bind; [by apply keeps_list_append|]. intros _ _.
      by apply keeps_ret.
    + eapply keeps_bind; [apply keeps_alloc; constructor|]. intros l' Hl'.
      eapply keeps_bind; [|intros memo' Hmemo'; by apply keeps_ret].
      apply keeps_for; [by apply memo_above_insert|].
      intros memo0 a Hmemo0 _.
      eapply keeps_bind; [by apply IH|]. intros [a' memo1] [Ha' Hmemo1]. cbn [fst snd] in *.
      eapply keeps_bind; [by apply keeps_dict_setitem|]. intros _ _.
      by apply keeps_ret.
    + eapply keeps_bind; [apply keeps_alloc; constructor|]. intros l' Hl'.
      eapply keeps_bind; [|intros memo' Hmemo'; by apply keeps_ret].
      apply keeps_for; [by apply memo_above_insert|].
      intros memo0 a Hmemo0 _.
      eapply keeps_bind; [by apply IH|]. intros [a' memo1] [Ha' Hmemo1]. cbn [fst snd] in *.
      eapply keeps_bind; [apply keeps_setattr; [done|by right]|]. intros _ _.
      by apply keeps_ret.
    + eapply keeps_bind; [by apply keeps_alloc|]. intros l' Hl'.
      apply keeps_ret. split; [done|]. by apply memo_above_insert.
Qed.

Lemma keeps_new_ContextExtra (game_name : val) :
  val_above base game_name → keeps base (new_ContextExtra game_name) (val_above base).
Proof.
  intros Hname. unfold new_ContextExtra.
  eapply keeps_bind; [apply keeps_new_dict; constructor|]. intros options Hoptions.
  eapply keeps_bind; [apply keeps_new_list; constructor|]. intros triggers Htriggers.
  apply keeps_new_object. repeat (constructor; [by right|]). constructor.
Qed.

Lemma keeps_wrap (name : key) (option : val) :
  val_above base option → keeps base (wrap name option) (val_above base).
Proof.
  intros Hoption. unfold wrap. repeat keeps_step.
  eapply keeps_bind.
  { apply keeps_new_dict. unfold items_above. apply Forall_fmap, Forall_forall.
    by intros. }
  intros names Hnames. apply keeps_new_object.
  repeat (constructor; [by right|]). constructor.
Qed.

Lemma keeps_generate_option (self option : val) :
  val_above base self → val_above base option →
  keeps base (generate_option self option) (fun p => val_above base p.2).
Proof. intros Hself Hoption. unfold generate_option. by repeat keeps_step. Qed.

Lemma keeps_wrap_label (self wrapped_option : val) (wrapped_name : pystr)
    (orig_name : key) (st : gset pystr * list val) (item : key * val) :
  val_above base self → val_above base wrapped_option →
  val_above base item.2 → Forall (val_above base) st.2 →
  keeps base (wrap_label self wrapped_option wrapped_name orig_name st item)
        (fun st' => Forall (val_above base) st'.2).
Proof.
  intros Hself Hwrapped Hitem Hst. destruct st as [names triggers], item as [k v].
  unfold wrap_label. cbn [fst snd] in *. repeat keeps_step.
  apply Forall_app. split; [done|]. by constructor.
Qed.

Lemma keeps_wrap_option (self : val) (st : list (key * pystr) * list val)
    (item : key * val) :
  val_above base self → val_above base item.2 → Forall (val_above base) st.2 →
  keeps base (wrap_option self st item) (fun st' => Forall (val_above base) st'.2).
Proof.
  intros Hself Hitem Hst. destruct st as [rtw triggers], item as [k v].
  unfold wrap_option. cbn [fst snd] in *.
  keeps_step. keeps_step; [by apply keeps_ret|].
  eapply keeps_bind; [by apply keeps_wrap|]. intros wrapper Hwrapper.
  eapply keeps_bind; [by apply keeps_generate_option|].
  intros [wrapped_name wrapped_option] Hwrapped. cbn [fst snd] in *.
  do 8 keeps_step.
  eapply keeps_bind.
  { apply keeps_for with (inv := fun st' => Forall (val_above base) st'.2); [done|].
    intros st0 item0 Hst0 Hin. apply keeps_wrap_label; try done.
    by apply (proj1 (Forall_forall _ _) H7). }
  intros [names triggers'] Htriggers'. cbn [fst snd] in *.
  by repeat keeps_step.
Qed.

Lemma keeps_create_wrapper_options (self : val) (orig_options : list (key * val)) :
  val_above base self → items_above base orig_options →
  keeps base (create_wrapper_options self orig_options)
        (fun p => Forall (val_above base) p.1).
Proof.
  intros Hself Hitems. unfold create_wrapper_options.
  eapply keeps_bind.
  { apply keeps_for with (inv := fun st' => Forall (val_above base) st'.2);
      [constructor|].
    intros st item Hst Hin. apply keeps_wrap_option; try done.
    by apply (proj1 (Forall_forall _ _) Hitems). }
  intros [rtw triggers] Htriggers. by apply keeps_ret.
Qed.

Lemma keeps_game_by_name (self : val) (game_name : key) :
  val_above base self → keeps base (game_by_name self game_name) (val_above base).
Proof.
  intros Hself. unfold game_by_name. do 2 keeps_step.
  eapply keeps_bind.
  { apply keeps_for
      with (inv := fun found : option val => ∀ g, found = Some g → val_above base g);
      [done|].
    intros found game Hfound Hin. destruct found as [g|]; [by apply keeps_ret|].
    eapply keeps_bind.
    { apply keeps_getattr; [|done]. by apply (proj1 (Forall_forall _ _) H0). }
    intros name _. apply keeps_ret. destruct (eq_val _ _); [|done].
    intros g [= <-]. by apply (proj1 (Forall_forall _ _) H0). }
  intros [g|] Hfound; [|apply keeps_raise]. apply keeps_ret. by apply Hfound.
Qed.

Lemma keeps_rename_weight (weights new_weight_names : val) (u : unit) (item : key * val) :
  val_above base weights → val_above base new_weight_names → val_above base item.2 →
  keeps base (rename_weight weights new_weight_names u item) (fun _ => True).
Proof.
  intros Hweights Hnames Hitem. destruct item as [k v]. unfold rename_weight.
  cbn [fst snd] in *. keeps_step. case_bool_decide; [|by apply keeps_ret].
  do 3 keeps_step. by apply keeps_dict_setitem.
Qed.

Lemma keeps_as_mapping (weights : val) :
  val_above base weights → keeps base (as_mapping weights) (val_above base).
Proof.
  intros Hweights. unfold as_mapping. keeps_step. keeps_step; [|by apply keeps_ret].
  keeps_step. apply keeps_new_dict. solve_above.
Qed.

Lemma keeps_rename_override (extra_games game_trigger_options : val)
    (real_name_to_wrapped : list (key * pystr)) (u : unit) (item : key * val) :
  val_above base extra_games → val_above base game_trigger_options →
  val_above base item.2 →
  keeps base (rename_override extra_games game_trigger_options real_name_to_wrapped u item)
        (fun _ => True).
Proof.
  intros Hextra Hgto Hitem. destruct item as [k v]. unfold rename_override.
  cbn [fst snd] in *. keeps_step; [by apply keeps_ret|].
  eapply keeps_bind; [by apply keeps_as_mapping|]. intros weights Hweights.
  do 9 keeps_step.
  apply keeps_for; [done|]. intros [] item Hu Hin.
  apply keeps_rename_weight; try done.
  by apply (proj1 (Forall_forall _ _) H7).
Qed.

Lemma keeps_rename_trigger (extra_games : val) (game_name : key)
    (real_name_to_wrapped : list (key * pystr)) (u : unit) (trigger : val) :
  val_above base extra_games → val_above base trigger →
  keeps base (rename_trigger extra_games game_name real_name_to_wrapped u trigger)
        (fun _ => True).
Proof.
  intros Hextra Htrigger. unfold rename_trigger.
  keeps_step. keeps_step; [by apply keeps_ret|].
  do 2 keeps_step. keeps_step; [by apply keeps_ret|].
  do 13 keeps_step.
  eapply keeps_bind.
  { instantiate (1 := val_above base).
    destruct (dict_get game_name a14) as [d|] eqn:Hget.
    - apply keeps_ret. by eapply items_above_get.
    - apply keeps_new_dict. constructor. }
  intros gto Hgto. eapply keeps_bind; [by apply keeps_dict_items|].
  intros items Hitems.
  apply keeps_for; [done|]. intros [] item Hu Hin.
  apply keeps_rename_override; try done.
  by apply (proj1 (Forall_forall _ _) Hitems).
Qed.

Lemma keeps_replace_option (game extra_games : val) (u : unit) (item : key * pystr) :
  val_above base game → val_above base extra_games →
  keeps base (replace_option game extra_games u item) (fun _ => True).
Proof.
  intros Hgame Hextra. destruct item as [real_name wrapped_name].
  unfold replace_option. do 5 keeps_step. by apply keeps_dict_setitem.
Qed.

Lemma keeps_list_extend_beginning (base_list : val) (prepend_with : list val) :
  val_above base base_list → Forall (val_above base) prepend_with →
  keeps base (list_extend_beginning base_list prepend_with) (fun _ => True).
Proof.
  intros Hlist Hitems. unfold list_extend_beginning.
  eapply keeps_bind; [|intros; by apply keeps_ret].
  apply keeps_for with (inv := fun _ => True); [done|].
  intros [] x _ Hin. rewrite elem_of_reverse in Hin.
  apply keeps_list_insert0; [done|]. by apply (proj1 (Forall_forall _ _) Hitems).
Qed.

Lemma keeps_weighted_options (items : list (key * val)) :
  items_above base items → keeps base (weighted_options items) (items_above base).
Proof.
  intros Hitems. unfold weighted_options.
  apply keeps_for; [constructor|]. intros kept item Hkept Hin.
  keeps_step. apply keeps_ret. destruct (negb a); [done|].
  apply items_above_set; [|done]. by apply (proj1 (Forall_forall _ _) Hitems).
Qed.

Lemma keeps_obfuscate_game_wrap (self : val) (game_name : key) (first_time : bool) :
  val_above base self →
  keeps base (obfuscate_game_wrap self game_name first_time) (fun _ => True).
Proof.
  intros Hself. unfold obfuscate_game_wrap. keeps_step.
  eapply keeps_bind; [by apply keeps_game_by_name|]. intros game Hgame.
  do 4 keeps_step.
  eapply keeps_bind; [by apply keeps_weighted_options|]. intros orig_options Horig.
  eapply keeps_bind; [by apply keeps_create_wrapper_options|].
  intros [wrapped_triggers rtw] Hwrapped. cbn [fst snd] in *.
  eapply keeps_bind.
  { apply keeps_for with (inv := fun _ => True); [done|].
    intros [] item _ _. by apply keeps_replace_option. }
  intros _ _. destruct first_time.
  - do 2 keeps_step.
    eapply keeps_bind.
    { apply keeps_for with (inv := fun _ => True); [done|].
      intros [] trigger _ Hin. apply keeps_rename_trigger; [done|].
      by apply (proj1 (Forall_forall _ _) H5). }
    intros _ _. keeps_step. by apply keeps_list_extend.
  - keeps_step.
    eapply keeps_bind; [by apply keeps_list_extend_beginning|].
    intros _ _. by apply keeps_ret.
Qed.

Lemma keeps_obfuscate_game (self : val) (game_name : key) :
  val_above base self → keeps base (obfuscate_game self game_name) (fun _ => True).
Proof.
  intros Hself. unfold obfuscate_game. keeps_step. by apply keeps_obfuscate_game_wrap.
Qed.

Lemma keeps_obfuscate (self : val) :
  val_above base self → keeps base (obfuscate self) (fun _ => True).
Proof.
  intros Hself. unfold obfuscate. do 2 keeps_step.
  eapply keeps_bind.
  { apply keeps_for with (inv := fun _ => True); [done|].
    intros [] game_name _ _. by apply keeps_obfuscate_game. }
  intros _ _. keeps_step.
  destruct a1 as [[| |z| | |]|]; try apply keeps_raise.
  apply keeps_setattr; [done|by right].
Qed.

(** [Context(root)] for any [root]: the original is read, never written. *)
Lemma keeps_Context_init (limit : nat) (self root : val) :
  val_above base self → keeps base (Context_init limit self root) (fun _ => True).
Proof.
  intros Hself. unfold Context_init.
  eapply keeps_bind; [apply keeps_setattr; [done|by left]|]. intros _ _.
  eapply keeps_bind; [apply keeps_deepcopy; apply map_Forall_empty|].
  intros [copy memo] [Hcopy _]. cbn [fst snd] in *.
  keeps_step.
  eapply keeps_bind; [apply keeps_setattr; [done|by right]|]. intros _ _.
  eapply keeps_bind; [by apply keeps_new_ContextExtra|]. intros extra_root Hextra_root.
  do 6 keeps_step.
  eapply keeps_bind; [by apply keeps_list_items|]. intros games Hgames.
  apply keeps_for with (inv := fun _ => True); [done|].
  intros [] game _ Hin.
  assert (val_above base game) as Hgame by (by apply (proj1 (Forall_forall _ _) Hgames)).
  keeps_step.
  eapply keeps_bind; [by apply keeps_new_ContextExtra|]. intros extra Hextra.
  do 3 keeps_step. by apply keeps_dict_setitem.
Qed.

Lemma keeps_new_Context (limit : nat) (root : val) :
  keeps base (new_Context limit root) (val_above base).
Proof.
  unfold new_Context.
  eapply keeps_bind; [apply keeps_new_object; constructor|]. intros self Hself.
  eapply keeps_bind; [by apply keeps_Context_init|]. intros _ _. by apply keeps_ret.
Qed.

Lemma keeps_run (limit n : nat) (root : val) :
  keeps base (run limit n root) (val_above base).
Proof.
  unfold run.
  eapply keeps_bind; [apply keeps_new_Context|]. intros context Hcontext.
  eapply keeps_bind; [|intros; by apply keeps_ret].
  apply keeps_for with (inv := fun _ => True); [done|].
  intros [] ? _ _. by apply keeps_obfuscate.
Qed.
End keeps_engine.
(** ** The engine over the store: the reference to the original *)

Section preserves.
Import Store.
Context (inv : store → Prop).

Lemma preserves_ret {A} (a : A) : preserves inv (mret a).
Proof. by intros s Hs. Qed.

Lemma preserves_raise {A} (e : exn) : preserves inv (raise e : M store A).
Proof. by intros s Hs. Qed.

Lemma preserves_lift {A} (r : result A) : preserves inv (lift r).
Proof. by intros s Hs. Qed.

Lemma preserves_bind {A B} (m : M store A) (f : A → M store B) :
  preserves inv m → (∀ a, preserves inv (f a)) → preserves inv (m ≫= f).
Proof.
  intros Hm Hf s Hs. specialize (Hm s Hs). unfold mbind, M_bind.
  destruct (m s) as [[a|e] s1]; simpl in *; [by apply Hf|done].
Qed.

Lemma preserves_for {A St} (xs : list A) (body : St → A → M store St) (st : St) :
  (∀ st x, preserves inv (body st x)) → preserves inv (for_ xs body st).
Proof.
  intros Hbody. revert st. induction xs as [|x xs IH]; intros st; simpl.
  - apply preserves_ret.
  - apply preserves_bind; [apply Hbody|apply IH].
Qed.

Lemma preserves_read (l : loc) : preserves inv (read l).
Proof. intros s Hs. unfold read. by destruct (cells s !! l). Qed.
End preserves.

Create HintDb preserves discriminated.

Section orig_kept.
Import Store.
Context (base : loc) (root : val).

Local Abbreviation inv := (orig_kept base root).

Lemma preserves_with_random {A} (m : M rng A) : preserves inv (with_random m).
Proof. intros s Hs. unfold with_random. by destruct (m (random s)). Qed.

(** A new object is past [base]. *)
Lemma preserves_alloc_bind {A} (c : cell) (f : loc → M store A) :
  (∀ l, (base < l)%N → preserves inv (f l)) → preserves inv (alloc c ≫= f).
Proof.
  intros Hf s [Hnext (cls & attrs & Hcell & Hattr)].
  unfold mbind, M_bind, alloc. apply Hf; [done|]. split; simpl; [lia|].
  exists cls, attrs. by rewrite lookup_insert_ne by lia.
Qed.

(** Writing another object, or an instance whose [orig_root] is [root]. *)
Lemma preserves_write (l : loc) (c : cell) :
  l ≠ base ∨ (∃ cls attrs, c = CObject cls attrs
                           ∧ dict_get (py "orig_root") attrs = Some root) →
  preserves inv (write l c).
Proof.
  intros Hc s [Hnext (cls & attrs & Hcell & Hattr)]. unfold write.
  destruct (cells s !! l) as [c0|] eqn:Hl; simpl; [|by split; eauto].
  split; simpl; [done|]. destruct (decide (l = base)) as [->|Hne].
  - destruct Hc as [?|(cls' & attrs' & -> & Hattr')]; [done|].
    exists cls', attrs'. by rewrite lookup_insert_eq.
  - exists cls, attrs. by rewrite lookup_insert_ne.
Qed.

(** What is read at [base] is the instance. *)
Lemma preserves_read_bind {A} (l : loc) (f : cell → M store A) :
  (∀ c, (l = base → ∃ cls attrs, c = CObject cls attrs
                                 ∧ dict_get (py "orig_root") attrs = Some root) →
        preserves inv (f c)) →
  preserves inv (read l ≫= f).
Proof.
  intros Hf s Hs. unfold mbind, M_bind, read.
  destruct (cells s !! l) as [c|] eqn:Hl; simpl; [|done].
  apply Hf; [|done]. intros ->. destruct Hs as [_ (cls & attrs & Hcell & Hattr)].
  exists cls, attrs. split; congruence.
Qed.

Lemma preserves_new_object (cls : class) (attrs : list (pystr * val)) :
  preserves inv (new_object cls attrs).
Proof. apply preserves_alloc_bind. intros. apply preserves_ret. Qed.

Lemma preserves_new_dict (items : list (key * val)) : preserves inv (new_dict items).
Proof. apply preserves_alloc_bind. intros. apply preserves_ret. Qed.

Lemma preserves_new_list (items : list val) : preserves inv (new_list items).
Proof. apply preserves_alloc_bind. intros. apply preserves_ret. Qed.

Lemma preserves_setattr_at (l : loc) (name : pystr) (v : val) :
  l ≠ base ∨ name ≠ py "orig_root" → preserves inv (setattr (Ref l) name v).
Proof.
  intros Hname. apply preserves_read_bind. intros [| |cls attrs|] Hc;
    try apply preserves_raise.
  apply preserves_write. destruct (decide (l = base)) as [Hl|Hl]; [right|by left].
  destruct Hname as [?|Hname]; [done|].
  destruct (Hc Hl) as (cls' & attrs' & [= -> ->] & Hattr).
  eexists _, _. split; [done|]. rewrite dict_get_set. by rewrite decide_False.
Qed.

Lemma preserves_setattr (x : val) (name : pystr) (v : val) :
  name ≠ py "orig_root" → preserves inv (setattr x name v).
Proof.
  intros Hname. destruct x as [k|l]; [apply preserves_raise|].
  apply preserves_setattr_at. by right.
Qed.

(** A dict or a list that is written is not the instance at [base]. *)
Lemma preserves_subscript_items_bind {A} (d : val)
    (f : loc * list (key * val) → M store A) :
  (∀ l items, l ≠ base → preserves inv (f (l, items))) →
  preserves inv (subscript_items d ≫= f).
Proof.
  intros Hf. destruct d as [k|l]; [by intros s Hs|].
  intros s Hs. unfold subscript_items, mbind, M_bind, read.
  destruct (cells s !! l) as [[| items | |]|] eqn:Hl; simpl; try done.
  apply Hf; [|done]. intros ->. destruct Hs as [_ (cls & attrs & Hcell & _)]. congruence.
Qed.

Lemma preserves_method_list_bind {A} (xs : val) (f : loc * list val → M store A) :
  (∀ l items, l ≠ base → preserves inv (f (l, items))) →
  preserves inv (method_list xs ≫= f).
Proof.
  intros Hf. destruct xs as [k|l]; [by intros s Hs|].
  intros s Hs. unfold method_list, mbind, M_bind, read.
  destruct (cells s !! l) as [[items | | |]|] eqn:Hl; simpl; try done.
  apply Hf; [|done]. intros ->. destruct Hs as [_ (cls & attrs & Hcell & _)]. congruence.
Qed.

Lemma preserves_dict_setitem (d : val) (k : key) (v : val) :
  preserves inv (dict_setitem d k v).
Proof.
  apply preserves_subscript_items_bind. intros l items Hl.
  apply preserves_write. by left.
Qed.

Lemma preserves_dict_delitem (d : val) (k : key) : preserves inv (dict_delitem d k).
Proof.
  apply preserves_subscript_items_bind. intros l items Hl.
  apply preserves_bind; [apply preserves_lift|]. intros items'.
  apply preserves_write. by left.
Qed.

Lemma preserves_list_append (xs x : val) : preserves inv (list_append xs x).
Proof.
  apply preserves_method_list_bind. intros l items Hl. apply preserves_write. by left.
Qed.

Lemma preserves_list_insert0 (xs x : val) : preserves inv (list_insert0 xs x).
Proof.
  apply preserves_method_list_bind. intros l items Hl. apply preserves_write. by left.
Qed.

Lemma preserves_list_extend (xs : val) (ys : list val) : preserves inv (list_extend xs ys).
Proof.
  apply preserves_method_list_bind. intros l items Hl. apply preserves_write. by left.
Qed.
End orig_kept.

#[global] Hint Resolve preserves_ret preserves_raise preserves_lift preserves_read
  preserves_with_random preserves_new_object preserves_new_dict preserves_new_list
  preserves_dict_setitem preserves_dict_delitem preserves_list_append
  preserves_list_insert0 preserves_list_extend : preserves.

(** The computations that are built from the ones above. *)
Ltac preserves_all :=
  repeat match goal with
  | |- Store.preserves _ (_ ≫= _) => apply preserves_bind; [|intros]
  | |- Store.preserves _ (for_ _ _ _) => apply preserves_for; intros
  | |- Store.preserves _ (Store.setattr _ _ _) => apply preserves_setattr; discriminate
  | |- Store.preserves _ (let '(_, _) := ?p in _) => destruct p
  | |- Store.preserves _ (if ?b then _ else _) => destruct b
  | |- Store.preserves _ (match ?x with _ => _ end) => destruct x
  | |- Store.preserves _ _ => solve [eauto with preserves]
  end.

Section orig_kept_engine.
Import Store.
Context (base : loc) (root : val).

Local Abbreviation inv := (orig_kept base root).

Lemma preserves_key_of (x : val) : preserves inv (key_of x).
Proof. unfold key_of. preserves_all. Qed.

Lemma preserves_getattr (x : val) (name : pystr) : preserves inv (getattr x name).
Proof. unfold getattr. preserves_all. Qed.

Lemma preserves_isinstance (x : val) (cls : class) : preserves inv (isinstance x cls).
Proof. unfold isinstance. preserves_all. Qed.

Lemma preserves_is_dict (x : val) : preserves inv (is_dict x).
Proof. unfold is_dict. preserves_all. Qed.

Lemma preserves_dict_items (d : val) : preserves inv (dict_items d).
Proof. unfold dict_items. preserves_all. Qed.

Lemma preserves_dict_keys (d : val) : preserves inv (dict_keys d).
Proof. unfold dict_keys. preserves_all. apply preserves_dict_items. Qed.

Lemma preserves_subscript_items (d : val) : preserves inv (subscript_items d).
Proof. unfold subscript_items. preserves_all. Qed.

Lemma preserves_dict_getitem (d : val) (k : key) : preserves inv (dict_getitem d k).
Proof. unfold dict_getitem. preserves_all. apply preserves_subscript_items. Qed.

Lemma preserves_list_items (xs : val) : preserves inv (list_items xs).
Proof. unfold list_items. preserves_all. Qed.

#[local] Hint Resolve preserves_key_of preserves_getattr preserves_isinstance
  preserves_is_dict preserves_dict_items preserves_dict_keys preserves_dict_getitem
  preserves_list_items : preserves.

(** The copies are new objects: filling them leaves the instance at
    [base] as it is, also when what is copied has an attribute
    [orig_root] of its own. *)
Lemma preserves_deepcopy (limit : nat) (x : val) (memo : gmap N N) :
  preserves inv (deepcopy limit x memo).
Proof.
  revert x memo. induction limit as [|limit IH]; intros [k|l] memo; cbn [deepcopy];
    try apply preserves_ret.
  - destruct (memo !! l); [apply preserves_ret|apply preserves_raise].
  - destruct (memo !! l); [apply preserves_ret|].
    apply preserves_bind; [apply preserves_read|].
    intros [items|items|cls attrs|tyname text];
      apply preserves_alloc_bind; intros l' Hl'.
    + preserves_all.
    + preserves_all.
    + apply preserves_bind; [|intros; apply preserves_ret].
      apply preserves_for. intros memo' item.
      apply preserves_bind; [apply IH|]. intros [v' memo''].
      apply preserves_bind; [|intros; apply preserves_ret].
      apply preserves_setattr_at. left. lia.
    + apply preserves_ret.
Qed.

Lemma preserves_new_ContextExtra (game_name : val) :
  preserves inv (new_ContextExtra game_name).
Proof. unfold new_ContextExtra. preserves_all. Qed.

Lemma preserves_wrap (name : key) (option : val) : preserves inv (wrap name option).
Proof. unfold wrap. preserves_all. Qed.

Lemma preserves_generate_option (self option : val) :
  preserves inv (generate_option self option).
Proof. unfold generate_option. preserves_all. Qed.

#[local] Hint Resolve preserves_new_ContextExtra preserves_wrap
  preserves_generate_option : preserves.

Lemma preserves_wrap_label (self wrapped_option : val) (wrapped_name : pystr)
    (orig_name : key) (st : gset pystr * list val) (item : key * val) :
  preserves inv (wrap_label self wrapped_option wrapped_name orig_name st item).
Proof. unfold wrap_label. preserves_all. Qed.

#[local] Hint Resolve preserves_wrap_label : preserves.

Lemma preserves_wrap_option (self : val) (st : list (key * pystr) * list val)
    (item : key * val) :
  preserves inv (wrap_option self st item).
Proof. unfold wrap_option. preserves_all. Qed.

#[local] Hint Resolve preserves_wrap_option : preserves.

Lemma preserves_create_wrapper_options (self : val) (orig_options : list (key * val)) :
  preserves inv (create_wrapper_options self orig_options).
Proof. unfold create_wrapper_options. preserves_all. Qed.

Lemma preserves_game_by_name (self : val) (game_name : key) :
  preserves inv (game_by_name self game_name).
Proof. unfold game_by_name. preserves_all. Qed.

Lemma preserves_rename_weight (weights new_weight_names : val) (u : unit)
    (item : key * val) :
  preserves inv (rename_weight weights new_weight_names u item).
Proof. unfold rename_weight. preserves_all. Qed.

Lemma preserves_as_mapping (weights : val) : preserves inv (as_mapping weights).
Proof. unfold as_mapping. preserves_all. Qed.

#[local] Hint Resolve preserves_create_wrapper_options preserves_game_by_name
  preserves_rename_weight preserves_as_mapping : preserves.

Lemma preserves_rename_override (extra_games game_trigger_options : val)
    (real_name_to_wrapped : list (key * pystr)) (u : unit) (item : key * val) :
  preserves inv
    (rename_override extra_games game_trigger_options real_name_to_wrapped u item).
Proof. unfold rename_override. preserves_all. Qed.

#[local] Hint Resolve preserves_rename_override : preserves.

Lemma preserves_rename_trigger (extra_games : val) (game_name : key)
    (real_name_to_wrapped : list (key * pystr)) (u : unit) (trigger : val) :
  preserves inv (rename_trigger extra_games game_name real_name_to_wrapped u trigger).
Proof. unfold rename_trigger. preserves_all. Qed.

Lemma preserves_replace_option (game extra_games : val) (u : unit)
    (item : key * pystr) :
  preserves inv (replace_option game extra_games u item).
Proof. unfold replace_option. preserves_all. Qed.

Lemma preserves_list_extend_beginning (base_list : val) (prepend_with : list val) :
  preserves inv (list_extend_beginning base_list prepend_with).
Proof. unfold list_extend_beginning. preserves_all. Qed.

Lemma preserves_weighted_options (items : list (key * val)) :
  preserves inv (weighted_options items).
Proof. unfold weighted_options. preserves_all. Qed.

#[local] Hint Resolve preserves_rename_trigger preserves_replace_option
  preserves_list_extend_beginning preserves_weighted_options : preserves.

Lemma preserves_obfuscate_game_wrap (self : val) (game_name : key) (first_time : bool) :
  preserves inv (obfuscate_game_wrap self game_name first_time).
Proof. unfold obfuscate_game_wrap. preserves_all. Qed.

#[local] Hint Resolve preserves_obfuscate_game_wrap : preserves.

Lemma preserves_obfuscate (self : val) : preserves inv (obfuscate self).
Proof. unfold obfuscate, obfuscate_game. preserves_all. Qed.
End orig_kept_engine.

(** ** What a run leaves of the original *)

Section run.
Import Store.

Lemma preserves_after {A B} (inv : store → Prop) (m : M store A) (f : A → M store B)
    (s : store) :
  inv (m s).2 → (∀ a, preserves inv (f a)) → inv ((m ≫= f) s).2.
Proof.
  intros Hs Hf. unfold mbind, M_bind.
  destruct (m s) as [[a|e] s1]; simpl in *; [by apply Hf|done].
Qed.

Lemma store_ok_above (s : store) : store_ok s → store_above (next s) s.
Proof.
  intros Hok. split_and!; [done|lia|].
  intros l c Hl Hc%Hok. lia.
Qed.

Lemma store_ok_check_sound (s : store) : store_ok_check s = true → store_ok s.
Proof.
  unfold store_ok_check. rewrite bool_decide_eq_true.
  intros Hall l c Hl. by apply (Hall l c).
Qed.

(** [__init__] sets [orig_root], and nothing after it in a run does. *)
Lemma Context_init_orig_kept (limit : nat) (base : loc) (root : val) (s : store)
    (cls : class) (attrs : list (pystr * val)) :
  (base < next s)%N → cells s !! base = Some (CObject cls attrs) →
  orig_kept base root (Context_init limit (Ref base) root s).2.
Proof.
  intros Hnext Hcell. unfold Context_init. apply preserves_after.
  - unfold setattr, mbind, M_bind, read, write. rewrite Hcell. simpl. rewrite Hcell. simpl.
    split; [done|]. cbn [cells]. eexists _, _. rewrite lookup_insert_eq. split; [done|].
    rewrite dict_get_set. by rewrite decide_True.
  - intros _. preserves_all; auto using preserves_deepcopy, preserves_getattr,
      preserves_list_items, preserves_new_ContextExtra, preserves_key_of.
Qed.

Lemma new_Context_orig_kept (limit : nat) (root : val) (s : store) :
  store_ok s → orig_kept (next s) root (new_Context limit root s).2.
Proof.
  intros Hok. unfold new_Context.
  rewrite (bind_eq (new_object cContext []) _ s (Ref (next s)) _ eq_refl).
  apply preserves_after; [|intros; apply preserves_ret].
  eapply Context_init_orig_kept; simpl; [lia|]. by rewrite lookup_insert_eq.
Qed.

Lemma new_Context_Ok (limit : nat) (root context : val) (s s' : store) :
  new_Context limit root s = (Ok context, s') → context = Ref (next s).
Proof.
  unfold new_Context. intros Hrun.
  apply bind_Ok in Hrun as (self & s1 & Hself & Hrun).
  apply bind_Ok in Hrun as (u & s2 & _ & Hrun).
  apply ret_Ok in Hrun as [<- _]. by injection Hself as <- _.
Qed.

Lemma run_orig_kept (limit n : nat) (root : val) (s : store) :
  store_ok s → orig_kept (next s) root (run limit n root s).2.
Proof.
  intros Hok. unfold run. apply preserves_after; [by apply new_Context_orig_kept|].
  intros context. preserves_all; auto using preserves_obfuscate.
Qed.

Lemma run_Ok (limit n : nat) (root context : val) (s s' : store) :
  run limit n root s = (Ok context, s') → context = Ref (next s).
Proof.
  unfold run. intros Hrun.
  apply bind_Ok in Hrun as (self & s1 & Hself%new_Context_Ok & Hrun).
  apply bind_Ok in Hrun as (u & s2 & _ & Hrun).
  by apply ret_Ok in Hrun as [<- _].
Qed.
End run.

(** C9. A run of the engine, [Context(root)] and then any number of
    passes, changes none of the objects that exist before it: every
    object of the store, so the whole tree of the original root, is after
    the run what it was before.  The context that the run returns still
    refers to that root as its [orig_root].  This holds for every root
    and store, whether the run returns or raises. *)
Theorem run_keeps_original (limit n : nat) (root : Store.val) (s : Store.store) :
  Store.store_ok s →
  (∀ l c, Store.cells s !! l = Some c →
          Store.cells (Store.run limit n root s).2 !! l = Some c)
  ∧ (∀ context, (Store.run limit n root s).1 = Ok context →
       Store.getattr context (py "orig_root") (Store.run limit n root s).2
       = (Ok root, (Store.run limit n root s).2)).
Proof.
  intros Hok. split.
  - intros l c Hl.
    destruct (keeps_run (Store.next s) limit n root s (store_ok_above s Hok))
      as (_ & Hsame & _).
    rewrite Hsame; [done|]. by eapply Hok.
  - intros context Hcontext.
    destruct (Store.run limit n root s) as [res s'] eqn:Hrun. simpl in *. subst res.
    pose proof (run_orig_kept limit n root s Hok) as Hkept.
    rewrite Hrun in Hkept. apply run_Ok in Hrun as ->.
    destruct Hkept as [_ (cls & attrs & Hcell & Hattr)].
    unfold Store.getattr, mbind, M_bind, Store.read. simpl in *.
    rewrite Hcell. by rewrite Hattr.
Qed.

(** The example with triggers: the store that holds the parsed root is
    sound, and the run returns. *)
Lemma run_keeps_original_witness :
  ∃ (root context : Store.val) (s : Store.store),
    Store.store_root root_modes (Store.empty rng_count) = (Ok root, s)
    ∧ Store.store_ok s
    ∧ (Store.run 10 2 root s).1 = Ok context
    ∧ (∀ l c, Store.cells s !! l = Some c →
              Store.cells (Store.run 10 2 root s).2 !! l = Some c)
    ∧ Store.getattr context (py "orig_root") (Store.run 10 2 root s).2
      = (Ok root, (Store.run 10 2 root s).2).
Proof.
  eexists _, _, _. split; [vm_compute; reflexivity|].
  match goal with
  | |- Store.store_ok ?s ∧ _ =>
      assert (Store.store_ok s) as Hok
        by (apply store_ok_check_sound; vm_compute; reflexivity)
  end.
  split; [exact Hok|]. split; [vm_compute; reflexivity|].
  match goal with
  | |- _ ∧ Store.getattr _ _ (Store.run _ _ ?root ?s).2 = _ =>
      destruct (run_keeps_original 10 2 root s Hok) as [Hsame Horig]
  end.
  split; [exact Hsame|]. apply Horig. vm_compute. reflexivity.
Defined.

(** ** Shared objects *)

(** C4 as stated fails where two overrides of a trigger are one and the
    same mapping, as a YAML anchor and its alias make them (the copy of
    the root keeps the sharing): renaming the override of [mode] renames
    the labels of that mapping where it is, and the override of [speed],
    the same mapping, carries the wrapper label that [easy] has in [mode]
    and no longer [easy], which the renaming of [speed] leaves alone. *)
Lemma shared_override_takes_other_labels :
  ∃ (root context overrides shared : Store.val) (s s' : Store.store)
    (mode_wrapper speed_wrapper : key) (mode_names speed_names : list (key * Store.val))
    (mode_easy : key) (labels : list key),
    Store.store_root_shared (Store.empty rng_count) = (Ok root, s)
    ∧ Store.run 10 1 root s = (Ok context, s')
    ∧ Store.trigger_overrides context (KStr (py "G")) 0 s' = (Ok overrides, s')
    ∧ Store.dict_items overrides s'
      = (Ok [(mode_wrapper, shared); (speed_wrapper, shared)], s')
    ∧ Store.wrapper_names context (KStr (py "G")) mode_wrapper s'
      = (Ok (Store.Imm (KStr (py "mode")), mode_names), s')
    ∧ Store.wrapper_names context (KStr (py "G")) speed_wrapper s'
      = (Ok (Store.Imm (KStr (py "speed")), speed_names), s')
    ∧ Store.dict_keys shared s' = (Ok labels, s')
    ∧ dict_get (KStr (py "easy")) speed_names = None
    ∧ (KStr (py "easy") ∉ labels)
    ∧ dict_get (KStr (py "easy")) mode_names = Some (Store.Imm mode_easy)
    ∧ mode_easy ∈ labels.
Proof.
  eexists _, _, _, _, _, _, _, _, _, _, _, _.
  split_and!; try (vm_compute; reflexivity);
    apply (bool_decide_eq_true_1 _); vm_compute; reflexivity.
Qed.
(** * Further properties of the code *)

(** ** The list helper and the lookup of a game *)


(** [Root.game_by_name] returns the first game of that name, and raises
    [IndexError], with the name, exactly when no game has it. *)
Theorem game_by_name_first (root : Root) (game_name : pystr) :
  (∀ game, Root.game_by_name root game_name = Ok game ↔
     ∃ i, Root.games root !! i = Some game
          ∧ Game.name game = game_name
          ∧ ∀ j other, Root.games root !! j = Some other → (j < i)%nat →
                       Game.name other ≠ game_name)
  ∧ (∀ e, Root.game_by_name root game_name = Raise e ↔
       e = IndexError game_name ∧ game_name ∉ Game.name <$> Root.games root).
Proof.
  unfold Root.game_by_name. split.
  - intros game. destruct (list_find _ _) as [[i g]|] eqn:Hfind.
    + apply list_find_Some in Hfind as (Hi & Hname & Hfirst). split.
      * intros [= <-]. exists i. split_and!; [done|done|]. intros j other Hj Hlt.
        by apply (Hfirst j other).
      * intros (i' & Hi' & Hname' & Hfirst'). f_equal.
        destruct (Nat.lt_trichotomy i i') as [Hlt|[->|Hlt]].
        -- destruct (Hfirst' i g Hi Hlt Hname).
        -- congruence.
        -- destruct (Hfirst i' game Hi' Hlt Hname').
    + apply list_find_None in Hfind. split; [done|].
      intros (i & Hi & Hname & _).
      destruct (proj1 (Forall_forall _ _) Hfind game); [|done].
      by eapply list_elem_of_lookup_2.
  - intros e. destruct (list_find _ _) as [[i g]|] eqn:Hfind.
    + apply list_find_Some in Hfind as (Hi & Hname & _). split; [done|].
      intros [_ Hnot]. destruct Hnot. apply list_elem_of_fmap. exists g.
      split; [done|]. by eapply list_elem_of_lookup_2.
    + apply list_find_None in Hfind. split.
      * intros [= <-]. split; [done|]. intros (g & Hname & Hg)%list_elem_of_fmap.
        by destruct (proj1 (Forall_forall _ _) Hfind g).
      * by intros [-> _].
Qed.

(** ** The name generator *)

Lemma weird_chars_name (n : nat) (r : rng) :
  ∃ name, weird_chars n r = (Ok name, Rng (draws r) (pos r + N.of_nat n))
          ∧ length name = n ∧ Forall (fun c => c ∈ WEIRD_CHARS) name.
Proof.
  revert r. induction n as [|n IH]; intros r.
  - exists []. split_and!; [|done|constructor]. simpl. unfold mret, M_ret.
    rewrite N.add_0_r. by destruct r.
  - destruct (choice_WEIRD_CHARS r) as [c Hc].
    assert (c ∈ WEIRD_CHARS) as Hin.
    { unfold choice in Hc. rewrite decide_False in Hc by done.
      unfold mbind, M_bind, randbelow in Hc.
      destruct (WEIRD_CHARS !! _) as [c'|] eqn:Hlookup; [|done].
      injection Hc as <-. by eapply list_elem_of_lookup_2. }
    destruct (IH (Rng (draws r) (N.succ (pos r)))) as (name & Hname & Hlen & Hall).
    exists (c :: name). split_and!; [|by simpl; f_equal|by constructor].
    simpl. rewrite (bind_eq _ _ _ _ _ Hc), (bind_eq _ _ _ _ _ Hname).
    unfold mret, M_ret. simpl. do 2 f_equal. lia.
Qed.

(** [generate_new_name]: with [minlen <= maxlen] it returns a name of
    [minlen] to [maxlen] characters (none when the bound is negative),
    all of them of [WEIRD_CHARS], after one draw for the length and one
    for each character; with [maxlen < minlen] it raises the [ValueError]
    of [randint]. *)
Theorem generate_new_name_length (minlen maxlen : Z) (r : rng) :
  (minlen ≤ maxlen →
   ∃ name n,
     generate_new_name minlen maxlen r
     = (Ok name, Rng (draws r) (pos r + 1 + N.of_nat (length name)))
     ∧ minlen ≤ n ≤ maxlen
     ∧ length name = Z.to_nat n
     ∧ Forall (fun c => c ∈ WEIRD_CHARS) name)
  ∧ (maxlen < minlen →
     generate_new_name minlen maxlen r = (Raise ValueError, r)).
Proof.
  unfold generate_new_name, randint. split.
  - intros Hle. rewrite decide_False by lia.
    set (k := (draws r (pos r) mod Z.to_N (maxlen - minlen + 1))%N).
    destruct (weird_chars_name (Z.to_nat (minlen + Z.of_N k))
                                (Rng (draws r) (N.succ (pos r))))
      as (name & Hname & Hlen & Hall).
    exists name, (minlen + Z.of_N k). split_and!; [|..|done|done].
    + unfold mbind at 1 2, M_bind, randbelow, mret, M_ret. fold k.
      rewrite Hname, Hlen. simpl. do 2 f_equal. lia.
    + lia.
    + pose proof (N.mod_upper_bound (draws r (pos r)) (Z.to_N (maxlen - minlen + 1))).
      fold k in H. lia.
  - intros Hlt. by rewrite decide_True.
Qed.

Lemma generate_new_name_length_witness :
  (∃ name n,
     generate_new_name 20 50 rng_count
     = (Ok name, Rng (draws rng_count) (pos rng_count + 1 + N.of_nat (length name)))
     ∧ 20 ≤ n ≤ 50
     ∧ length name = Z.to_nat n
     ∧ Forall (fun c => c ∈ WEIRD_CHARS) name)
  ∧ generate_new_name 50 20 rng_count = (Raise ValueError, rng_count).
Proof.
  split.
  - apply (proj1 (generate_new_name_length 20 50 rng_count)). lia.
  - apply (proj2 (generate_new_name_length 50 20 rng_count)). lia.
Defined.

(** ** The escaped encoder *)

Lemma hex_digits_escape_chars (u : Hexadecimal.uint) :
  Forall (fun c => c ∈ escape_chars) (py (HexadecimalString.NilEmpty.string_of_uint u)).
Proof.
  unfold py. induction u as [|u IH|u IH|u IH|u IH|u IH|u IH|u IH|u IH|u IH|u IH
                             |u IH|u IH|u IH|u IH|u IH|u IH]; csimpl;
    [constructor|..];
    (constructor; [apply (bool_decide_eq_true_1 _); vm_compute; reflexivity|exact IH]).
Qed.

Lemma format_hex_escape_chars (width : nat) (n : N) :
  Forall (fun c => c ∈ escape_chars) (format_hex width n).
Proof.
  unfold format_hex. apply Forall_app. split.
  - apply Forall_replicate. apply (bool_decide_eq_true_1 _). vm_compute. reflexivity.
  - unfold HexadecimalString.NilZero.string_of_uint.
    destruct (N.to_hex_uint n) eqn:Hn; try apply hex_digits_escape_chars.
    constructor; [|constructor]. apply (bool_decide_eq_true_1 _). vm_compute. reflexivity.
Qed.

Lemma format_hex_length (width : nat) (n : N) : (width ≤ length (format_hex width n))%nat.
Proof. unfold format_hex. rewrite length_app, length_replicate. lia. Qed.

Lemma ord_to_unicode_Ok (c : N) :
  (c < 2 ^ 32)%N →
  ∃ esc, ord_to_unicode (Z.of_N c) = Ok esc
         ∧ Forall (fun c => c ∈ escape_chars) esc ∧ (6 ≤ length esc)%nat.
Proof.
  intros Hc. unfold ord_to_unicode.
  rewrite (bool_decide_eq_true_2 (Z.of_N c >= 0)) by lia.
  rewrite (bool_decide_eq_true_2 (Z.of_N c < 2 ^ 32)) by lia.
  cbn [assert_ mbind result_bind].
  destruct (decide (Z.of_N c < 2 ^ 16)); eexists; (split; [reflexivity|]); split.
  - apply Forall_app. split; [|apply format_hex_escape_chars].
    repeat (constructor; [apply (bool_decide_eq_true_1 _); vm_compute; reflexivity|]).
    constructor.
  - rewrite length_app. pose proof (format_hex_length 4 (Z.to_N (Z.of_N c))).
    change (length (py "\u")) with 2%nat. lia.
  - apply Forall_app. split; [|apply format_hex_escape_chars].
    repeat (constructor; [apply (bool_decide_eq_true_1 _); vm_compute; reflexivity|]).
    constructor.
  - rewrite length_app. pose proof (format_hex_length 8 (Z.to_N (Z.of_N c))).
    change (length (py "\U")) with 2%nat. lia.
Qed.

Lemma ord_to_unicode_Raise (c : N) :
  ¬ (c < 2 ^ 32)%N → ord_to_unicode (Z.of_N c) = Raise AssertionError.
Proof.
  intros Hc. unfold ord_to_unicode.
  rewrite (bool_decide_eq_true_2 (Z.of_N c >= 0)) by lia.
  rewrite (bool_decide_eq_false_2 (Z.of_N c < 2 ^ 32)) by lia. done.
Qed.

Lemma join_empty_cons (p : pystr) (parts : list pystr) :
  join [] (p :: parts) = p ++ join [] parts.
Proof. destruct parts; simpl; [by rewrite app_nil_r|done]. Qed.

Lemma str_to_unicode_escapes_Ok (s : pystr) :
  encodable_str s →
  ∃ esc, str_to_unicode_escapes s = Ok esc
         ∧ Forall (fun c => c ∈ escape_chars) esc
         ∧ (6 * length s ≤ length esc)%nat.
Proof.
  unfold str_to_unicode_escapes.
  induction 1 as [|c s Hc Hs IH]; [by exists []|].
  destruct IH as (esc & Hrun & Hall & Hlen).
  destruct (ord_to_unicode_Ok c Hc) as (e1 & He1 & Hall1 & Hlen1).
  destruct (mapR ord_to_unicode (Z.of_N <$> s)) as [parts|] eqn:Hparts; [|done].
  injection Hrun as <-.
  exists (e1 ++ join [] parts). csimpl. rewrite He1. cbn [mbind result_bind].
  rewrite Hparts. cbn [mbind result_bind]. rewrite join_empty_cons.
  split_and!; [done|by apply Forall_app|]. rewrite length_app. simpl in *. lia.
Qed.

Lemma str_to_unicode_escapes_Raise (s : pystr) :
  ¬ encodable_str s → str_to_unicode_escapes s = Raise AssertionError.
Proof.
  unfold str_to_unicode_escapes, encodable_str.
  induction s as [|c s IH]; intros Hs; [destruct Hs; constructor|].
  csimpl. destruct (decide (c < 2 ^ 32)%N) as [Hc|Hc].
  - destruct (ord_to_unicode_Ok c Hc) as (e1 & -> & _). cbn [mbind result_bind].
    assert (¬ Forall (fun c => (c < 2 ^ 32)%N) s) as Hrest
      by (intros Hrest; apply Hs; by constructor).
    specialize (IH Hrest).
    destruct (mapR ord_to_unicode (Z.of_N <$> s)); [done|].
    by injection IH as ->.
  - by rewrite (ord_to_unicode_Raise c Hc).
Qed.

(** [str_to_unicode_escapes] turns every character of a string into an
    escape: it returns for every string of code points (below [2^32]),
    what it returns holds only the backslash, [u], [U] and lower-case
    hexadecimal digits, six characters at least for each character of the
    string; an element that is no code point breaks an [assert]. *)
Theorem str_to_unicode_escapes_only_escapes (s : pystr) :
  (encodable_str s →
   ∃ esc, str_to_unicode_escapes s = Ok esc
          ∧ Forall (fun c => c ∈ escape_chars) esc
          ∧ (6 * length s ≤ length esc)%nat)
  ∧ (¬ encodable_str s → str_to_unicode_escapes s = Raise AssertionError).
Proof. split; [apply str_to_unicode_escapes_Ok|apply str_to_unicode_escapes_Raise]. Qed.

Lemma str_to_unicode_escapes_only_escapes_witness :
  (∃ esc, str_to_unicode_escapes [0x41; 0x1F600]%N = Ok esc
          ∧ Forall (fun c => c ∈ escape_chars) esc
          ∧ (6 * length [0x41; 0x1F600]%N ≤ length esc)%nat)
  ∧ str_to_unicode_escapes [(2 ^ 32)%N] = Raise AssertionError.
Proof.
  split.
  - apply (proj1 (str_to_unicode_escapes_only_escapes [0x41; 0x1F600]%N)).
    repeat constructor.
  - apply (proj2 (str_to_unicode_escapes_only_escapes [(2 ^ 32)%N])).
    intros Hall. apply Forall_cons in Hall as [Hc _]. revert Hc. apply N.lt_irrefl.
Defined.

(** Induction on a tree, with the property for the items of a list and
    for the values of a mapping. *)
Lemma value_tree_ind (P : value → Prop) :
  P VNone → (∀ b, P (VBool b)) → (∀ z, P (VInt z)) → (∀ f, P (VFloat f)) →
  (∀ s, P (VStr s)) →
  (∀ xs, Forall P xs → P (VList xs)) →
  (∀ d, Forall (fun kv : key * value => P kv.2) d → P (VDict d)) →
  (∀ ty text hashable, P (VOther ty text hashable)) →
  ∀ obj, P obj.
Proof.
  intros HNone HBool HInt HFloat HStr HList HDict HOther.
  fix IH 1.
  intros [|b|z|f|s|xs|d|ty text hashable];
    [exact HNone|apply HBool|apply HInt|apply HFloat|apply HStr| | |apply HOther].
  - apply HList. induction xs as [|x xs IHxs]; constructor; [apply IH|exact IHxs].
  - apply HDict. induction d as [|[k v] d IHd]; constructor; [apply IH|exact IHd].
Qed.

Lemma mapR_Ok_Forall {A B} (f : A → result B) (l : list A) :
  (∃ l', mapR f l = Ok l') ↔ Forall (fun x => ∃ y, f x = Ok y) l.
Proof.
  induction l as [|x l IH]; simpl.
  - split; [constructor|by exists []].
  - split.
    + intros [l' (y & Hy & (ys & Hys & _)%result_bind_Ok)%result_bind_Ok].
      constructor; [by exists y|]. apply IH. by exists ys.
    + intros [[y Hy] [ys Hys]%IH]%Forall_cons. rewrite Hy. simpl. rewrite Hys.
      by eexists.
Qed.

Lemma mapR_Raise {A B} (f : A → result B) (l : list A) (e : exn) :
  mapR f l = Raise e → ∃ x, x ∈ l ∧ f x = Raise e.
Proof.
  induction l as [|x l IH]; simpl; [done|].
  destruct (f x) as [y|e'] eqn:Hx; simpl.
  - destruct (mapR f l) as [ys|e'] eqn:Hl; simpl; [done|].
    intros [= ->]. destruct (IH eq_refl) as (x' & Hin & Hx'). exists x'.
    split; [by right|done].
  - intros [= ->]. exists x. split; [left|done].
Qed.

Lemma str_to_unicode_escapes_encodable (s : pystr) :
  encodable_str s ↔ ∃ esc, str_to_unicode_escapes s = Ok esc.
Proof.
  split.
  - intros (esc & Hesc & _)%str_to_unicode_escapes_Ok. by exists esc.
  - intros [esc Hesc]. destruct (decide (encodable_str s)) as [|Hs]; [done|].
    by rewrite (str_to_unicode_escapes_Raise s Hs) in Hesc.
Qed.

Lemma str_int_Ok_printable (z : Z) : printable z ↔ ∃ text, str_int z = Ok text.
Proof.
  split.
  - intros Hz. rewrite (str_int_printable z Hz). by eexists.
  - intros [text Hz]. destruct (decide (printable z)) as [|Hn]; [done|].
    by rewrite (str_int_long z Hn) in Hz.
Qed.

Lemma do_dict_inner_with_Ok (encode : value → result pystr) (k : key) (v : value) :
  (∃ text, do_dict_inner_with encode k v = Ok text)
  ↔ encodable_key k ∧ ∃ text, encode v = Ok text.
Proof.
  destruct k as [|b|z|f|s|ty text]; simpl.
  - destruct (encode v); naive_solver.
  - destruct (encode v); naive_solver.
  - rewrite str_int_Ok_printable. destruct (str_int z); simpl.
    + destruct (encode v); naive_solver.
    + naive_solver.
  - naive_solver.
  - rewrite str_to_unicode_escapes_encodable.
    destruct (str_to_unicode_escapes s); simpl.
    + destruct (encode v); naive_solver.
    + naive_solver.
  - naive_solver.
Qed.

(** The encoder returns exactly on the trees it can take: strings of code
    points, integers that [str] accepts, floats, booleans, null, lists of
    such and mappings of such under keys that are a string, an integer, a
    boolean or null.  On another tree it raises what the first offending
    part raises: [NotImplementedError] for an object or a key of another
    type, [ValueError] for an integer of more than 4300 digits,
    [AssertionError] for a string element that is no code point. *)
Theorem do_encodable (obj : value) :
  (encodable obj ↔ ∃ text, do obj = Ok text)
  ∧ (∀ e, do obj = Raise e →
       (∃ msg, e = NotImplementedError msg) ∨ e = ValueError ∨ e = AssertionError).
Proof.
  induction obj as [|b|z|f|s|xs IH|d IH|ty text hashable] using value_tree_ind.
  - split; [|done]. split; [by eexists|done].
  - split; [|done]. split; [by eexists|done].
  - split; [apply str_int_Ok_printable|].
    intros e. simpl. unfold str_int. case_bool_decide; [done|]. intros [= <-]. auto.
  - split; [|done]. split; [by eexists|done].
  - split.
    + cbn [encodable do]. rewrite str_to_unicode_escapes_encodable.
      destruct (str_to_unicode_escapes s); simpl; naive_solver.
    + intros e. cbn [do]. destruct (decide (encodable_str s)) as [Hs|Hs].
      * destruct (str_to_unicode_escapes_Ok s Hs) as (esc & -> & _). done.
      * rewrite (str_to_unicode_escapes_Raise s Hs). intros [= <-]. auto.
  - split.
    + cbn [encodable do].
      assert (foldr (fun x rest => encodable x ∧ rest) True xs
              ↔ Forall (fun x => ∃ y, do x = Ok y) xs) as ->.
      { induction IH as [|x xs [Hx _] _ IHxs]; simpl; [by split; [constructor|]|].
        rewrite Forall_cons, Hx, IHxs. done. }
      rewrite <- mapR_Ok_Forall. destruct (mapR do xs); simpl; naive_solver.
    + intros e. cbn [do]. destruct (mapR do xs) as [parts|e'] eqn:Hparts; [done|].
      simpl. intros [= ->]. apply mapR_Raise in Hparts as (x & Hin & Hx).
      by apply (proj1 (Forall_forall _ _) IH x Hin).
  - split.
    + cbn [encodable do].
      assert (foldr (fun (kv : key * value) rest =>
                       (encodable_key kv.1 ∧ encodable kv.2) ∧ rest) True d
              ↔ Forall (fun kv : key * value =>
                          ∃ y, do_dict_inner_with do kv.1 kv.2 = Ok y) d) as ->.
      { induction IH as [|[k v] d [Hv _] _ IHd]; simpl; [by split; [constructor|]|].
        rewrite Forall_cons, IHd. simpl. rewrite do_dict_inner_with_Ok, Hv. done. }
      rewrite <- mapR_Ok_Forall.
      destruct (mapR _ d); simpl; naive_solver.
    + intros e. cbn [do].
      destruct (mapR _ d) as [parts|e'] eqn:Hparts; [done|].
      simpl. intros [= ->]. apply mapR_Raise in Hparts as ([k v] & Hin & Hkv).
      pose proof (proj1 (Forall_forall _ _) IH (k, v) Hin) as [_ Hv]. simpl in *.
      destruct k as [|b|z|f|s|ty text]; simpl in Hkv.
      * destruct (do v) as [r|e'] eqn:Hr; [done|]. injection Hkv as ->. by apply Hv.
      * destruct (do v) as [r|e'] eqn:Hr; [done|]. injection Hkv as ->. by apply Hv.
      * unfold str_int in Hkv. case_bool_decide; simpl in Hkv.
        -- destruct (do v) as [r|e'] eqn:Hr; [done|]. injection Hkv as ->. by apply Hv.
        -- injection Hkv as <-. auto.
      * injection Hkv as <-. eauto.
      * destruct (decide (encodable_str s)) as [Hs|Hs].
        -- destruct (str_to_unicode_escapes_Ok s Hs) as (esc & Hesc & _).
           rewrite Hesc in Hkv. simpl in Hkv.
           destruct (do v) as [r|e'] eqn:Hr; [done|]. injection Hkv as ->. by apply Hv.
        -- rewrite (str_to_unicode_escapes_Raise s Hs) in Hkv. injection Hkv as <-. auto.
      * injection Hkv as <-. eauto.
  - split; [split; [done|by intros [? ?]]|]. intros e [= <-]. eauto.
Qed.

Lemma do_encodable_witness :
  (∃ text, do (VDict [(KStr (py "a"), VList [VInt 1; VStr [233%N]]); (KNone, VNone)])
           = Ok text)
  ∧ ((∃ msg, NotImplementedError (py "<class 'set'>") = NotImplementedError msg)
     ∨ NotImplementedError (py "<class 'set'>") = ValueError
     ∨ NotImplementedError (py "<class 'set'>") = AssertionError).
Proof.
  split.
  - apply (proj1 (proj1 (do_encodable
             (VDict [(KStr (py "a"), VList [VInt 1; VStr [233%N]]); (KNone, VNone)])))).
    assert (printable 1) as H1 by (vm_compute; reflexivity).
    simpl. split_and!; try exact I; try exact H1; repeat constructor.
  - apply (proj2 (do_encodable (VOther (py "<class 'set'>") (py "{1}") false))).
    reflexivity.
Defined.

(** ** Serialising the model *)

Section fold_result.
Context {A B V : Type} (f : A → result V) (g : B → A → V → B).

Local Abbreviation step :=
  (fun (acc : result B) (x : A) => b ← acc; v ← f x; Ok (g b x v)).



End fold_result.





Lemma stringify_keys_strings (weights : list (pystr * value)) :
  NoDup weights.*1 →
  WeightedOption.stringify_keys (prod_map KStr id <$> weights) = Ok weights.
Proof.
  intros Hnd. unfold WeightedOption.stringify_keys.
  assert (∀ acc : list (pystr * value),
    NoDup (acc.*1 ++ weights.*1) →
    foldl (fun acc (kv : key * value) =>
             weights ← acc; label ← str_key kv.1; Ok (dict_set label kv.2 weights))
          (Ok acc) (prod_map KStr id <$> weights)
    = Ok (acc ++ weights)) as Hgen.
  { clear Hnd. induction weights as [|[label v] weights IH]; intros acc Hnd.
    - by rewrite app_nil_r.
    - csimpl. rewrite dict_set_keys_fresh.
      + rewrite IH; [by rewrite <- app_assoc|].
        rewrite fmap_app, <- app_assoc. done.
      + apply NoDup_app in Hnd as (_ & Hnot & _). intros Hin.
        apply (Hnot label Hin). left. }
  apply (Hgen []). done.
Qed.

(** Parsing an option and serialising it again gives the value back for
    a value that is kept raw (a special option, a list, null, a float, an
    object), for a bare string label, and for a mapping of two or more
    distinct string labels.  A mapping of one string label comes back as
    the bare label (its weight is dropped), and a bare integer as its
    text. *)
Theorem Option_output_parse (option_name : pystr) (obj : value) (option : Option) :
  Option.parse option_name obj = Ok option →
  (option_name ∈ GAME_SPECIAL_OPTIONS → Option.output option = Ok obj)
  ∧ (option_name ∉ GAME_SPECIAL_OPTIONS →
     match obj with
     | VDict d =>
         ∀ weights, d = prod_map KStr id <$> weights → NoDup weights.*1 →
           match weights with
           | [] => Option.output option = Raise (Exception_ (py "Empty weigthed option"))
           | [(label, _)] => Option.output option = Ok (VStr label)
           | _ => Option.output option = Ok obj
           end
     | VInt z => Option.output option = Ok (VStr (decimal z))
     | VBool b => Option.output option = Ok (VStr (str_bool b))
     | _ => Option.output option = Ok obj
     end).
Proof.
  unfold Option.parse. intros Hparse. split.
  - intros Hname. rewrite bool_decide_eq_true_2 in Hparse by done.
    by injection Hparse as <-.
  - intros Hname. rewrite bool_decide_eq_false_2 in Hparse by done.
    destruct obj as [|b|z|f|s|xs|d|ty text hashable]; cbn [WeightedOption.parse] in Hparse;
      try (by injection Hparse as <-).
    + unfold str_int in Hparse. case_bool_decide; [|done]. by injection Hparse as <-.
    + intros weights -> Hnd. rewrite (stringify_keys_strings weights Hnd) in Hparse.
      injection Hparse as <-. destruct weights as [|[label v] [|item weights]]; done.
Qed.

Lemma Option_output_parse_witness :
  Option.output (WeightedOption [(py "full", VInt 3); (py "minimal", VInt 1)])
  = Ok (VDict [(KStr (py "full"), VInt 3); (KStr (py "minimal"), VInt 1)]).
Proof.
  assert (py "accessibility" ∉ GAME_SPECIAL_OPTIONS) as Hplain
    by (apply (bool_decide_eq_false_1 _); vm_compute; reflexivity).
  assert (Option.parse (py "accessibility")
            (VDict [(KStr (py "full"), VInt 3); (KStr (py "minimal"), VInt 1)])
          = Ok (WeightedOption [(py "full", VInt 3); (py "minimal", VInt 1)])) as Hparse
    by (vm_compute; reflexivity).
  apply (proj2 (Option_output_parse _ _ _ Hparse) Hplain
           [(py "full", VInt 3); (py "minimal", VInt 1)] eq_refl).
  apply (bool_decide_eq_true_1 _). vm_compute. reflexivity.
Defined.




Lemma game_by_name_first_witness :
  Root.game_by_name root_modes (py "G") = Ok game_modes
  ∧ Root.game_by_name root_modes (py "H") = Raise (IndexError (py "H")).
Proof.
  split.
  - apply (proj1 (game_by_name_first root_modes (py "G"))). exists 0%nat.
    split_and!; [done|done|]. intros j other _ Hlt. lia.
  - apply (proj2 (game_by_name_first root_modes (py "H"))). split; [done|].
    apply (bool_decide_eq_true_1 _). vm_compute. reflexivity.
Defined.

(** ** The engine *)

Lemma obfuscate_game_wrap_frame (self self' : Context) (game_name : pystr)
    (first_time : bool) (r r' : rng) :
  Context.obfuscate_game_wrap self game_name first_time r = (Ok self', r') →
  Context.orig_root self' = Context.orig_root self
  ∧ Context.extra_root self' = Context.extra_root self
  ∧ Context.iteration self' = Context.iteration self
  ∧ (Context.extra_games self').*1 = (Context.extra_games self).*1
  ∧ Game.name <$> Root.games (Context.root self')
    = Game.name <$> Root.games (Context.root self).
Proof.
  intros Hrun. pose proof Hrun as Hrun'.
  apply obfuscate_game_wrap_Ok in Hrun'
    as (game & game' & extra & extra' & Hgame & Hextra & Hwrap & Hname & _).
  unfold Context.obfuscate_game_wrap in Hrun.
  rewrite (bind_eq _ _ _ game r) in Hrun by (by rewrite Hgame).
  assert (dict_item game_name (Context.extra_games self) = Ok extra) as Hitem
    by (unfold dict_item; by rewrite Hextra).
  rewrite (bind_eq _ _ _ extra r) in Hrun by (by rewrite Hitem).
  rewrite (bind_eq _ _ _ _ _ Hwrap) in Hrun.
  apply ret_Ok in Hrun as [<- _]. simpl. split_and!; try done.
  - apply dict_set_keys_old. apply dict_get_is_Some. by rewrite Hextra.
  - apply wrap_game_Ok in Hwrap as (_ & _ & _ & _ & Hname' & _).
    unfold Root.with_game, Root.game_by_name in *.
    destruct (list_find _ _) as [[i g]|] eqn:Hfind; [|done].
    injection Hgame as ->. simpl. apply list_find_Some in Hfind as (Hi & _).
    rewrite list_fmap_insert, Hname'. apply list_insert_id.
    by rewrite list_lookup_fmap, Hi.
Qed.

Lemma obfuscate_games_frame (names : list pystr) (self self' : Context) (r r' : rng) :
  for_ names Context.obfuscate_game self r = (Ok self', r') →
  Context.orig_root self' = Context.orig_root self
  ∧ Context.extra_root self' = Context.extra_root self
  ∧ Context.iteration self' = Context.iteration self
  ∧ (Context.extra_games self').*1 = (Context.extra_games self).*1
  ∧ Game.name <$> Root.games (Context.root self')
    = Game.name <$> Root.games (Context.root self).
Proof.
  revert self r. induction names as [|name names IH]; intros self r; simpl.
  - by intros [<- _]%ret_Ok.
  - intros (self1 & r1 & Hstep & Hrest)%bind_Ok.
    apply obfuscate_game_wrap_frame in Hstep as (? & ? & ? & ? & ?).
    apply IH in Hrest as (? & ? & ? & ? & ?). split_and!; congruence.
Qed.

(** A pass that returns has counted itself: [iteration] is one more; the
    context still holds the root it was made from as [orig_root], the same
    top-level side table, a side table for the same game names, and the
    games of the working root have the names they had. *)
Theorem obfuscate_counts_pass (self self' : Context) (r r' : rng) :
  Context.obfuscate self r = (Ok self', r') →
  Context.iteration self' = Context.iteration self + 1
  ∧ Context.orig_root self' = Context.orig_root self
  ∧ Context.extra_root self' = Context.extra_root self
  ∧ (Context.extra_games self').*1 = (Context.extra_games self).*1
  ∧ Game.name <$> Root.games (Context.root self')
    = Game.name <$> Root.games (Context.root self).
Proof.
  unfold Context.obfuscate. intros (self1 & r1 & Hloop & Hret)%bind_Ok.
  apply ret_Ok in Hret as [<- _]. simpl.
  apply obfuscate_games_frame in Hloop as (? & ? & ? & ? & ?).
  split_and!; congruence.
Qed.

Lemma obfuscate_counts_pass_witness :
  ∃ self' r',
    Context.obfuscate (Context.new root_modes) rng_count = (Ok self', r')
    ∧ Context.iteration self' = 1
    ∧ Context.orig_root self' = root_modes.
Proof.
  assert (∃ self' r', Context.obfuscate (Context.new root_modes) rng_count = (Ok self', r'))
    as (self' & r' & Hrun) by (eexists _, _; vm_compute; reflexivity).
  exists self', r'.
  destruct (obfuscate_counts_pass _ _ _ _ Hrun) as (Hit & Horig & _).
  split; [exact Hrun|]. split; [exact Hit|exact Horig].
Defined.

Lemma for_Ok_steps {S A St} (xs : list A) (body : St → A → M S St) (st st' : St)
    (s s' : S) (x : A) :
  for_ xs body st s = (Ok st', s') → x ∈ xs →
  ∃ st0 s0 st1 s1, body st0 x s0 = (Ok st1, s1).
Proof.
  revert st s. induction xs as [|y xs IH]; intros st s Hrun Hin.
  - by apply elem_of_nil in Hin.
  - simpl in Hrun. apply bind_Ok in Hrun as (st1 & s1 & Hstep & Hrest).
    apply elem_of_cons in Hin as [->|Hin]; [by eexists _, _, _, _|].
    by eapply IH.
Qed.

Lemma wrap_option_empty (st : ContextExtra.options_state) (name : pystr)
    (option : Option) (r : rng) :
  isinstance_WeightedOption option = true → weights_of option = [] →
  ∃ e r', ContextExtra.wrap_option st (name, option) r = (Raise e, r')
          ∧ (e = AssertionError ∨ e = Exception_ (py "Unable to generate unique name")).
Proof.
  intros Hweighted Hempty. destruct st as [[self rtw] triggers].
  unfold ContextExtra.wrap_option. rewrite Hweighted. cbn [negb].
  unfold ContextExtra.generate_option.
  destruct (generate_unique_name (ContextExtra.options self).*1 20 50 r)
    as [[wrapped_name|e] r1] eqn:Hname.
  - exists AssertionError, r1. split; [|by left].
    rewrite (bind_eq _ _ r
               (wrapped_name, WrappedWeightedOption.wrap name option,
                ContextExtra.make (ContextExtra.game_name self)
                  (dict_set wrapped_name (WrappedWeightedOption.wrap name option)
                            (ContextExtra.options self))
                  (ContextExtra.triggers self)) r1)
      by (by rewrite (bind_eq _ _ _ _ _ Hname)).
    rewrite Hempty. reflexivity.
  - exists e, r1. split.
    + apply bind_eq_Raise. by apply bind_eq_Raise.
    + right. unfold generate_unique_name in Hname.
      apply generate_unique_name_from_Raise in Hname; [done|lia].
Qed.

(** A weighted option without a label cannot be wrapped: the loop body
    raises for it, by the [assert] that the wrapper has a label (or,
    before that, when no name can be found for the wrapper), and
    [create_wrapper_options] does not return when it is given one. *)
Theorem create_wrapper_options_rejects_empty (self : ContextExtra)
    (orig_options : list (pystr * Option)) (name : pystr) (option : Option) (r : rng) :
  (name, option) ∈ orig_options →
  isinstance_WeightedOption option = true → weights_of option = [] →
  (∀ st r0, ∃ e r',
      ContextExtra.wrap_option st (name, option) r0 = (Raise e, r')
      ∧ (e = AssertionError ∨ e = Exception_ (py "Unable to generate unique name")))
  ∧ ∃ e r', ContextExtra.create_wrapper_options self orig_options r = (Raise e, r').
Proof.
  intros Hin Hweighted Hempty. split; [intros st r0; by apply wrap_option_empty|].
  unfold ContextExtra.create_wrapper_options.
  destruct (for_ orig_options ContextExtra.wrap_option (self, [], []) r)
    as [[st'|e] r'] eqn:Hloop.
  - destruct (for_Ok_steps _ _ _ _ _ _ _ Hloop Hin) as (st0 & r0 & st1 & r1 & Hstep).
    destruct (wrap_option_empty st0 name option r0 Hweighted Hempty)
      as (e & r2 & Hraise & _).
    rewrite Hraise in Hstep. discriminate Hstep.
  - exists e, r'. by apply bind_eq_Raise.
Qed.

Lemma create_wrapper_options_rejects_empty_witness :
  ∃ e r',
    ContextExtra.create_wrapper_options (ContextExtra.new (py "G"))
      [(py "mode", WeightedOption [])] rng_count
    = (Raise e, r').
Proof.
  apply (proj2 (create_wrapper_options_rejects_empty (ContextExtra.new (py "G"))
                  [(py "mode", WeightedOption [])] (py "mode") (WeightedOption [])
                  rng_count ltac:(left) eq_refl eq_refl)).
Defined.
